(** * Layered configuration resolution: registry, models, consolidator, change event

    A shallow embedding of
    [vs/platform/configuration/common/configurationRegistry.ts] and
    [vs/platform/configuration/common/configurationModels.ts] (both carried by
    [src/out-editor-src/vs/platform/telemetry/common/telemetry.ts]) together
    with the helpers of [vs/base/common/types.ts] they call.

    JavaScript objects used as dictionaries are finite maps ([gmap string _]);
    a property bound to [undefined] reads like an absent property, so both are
    the absence of a binding.  Arrays whose order is observable ([keys],
    [overrides], the properties of a contributed node as walked by [for .. in])
    are lists.  Methods that mutate [this] return the new state. *)

From stdpp Require Import gmap strings list fin_maps pretty.
From Stdlib Require Import ZArith Ascii.
From Stdlib Require String.

Set Warnings "-register-all,-clear-no-such-hyp".

(** ** JavaScript values and strings *)

Module JS.

(** The values a settings document can hold.  Numbers are integers here. *)
Inductive value : Type :=
| JNull
| JBool (b : bool)
| JNum (n : Z)
| JStr (s : string)
| JArr (elements : list value)
| JObj (properties : gmap string value).

(** [undefined] is the absence of a value. *)
Inductive jstype : Type :=
| TUndefined | TObject | TBoolean | TNumber | TString.

Definition typeof (v : option value) : jstype :=
  match v with
  | None => TUndefined
  | Some JNull => TObject
  | Some (JBool _) => TBoolean
  | Some (JNum _) => TNumber
  | Some (JStr _) => TString
  | Some (JArr _) => TObject
  | Some (JObj _) => TObject
  end.

Definition is_TObject (t : jstype) : bool :=
  match t with TObject => true | _ => false end.

(** Truthiness, as tested by [if (x)]. *)
Definition truthy (v : option value) : bool :=
  match v with
  | None => false
  | Some JNull => false
  | Some (JBool b) => b
  | Some (JNum n) => negb (n =? 0)%Z
  | Some (JStr s) => negb (String.eqb s "")
  | Some (JArr _) => true
  | Some (JObj _) => true
  end.

(** What a call does: it returns, it throws, or it builds a value that is
    not a settings value (an array carrying named properties). *)
Inductive exn : Type := TypeError.

Inductive outcome (A : Type) : Type :=
| Returned (a : A)
| Thrown (e : exn)
| NotAValue.
Arguments Returned {A} a.
Arguments Thrown {A} e.
Arguments NotAValue {A}.

Definition outcome_bind {A B} (x : outcome A) (f : A -> outcome B) : outcome B :=
  match x with
  | Returned a => f a
  | Thrown e => Thrown e
  | NotAValue => NotAValue
  end.

(** [s.split(sep)] for a one-character separator. *)
Fixpoint split (sep : ascii) (s : string) : list string :=
  match s with
  | EmptyString => [EmptyString]
  | String c rest =>
      if Ascii.eqb c sep then EmptyString :: split sep rest
      else match split sep rest with
           | [] => [String c EmptyString]
           | h :: t => String c h :: t
           end
  end.

(** [hay.indexOf(needle)]: the first position where [needle] occurs. *)
Fixpoint indexOf (hay needle : string) : option nat :=
  if String.prefix needle hay then Some 0
  else match hay with
       | EmptyString => None
       | String _ rest => S <$> indexOf rest needle
       end.

(** [s.charCodeAt(pos)], as the character itself. *)
Definition charAt (s : string) (pos : nat) : option ascii := String.get pos s.

(** Strings hold the bytes of their UTF-8 encoding, as a string literal is
    read: a character of ASCII is one byte, any other character is two to four
    bytes.  The white space and the line terminators that [trim] removes
    ([WhiteSpace] and [LineTerminator] of ECMAScript) are of one, two or three
    bytes. *)

(** TAB, LF, VT, FF, CR and SP. *)
Definition is_white (c : ascii) : bool :=
  let n := nat_of_ascii c in
  (Nat.leb 9 n && Nat.leb n 13) || Nat.eqb n 32.

(** U+00A0, the no-break space. *)
Definition is_white2 (c1 c2 : ascii) : bool :=
  Nat.eqb (nat_of_ascii c1) 194 && Nat.eqb (nat_of_ascii c2) 160.

(** U+1680; U+2000 to U+200A, U+2028, U+2029 and U+202F; U+205F; U+3000; and
    U+FEFF, the byte order mark. *)
Definition is_white3 (c1 c2 c3 : ascii) : bool :=
  let a := nat_of_ascii c1 in
  let b := nat_of_ascii c2 in
  let c := nat_of_ascii c3 in
  (Nat.eqb a 225 && Nat.eqb b 154 && Nat.eqb c 128)
  || (Nat.eqb a 226 && Nat.eqb b 128
      && ((Nat.leb 128 c && Nat.leb c 138)
          || Nat.eqb c 168 || Nat.eqb c 169 || Nat.eqb c 175))
  || (Nat.eqb a 226 && Nat.eqb b 129 && Nat.eqb c 159)
  || (Nat.eqb a 227 && Nat.eqb b 128 && Nat.eqb c 128)
  || (Nat.eqb a 239 && Nat.eqb b 187 && Nat.eqb c 191).

(** [s.trimStart()]. *)
Fixpoint trimStart (s : string) : string :=
  match s with
  | EmptyString => EmptyString
  | String c1 rest1 =>
      if is_white c1 then trimStart rest1
      else
        match rest1 with
        | EmptyString => s
        | String c2 rest2 =>
            if is_white2 c1 c2 then trimStart rest2
            else
              match rest2 with
              | EmptyString => s
              | String c3 rest3 =>
                  if is_white3 c1 c2 c3 then trimStart rest3 else s
              end
        end
  end.

(** [s.trimEnd()]: the string up to the first place from which it holds
    nothing but white space. *)
Fixpoint trimEnd (s : string) : string :=
  match s with
  | EmptyString => EmptyString
  | String c rest =>
      if String.eqb (trimStart s) "" then EmptyString else String c (trimEnd rest)
  end.

(** [s.trim()]. *)
Definition trim (s : string) : string := trimEnd (trimStart s).

Definition nonempty (s : string) : bool := negb (String.eqb s "").

(** [Object.keys(v)] paired with [v[k]] for each key: [null] and [undefined]
    throw, an array and a string have their indices, a number and a boolean
    have nothing.  A string has an index for each of its UTF-16 units; the
    model has one for each byte, which is the same for a string of ASCII
    characters. *)
Definition ownProperties (v : option value) : outcome (list (string * value)) :=
  match v with
  | None => Thrown TypeError
  | Some JNull => Thrown TypeError
  | Some (JObj o) => Returned (map_to_list o)
  | Some (JArr l) => Returned (imap (fun i x => (pretty i, x)) l)
  | Some (JStr s) =>
      Returned (imap (fun i c => (pretty i, JStr (String c "")))
                     (String.list_ascii_of_string s))
  | Some (JBool _) => Returned []
  | Some (JNum _) => Returned []
  end.

(** The names every object created with [{}] inherits from
    [Object.prototype]: looking one of them up in such an object finds a
    function (the prototype itself for [__proto__]), never [undefined], also
    when the object does not bind the name. *)
Definition inheritedNames : list string :=
  ["constructor"; "hasOwnProperty"; "isPrototypeOf"; "propertyIsEnumerable";
   "toLocaleString"; "toString"; "valueOf";
   "__defineGetter__"; "__defineSetter__"; "__lookupGetter__"; "__lookupSetter__";
   "__proto__"].

Definition inherited (name : string) : bool := bool_decide (name ∈ inheritedNames).

(** Whether [o[name]] is a function, for an object [o] created with [{}] that
    has the own properties [own]: [o] inherits the name and does not bind it,
    and the name is not [__proto__], for which [o[name]] is the prototype, an
    object. *)
Definition inheritsFunction {A} (own : gmap string A) (name : string) : bool :=
  bool_decide (own !! name = None) && inherited name
  && negb (String.eqb name "__proto__").

End JS.
Export JS.

(** ** vs/base/common/types.ts *)

Module types.

Definition isObject (obj : option value) : bool :=
  match obj with
  | Some (JObj _) => true
  | _ => false
  end.

Definition isUndefined (obj : option value) : bool :=
  match typeof obj with TUndefined => true | _ => false end.

Definition isUndefinedOrNull (obj : option value) : bool :=
  isUndefined obj || match obj with Some JNull => true | _ => false end.

End types.

(** ** Helpers the excerpt imports from files that are not part of it *)

Module objects.

(** Modelled from the spec: [objects.deepClone] of [vs/base/common/objects]
    is not in the sources.  Values are immutable here, so the clone of a
    value is that value; what cloning protects against (a later write seen
    through an alias) cannot happen. *)
Definition deepClone {A : Type} (x : A) : A := x.

Fixpoint equalsValue (one other : value) {struct one} : bool :=
  match one, other with
  | JNull, JNull => true
  | JBool a, JBool b => bool_decide (a = b)
  | JNum a, JNum b => bool_decide (a = b)
  | JStr a, JStr b => bool_decide (a = b)
  | JArr xs, JArr ys =>
      (fix each (xs ys : list value) : bool :=
         match xs, ys with
         | [], [] => true
         | x :: xs', y :: ys' => equalsValue x y && each xs' ys'
         | _, _ => false
         end) xs ys
  | JObj a, JObj b =>
      map_fold (fun _ same all => same && all) true
        (merge (fun x y =>
                  match x, y with
                  | Some x, Some y => Some (equalsValue x y)
                  | _, _ => Some false
                  end) a b)
  | _, _ => false
  end.

(** Modelled from the spec: [objects.equals] of [vs/base/common/objects] is not
    in the sources.  It is deep equality: the same scalar, arrays equal element
    by element, objects with the same keys and equal values under each;
    [undefined] equals only itself. *)
Definition equals (one other : option value) : bool :=
  match one, other with
  | None, None => true
  | Some a, Some b => equalsValue a b
  | _, _ => false
  end.

End objects.

Module arrays.

(** Modelled from the spec: [arrays.distinct] of [vs/base/common/arrays] is
    not in the sources.  It keeps the first occurrence of each element. *)
Fixpoint distinct (l : list string) : list string :=
  match l with
  | [] => []
  | x :: rest => x :: filter (fun y => y ≠ x) (distinct rest)
  end.

(** Modelled from the spec: [arrays.equals] of [vs/base/common/arrays] is
    not in the sources.  Same length, same elements in the same order. *)
Definition equals (a b : list string) : bool := bool_decide (a = b).

(** [a.indexOf(x)] on an array of strings. *)
Fixpoint indexOf (l : list string) (x : string) : option nat :=
  match l with
  | [] => None
  | y :: rest => if decide (y = x) then Some 0 else S <$> indexOf rest x
  end.

(** [a.splice(index, 1)]. *)
Definition splice1 {A : Type} (l : list A) (index : nat) : list A :=
  take index l ++ drop (S index) l.

(** [a.findIndex(p)]. *)
Fixpoint findIndex {A : Type} (p : A -> bool) (l : list A) : option nat :=
  match l with
  | [] => None
  | y :: rest => if p y then Some 0 else S <$> findIndex p rest
  end.

End arrays.

(** ** Override-section keys (configurationRegistry.ts) *)

Module OverrideKeys.

(** [OVERRIDE_PROPERTY_PATTERN] is [^(\[([^\]]+)\])+$]: one or more groups, each
    an opening bracket, at least one character other than a closing bracket,
    and a closing bracket.  [groupsFrom s cur] walks [s]; [cur] is the text
    read inside the group that is open, if one is.  It returns the texts of
    the groups when [s] completes the pattern. *)
Fixpoint groupsFrom (s : string) (cur : option string) : option (list string) :=
  match cur, s with
  | None, EmptyString => Some []
  | None, String c rest =>
      if Ascii.eqb c "["%char then groupsFrom rest (Some "") else None
  | Some _, EmptyString => None
  | Some inner, String c rest =>
      if Ascii.eqb c "]"%char
      then (if nonempty inner then cons inner <$> groupsFrom rest None else None)
      else groupsFrom rest (Some (inner +:+ String c ""))
  end.

Definition groups (key : string) : option (list string) :=
  match groupsFrom key None with
  | Some (g :: gs) => Some (g :: gs)
  | _ => None
  end.

(** [OVERRIDE_PROPERTY_REGEX.test(key)]. *)
Definition OVERRIDE_PROPERTY_REGEX_test (key : string) : bool :=
  match groups key with Some _ => true | None => false end.

(** [overrideIdentifiersFromKey]: the trimmed, non-empty group texts, without
    repetitions. *)
Definition overrideIdentifiersFromKey (key : string) : list string :=
  match groups key with
  | Some gs => arrays.distinct (filter (fun i => nonempty i = true) (trim <$> gs))
  | None => []
  end.

End OverrideKeys.
Export OverrideKeys.

(** ** Value trees (configuration.ts, imported by the excerpt) *)

Module configuration.

Fixpoint accessSetting (current : value) (path : list string) : option value :=
  match path with
  | [] => Some current
  | component :: rest =>
      match current with
      | JObj o =>
          match o !! component with
          | Some next => accessSetting next rest
          | None => None
          end
      | _ => None
      end
  end.

(** Modelled from the spec: [getConfigurationValue] of
    [vs/platform/configuration/common/configuration] is not in the sources.
    The spec, 4.2: [getValue(path)] walks the nested tree by splitting [path]
    on [.] and returns the subtree or scalar found there, or absence.  The tree
    maps string keys to nested trees or scalars; a step into anything that is
    not such a tree (a scalar, null, an array) finds nothing. *)
Definition getConfigurationValue (config : gmap string value) (settingPath : string)
  : option value :=
  accessSetting (JObj config) (split "."%char settingPath).

Fixpoint addToValueTreeAt (tree : gmap string value) (segments : list string)
    (v : value) : gmap string value :=
  match segments with
  | [] => tree
  | [last] => <[last := v]> tree
  | s :: rest =>
      let child := match tree !! s with Some (JObj o) => o | _ => ∅ end in
      <[s := JObj (addToValueTreeAt child rest v)]> tree
  end.

(** Modelled from the spec: [addToValueTree] of
    [vs/platform/configuration/common/configuration] is not in the sources.
    The spec, 4.3 and 7: the dotted key is folded into the tree; where a path
    segment holds something that is not a tree the conflict is reported and
    resolved by last write, never by raising.  The report is not modelled. *)
Definition addToValueTree (settingsTreeRoot : gmap string value) (key : string)
    (v : value) : gmap string value :=
  addToValueTreeAt settingsTreeRoot (split "."%char key) v.

Fixpoint removeFromValueTreeAt (tree : gmap string value) (segments : list string)
  : gmap string value :=
  match segments with
  | [] => tree
  | [first] => delete first tree
  | first :: rest =>
      match tree !! first with
      | Some (JObj o) =>
          let o' := removeFromValueTreeAt o rest in
          if decide (size o' = 0) then delete first tree
          else <[first := JObj o']> tree
      | _ => tree
      end
  end.

(** Modelled from the spec: [removeFromValueTree] of
    [vs/platform/configuration/common/configuration] is not in the sources.
    The spec, 3 and 4.4: [contents] stays the fold of the remaining keys, and
    removing what is not there is a no-op.  The leaf at the dotted key is
    deleted and a tree emptied by that is deleted from its parent. *)
Definition removeFromValueTree (valueTree : gmap string value) (key : string)
  : gmap string value :=
  removeFromValueTreeAt valueTree (split "."%char key).

(** Modelled from the spec: [toValuesTree] of
    [vs/platform/configuration/common/configuration] is not in the sources.
    The spec, 3: the tree is the fold of the dotted keys and their values. *)
Definition toValuesTree (properties : list (string * value)) : gmap string value :=
  foldl (fun root kv => addToValueTree root kv.1 kv.2) ∅ properties.

End configuration.

(** ** configurationModels.ts: one layer *)

Module IOverrides.

Record t : Type := mk {
  identifiers : list string;
  keys : list string;
  contents : gmap string value
}.

End IOverrides.

Module ConfigurationModel.

(** The constructor's [_contents], [_keys] and [_overrides].  [raw] and
    [logService] feed [inspect] and the conflict reports only.  The table
    [overrideConfigurations], in which the class keeps the projections that
    [override] has built, is not part of the state: see [override]. *)
Record t : Type := mk {
  _contents : gmap string value;
  _keys : list string;
  _overrides : list IOverrides.t
}.

Definition contents (this : t) : gmap string value := _contents this.
Definition overrides (this : t) : list IOverrides.t := _overrides this.
Definition keys (this : t) : list string := _keys this.

Definition createEmptyModel : t := mk ∅ [] [].

Definition isEmpty (this : t) : bool :=
  Nat.eqb (length (keys this)) 0 && Nat.eqb (size (contents this)) 0
  && Nat.eqb (length (overrides this)) 0.

(** [section ? getConfigurationValue(this.contents, section) : this.contents];
    an absent section and the empty string are both falsy. *)
Definition getValue (this : t) (section : option string) : option value :=
  match section with
  | Some s =>
      if nonempty s then configuration.getConfigurationValue (contents this) s
      else Some (JObj (contents this))
  | None => Some (JObj (contents this))
  end.

(** What one key of [target] does to [source[key]] when [key in source]:
    two objects are merged in place, anything else is overwritten by a clone
    of the target's value. *)
Fixpoint mergeProperty (source target : value) : value :=
  match source, target with
  | JObj so, JObj to =>
      JObj (union_with (fun s t => Some (mergeProperty s t)) so to)
  | _, _ => objects.deepClone target
  end.

(** [mergeContents(source, target)] on two objects: every key of [target] is
    merged into [source] if present there and copied otherwise; the keys of
    [source] alone stay. *)
Definition mergeContents (source target : gmap string value) : gmap string value :=
  union_with (fun s t => Some (mergeProperty s t)) source target.

(** The same loop when [source] and [target] are arrays: [Object.keys(target)]
    are the indices, an index past the end of [source] extends it. *)
Fixpoint mergeElements (source target : list value) : list value :=
  match source, target with
  | s :: ss, t :: ts => mergeProperty s t :: mergeElements ss ts
  | _, [] => source
  | [], _ => objects.deepClone target
  end.

(** An array seen through [Object.keys] and indexing. *)
Definition indexedProperties (l : list value) : gmap string value :=
  list_to_map (imap (fun i v => (pretty i, v)) l).

(** [mergeContents(source, target)] as [createOverrideConfigurationModel]
    calls it, on two values that [typeof] calls objects, [target] being
    truthy.  [key in null] throws; naming a property of an array leaves the
    settings values. *)
Definition mergeContentsOf (source target : value) : outcome value :=
  match source, target with
  | JObj so, JObj to => Returned (JObj (mergeContents so to))
  | JObj so, JArr ts => Returned (JObj (mergeContents so (indexedProperties ts)))
  | JArr ss, JArr ts => Returned (JArr (mergeElements ss ts))
  | JArr ss, JObj to =>
      if Nat.eqb (size to) 0 then Returned source else NotAValue
  | JNull, JObj to =>
      if Nat.eqb (size to) 0 then Returned source else Thrown TypeError
  | JNull, JArr ts =>
      if Nat.eqb (length ts) 0 then Returned source else Thrown TypeError
  | _, _ => Returned source
  end.

(** The local closure [mergeContents] of [getContentsForOverrideIdentifer]. *)
Definition mergeContentsInto (contents : option (gmap string value))
    (contentsToMerge : option (gmap string value)) : option (gmap string value) :=
  match contentsToMerge with
  | Some c =>
      match contents with
      | Some cur => Some (mergeContents cur c)
      | None => Some (objects.deepClone c)
      end
  | None => contents
  end.

Definition getContentsForOverrideIdentifer (this : t) (identifier : string)
  : option (gmap string value) :=
  let '(contentsForIdentifierOnly, contents) :=
    foldl (fun '(only, contents) override =>
             if bool_decide (IOverrides.identifiers override = [identifier])
             then (Some (IOverrides.contents override), contents)
             else if bool_decide (identifier ∈ IOverrides.identifiers override)
             then (only, mergeContentsInto contents (Some (IOverrides.contents override)))
             else (only, contents))
          (None, None) (overrides this) in
  mergeContentsInto contents contentsForIdentifierOnly.

Definition getOverrideValue (this : t) (section : option string)
    (overrideIdentifier : string) : option value :=
  match getContentsForOverrideIdentifer this overrideIdentifier with
  | Some overrideContents =>
      match section with
      | Some s =>
          if nonempty s then configuration.getConfigurationValue overrideContents s
          else Some (JObj overrideContents)
      | None => Some (JObj overrideContents)
      end
  | None => None
  end.

(** The body of the loop of [createOverrideConfigurationModel] for one key. *)
Definition overrideProperty (contentsForKey overrideContentsForKey : option value)
  : outcome (option value) :=
  if truthy overrideContentsForKey then
    match contentsForKey, overrideContentsForKey with
    | Some c, Some o =>
        if is_TObject (typeof contentsForKey) && is_TObject (typeof overrideContentsForKey)
        then outcome_bind (mergeContentsOf (objects.deepClone c) o)
                          (fun merged => Returned (Some merged))
        else Returned overrideContentsForKey
    | _, _ => Returned overrideContentsForKey
    end
  else Returned contentsForKey.

Definition is_thrown {A} (r : outcome A) : bool :=
  match r with Thrown _ => true | _ => false end.

Definition is_not_a_value {A} (r : outcome A) : bool :=
  match r with NotAValue => true | _ => false end.

Definition returned {A} (r : outcome (option A)) : option A :=
  match r with Returned v => v | _ => None end.

(** The loop runs over the keys of the base contents and of the override
    contents; it throws as soon as one key throws. *)
Definition createOverrideConfigurationModel (this : t) (identifier : string)
  : outcome t :=
  match getContentsForOverrideIdentifer this identifier with
  | None => Returned this
  | Some overrideContents =>
      if Nat.eqb (size overrideContents) 0 then Returned this
      else
        let perKey : gmap string (outcome (option value)) :=
          stdpp.base.merge (fun c o => Some (overrideProperty c o))
                           (contents this) overrideContents in
        if bool_decide (map_Exists (fun _ r => is_thrown r = true) perKey)
        then Thrown TypeError
        else if bool_decide (map_Exists (fun _ r => is_not_a_value r = true) perKey)
        then NotAValue
        else Returned (mk (omap returned perKey) (keys this) (overrides this))
  end.

(** [override(identifier)] on a model that was not asked for this identifier
    before: the projection [createOverrideConfigurationModel] builds.  The
    class keeps the projection in the table [overrideConfigurations] and hands
    it out again at the next call for the identifier, also when [setValue] or
    [removeValue] has changed the model in between; the table is not part of
    the state.  [Configuration.getValue] projects results of [merge] only,
    which are new models that nothing writes to afterwards. *)
Definition override (this : t) (identifier : string) : outcome t :=
  createOverrideConfigurationModel this identifier.

(** One [otherOverride] of the loop of [merge]. *)
Definition mergeOverride (overrides : list IOverrides.t) (otherOverride : IOverrides.t)
  : list IOverrides.t :=
  match arrays.findIndex
          (fun o => arrays.equals (IOverrides.identifiers o)
                                  (IOverrides.identifiers otherOverride))
          overrides with
  | Some i =>
      alter (fun override =>
               IOverrides.mk
                 (IOverrides.identifiers override)
                 (arrays.distinct (IOverrides.keys override ++ IOverrides.keys otherOverride))
                 (mergeContents (IOverrides.contents override)
                                (IOverrides.contents otherOverride)))
            i overrides
  | None => overrides ++ [objects.deepClone otherOverride]
  end.

Definition mergeKeys (keys otherKeys : list string) : list string :=
  foldl (fun keys key =>
           match arrays.indexOf keys key with
           | None => keys ++ [key]
           | Some _ => keys
           end) keys otherKeys.

(** One [other] of the loop of [merge], on the accumulated model. *)
Definition mergeOne (acc other : t) : t :=
  if isEmpty other then acc
  else mk (mergeContents (_contents acc) (contents other))
          (mergeKeys (_keys acc) (keys other))
          (foldl mergeOverride (_overrides acc) (overrides other)).

Definition merge (this : t) (others : list t) : t :=
  foldl mergeOne
        (mk (objects.deepClone (contents this))
            (keys this)
            (objects.deepClone (overrides this)))
        others.

(** The private [updateValue(key, value, add)].  The contents and the keys are
    written before [Object.keys] can throw. *)
Definition updateValue (this : t) (key : string) (v : value) (add : bool)
  : outcome unit * t :=
  let contents' := configuration.addToValueTree (contents this) key v in
  let add' := add || match arrays.indexOf (keys this) key with None => true | Some _ => false end in
  let keys' := if add' then keys this ++ [key] else keys this in
  if OVERRIDE_PROPERTY_REGEX_test key then
    let identifiers := overrideIdentifiersFromKey key in
    match ownProperties (contents' !! key) with
    | Returned props =>
        let override :=
          IOverrides.mk identifiers (fst <$> props) (configuration.toValuesTree props) in
        let overrides' :=
          match arrays.findIndex
                  (fun o => arrays.equals (IOverrides.identifiers o) identifiers)
                  (overrides this) with
          | Some index => <[index := override]> (overrides this)
          | None => overrides this ++ [override]
          end in
        (Returned tt, mk contents' keys' overrides')
    | Thrown e => (Thrown e, mk contents' keys' (overrides this))
    | NotAValue => (NotAValue, mk contents' keys' (overrides this))
    end
  else (Returned tt, mk contents' keys' (overrides this)).

Definition setValue (this : t) (key : string) (v : value) : outcome unit * t :=
  updateValue this key v false.

(** [splice(findIndex(..), 1)]: a failed search is [-1], and [splice(-1, 1)]
    removes the last element. *)
Definition removeValue (this : t) (key : string) : t :=
  match arrays.indexOf (keys this) key with
  | None => this
  | Some index =>
      let keys' := arrays.splice1 (keys this) index in
      let contents' := configuration.removeFromValueTree (contents this) key in
      let overrides' :=
        if OVERRIDE_PROPERTY_REGEX_test key then
          match arrays.findIndex
                  (fun o => arrays.equals (IOverrides.identifiers o)
                                          (overrideIdentifiersFromKey key))
                  (overrides this) with
          | Some i => arrays.splice1 (overrides this) i
          | None => arrays.splice1 (overrides this) (length (overrides this) - 1)
          end
        else overrides this in
      mk contents' keys' overrides'
  end.

(** [toJSON] and the argument of [parseConfigurationModel]. *)
Record IConfigurationModel : Type := mkData {
  data_contents : gmap string value;
  data_overrides : list IOverrides.t;
  data_keys : list string
}.

Definition toJSON (this : t) : IConfigurationModel :=
  mkData (contents this) (overrides this) (keys this).

End ConfigurationModel.

(** ** configurationModels.ts: the consolidator *)

(** A resource, as the string a [ResourceMap] keys it by. *)
Abbreviation URI := string.

(** The workspace collaborator: [getFolder(resource)] gives the [uri] of the
    folder that owns the resource, if any. *)
Record Workspace : Type := mkWorkspace {
  getFolder : URI -> option URI
}.

Record IConfigurationOverrides : Type := mkOverrides {
  overrideIdentifier : option string;
  resource : option URI
}.

Record IConfigurationData : Type := mkConfigurationData {
  defaults : ConfigurationModel.IConfigurationModel;
  policy : ConfigurationModel.IConfigurationModel;
  application : ConfigurationModel.IConfigurationModel;
  user : ConfigurationModel.IConfigurationModel;
  workspace : ConfigurationModel.IConfigurationModel;
  folders : list (URI * ConfigurationModel.IConfigurationModel)
}.

Module Configuration.

(** The fields of the class; the last three are its caches. *)
Record t : Type := mk {
  _defaultConfiguration : ConfigurationModel.t;
  _policyConfiguration : ConfigurationModel.t;
  _applicationConfiguration : ConfigurationModel.t;
  _localUserConfiguration : ConfigurationModel.t;
  _remoteUserConfiguration : ConfigurationModel.t;
  _workspaceConfiguration : ConfigurationModel.t;
  _folderConfigurations : gmap URI ConfigurationModel.t;
  _memoryConfiguration : ConfigurationModel.t;
  _memoryConfigurationByResource : gmap URI ConfigurationModel.t;
  _workspaceConsolidatedConfiguration : option ConfigurationModel.t;
  _foldersConsolidatedConfigurations : gmap URI ConfigurationModel.t;
  _userConfiguration : option ConfigurationModel.t
}.

(** A freshly constructed instance: no cache is filled. *)
Definition new (defaultConfiguration policyConfiguration applicationConfiguration
    localUserConfiguration remoteUserConfiguration workspaceConfiguration
    : ConfigurationModel.t)
    (folderConfigurations : gmap URI ConfigurationModel.t)
    (memoryConfiguration : ConfigurationModel.t)
    (memoryConfigurationByResource : gmap URI ConfigurationModel.t) : t :=
  mk defaultConfiguration policyConfiguration applicationConfiguration
     localUserConfiguration remoteUserConfiguration workspaceConfiguration
     folderConfigurations memoryConfiguration memoryConfigurationByResource
     None ∅ None.

(** A method reads and writes the fields and returns, throws, or leaves the
    settings values; the writes made before a throw stay. *)
Definition M (A : Type) : Type := t -> outcome A * t.

Definition ret {A} (a : A) : M A := fun this => (Returned a, this).

Definition bind {A B} (m : M A) (f : A -> M B) : M B :=
  fun this =>
    match m this with
    | (Returned a, this') => f a this'
    | (Thrown e, this') => (Thrown e, this')
    | (NotAValue, this') => (NotAValue, this')
    end.

Definition lift {A} (r : outcome A) : M A := fun this => (r, this).

Definition read {A} (field : t -> A) : M A := fun this => (Returned (field this), this).

Definition write (update : t -> t) : M unit := fun this => (Returned tt, update this).

Notation "'let*' x ':=' m 'in' k" := (bind m (fun x => k))
  (at level 10, x name, m at level 100, k at level 200).
Notation "'run' m 'in' k" := (bind m (fun _ => k))
  (at level 10, m at level 100, k at level 200).

Definition set_workspaceConsolidatedConfiguration
    (v : option ConfigurationModel.t) (this : t) : t :=
  mk (_defaultConfiguration this) (_policyConfiguration this)
     (_applicationConfiguration this) (_localUserConfiguration this)
     (_remoteUserConfiguration this) (_workspaceConfiguration this)
     (_folderConfigurations this) (_memoryConfiguration this)
     (_memoryConfigurationByResource this)
     v (_foldersConsolidatedConfigurations this) (_userConfiguration this).

Definition set_foldersConsolidatedConfigurations
    (v : gmap URI ConfigurationModel.t) (this : t) : t :=
  mk (_defaultConfiguration this) (_policyConfiguration this)
     (_applicationConfiguration this) (_localUserConfiguration this)
     (_remoteUserConfiguration this) (_workspaceConfiguration this)
     (_folderConfigurations this) (_memoryConfiguration this)
     (_memoryConfigurationByResource this)
     (_workspaceConsolidatedConfiguration this) v (_userConfiguration this).

Definition set_userConfiguration (v : option ConfigurationModel.t) (this : t) : t :=
  mk (_defaultConfiguration this) (_policyConfiguration this)
     (_applicationConfiguration this) (_localUserConfiguration this)
     (_remoteUserConfiguration this) (_workspaceConfiguration this)
     (_folderConfigurations this) (_memoryConfiguration this)
     (_memoryConfigurationByResource this)
     (_workspaceConsolidatedConfiguration this)
     (_foldersConsolidatedConfigurations this) v.

Definition set_memoryConfiguration (v : ConfigurationModel.t) (this : t) : t :=
  mk (_defaultConfiguration this) (_policyConfiguration this)
     (_applicationConfiguration this) (_localUserConfiguration this)
     (_remoteUserConfiguration this) (_workspaceConfiguration this)
     (_folderConfigurations this) v
     (_memoryConfigurationByResource this)
     (_workspaceConsolidatedConfiguration this)
     (_foldersConsolidatedConfigurations this) (_userConfiguration this).

Definition set_memoryConfigurationByResource
    (v : gmap URI ConfigurationModel.t) (this : t) : t :=
  mk (_defaultConfiguration this) (_policyConfiguration this)
     (_applicationConfiguration this) (_localUserConfiguration this)
     (_remoteUserConfiguration this) (_workspaceConfiguration this)
     (_folderConfigurations this) (_memoryConfiguration this)
     v
     (_workspaceConsolidatedConfiguration this)
     (_foldersConsolidatedConfigurations this) (_userConfiguration this).

Definition applicationConfiguration : M ConfigurationModel.t :=
  read _applicationConfiguration.

(** The getter [userConfiguration] fills [_userConfiguration] on first use. *)
Definition userConfiguration : M ConfigurationModel.t :=
  let* cached := read _userConfiguration in
  match cached with
  | Some m => ret m
  | None =>
      let* remote := read _remoteUserConfiguration in
      let* local := read _localUserConfiguration in
      let m := if ConfigurationModel.isEmpty remote then local
               else ConfigurationModel.merge local [remote] in
      run write (set_userConfiguration (Some m)) in
      ret m
  end.

Definition getWorkspaceConsolidatedConfiguration : M ConfigurationModel.t :=
  let* cached := read _workspaceConsolidatedConfiguration in
  match cached with
  | Some m => ret m
  | None =>
      let* defaultConfiguration := read _defaultConfiguration in
      let* application := applicationConfiguration in
      let* user := userConfiguration in
      let* workspaceConfiguration := read _workspaceConfiguration in
      let* memoryConfiguration := read _memoryConfiguration in
      let m := ConfigurationModel.merge defaultConfiguration
                 [application; user; workspaceConfiguration; memoryConfiguration] in
      run write (set_workspaceConsolidatedConfiguration (Some m)) in
      ret m
  end.

Definition getFolderConsolidatedConfiguration (folder : URI) : M ConfigurationModel.t :=
  let* consolidated := read _foldersConsolidatedConfigurations in
  match consolidated !! folder with
  | Some m => ret m
  | None =>
      let* workspaceConsolidateConfiguration := getWorkspaceConsolidatedConfiguration in
      let* folderConfigurations := read _folderConfigurations in
      match folderConfigurations !! folder with
      | Some folderConfiguration =>
          let m := ConfigurationModel.merge workspaceConsolidateConfiguration
                     [folderConfiguration] in
          let* consolidated' := read _foldersConsolidatedConfigurations in
          run write (set_foldersConsolidatedConfigurations (<[folder := m]> consolidated')) in
          ret m
      | None => ret workspaceConsolidateConfiguration
      end
  end.

Definition getConsolidatedConfigurationModelForResource
    (overrides : IConfigurationOverrides) (workspace : option Workspace)
  : M ConfigurationModel.t :=
  let* consolidateConfiguration := getWorkspaceConsolidatedConfiguration in
  match workspace, resource overrides with
  | Some workspace, Some resource =>
      let* consolidateConfiguration :=
        match getFolder workspace resource with
        | Some root => getFolderConsolidatedConfiguration root
        | None => ret consolidateConfiguration
        end in
      let* byResource := read _memoryConfigurationByResource in
      match byResource !! resource with
      | Some memoryConfigurationForResource =>
          ret (ConfigurationModel.merge consolidateConfiguration
                 [memoryConfigurationForResource])
      | None => ret consolidateConfiguration
      end
  | _, _ => ret consolidateConfiguration
  end.

(** [if (overrides.overrideIdentifier)]: a missing identifier and the empty
    string are falsy. *)
Definition truthyIdentifier (identifier : option string) : option string :=
  match identifier with
  | Some i => if nonempty i then Some i else None
  | None => None
  end.

Definition getConsolidatedConfigurationModel (section : option string)
    (overrides : IConfigurationOverrides) (workspace : option Workspace)
  : M ConfigurationModel.t :=
  let* configurationModel := getConsolidatedConfigurationModelForResource overrides workspace in
  let* configurationModel :=
    match truthyIdentifier (overrideIdentifier overrides) with
    | Some identifier => lift (ConfigurationModel.override configurationModel identifier)
    | None => ret configurationModel
    end in
  let* policyConfiguration := read _policyConfiguration in
  if negb (ConfigurationModel.isEmpty policyConfiguration)
     && bool_decide (is_Some (ConfigurationModel.getValue policyConfiguration section))
  then ret (ConfigurationModel.merge configurationModel [policyConfiguration])
  else ret configurationModel.

Definition getValue (section : option string) (overrides : IConfigurationOverrides)
    (workspace : option Workspace) : M (option value) :=
  let* consolidateConfigurationModel :=
    getConsolidatedConfigurationModel section overrides workspace in
  ret (ConfigurationModel.getValue consolidateConfigurationModel section).

(** [updateValue(key, value, overrides)]; [value] is absent for [undefined].
    The targeted memory model is written in place. *)
Definition updateValue (key : string) (v : option value) (overrides : IConfigurationOverrides)
  : M unit :=
  let* memoryConfiguration :=
    match resource overrides with
    | Some resource =>
        let* byResource := read _memoryConfigurationByResource in
        match byResource !! resource with
        | Some m => ret m
        | None =>
            run write (set_memoryConfigurationByResource
                     (<[resource := ConfigurationModel.createEmptyModel]> byResource)) in
            ret ConfigurationModel.createEmptyModel
        end
    | None => read _memoryConfiguration
    end in
  let store (m : ConfigurationModel.t) : M unit :=
    match resource overrides with
    | Some resource =>
        let* byResource := read _memoryConfigurationByResource in
        write (set_memoryConfigurationByResource (<[resource := m]> byResource))
    | None => write (set_memoryConfiguration m)
    end in
  run match v with
      | None => store (ConfigurationModel.removeValue memoryConfiguration key)
      | Some v =>
          let '(result, m) := ConfigurationModel.setValue memoryConfiguration key v in
          run store m in lift result
      end in
  match resource overrides with
  | Some _ => ret tt
  | None => write (set_workspaceConsolidatedConfiguration None)
  end.

Definition getFolderConfigurationModelForResource (resource : option URI)
    (workspace : option Workspace) : M (option ConfigurationModel.t) :=
  match workspace, resource with
  | Some workspace, Some resource =>
      match getFolder workspace resource with
      | Some root =>
          let* folderConfigurations := read _folderConfigurations in
          ret (folderConfigurations !! root)
      | None => ret None
      end
  | _, _ => ret None
  end.

Definition toData : M IConfigurationData :=
  let* defaultConfiguration := read _defaultConfiguration in
  let* policyConfiguration := read _policyConfiguration in
  let* application := applicationConfiguration in
  let* user := userConfiguration in
  let* workspaceConfiguration := read _workspaceConfiguration in
  let* folderConfigurations := read _folderConfigurations in
  ret (mkConfigurationData
         (ConfigurationModel.toJSON defaultConfiguration)
         (ConfigurationModel.toJSON policyConfiguration)
         (ConfigurationModel.toJSON application)
         (ConfigurationModel.toJSON user)
         (ConfigurationModel.toJSON workspaceConfiguration)
         (prod_map id ConfigurationModel.toJSON <$> map_to_list folderConfigurations)).

Definition parseConfigurationModel (model : ConfigurationModel.IConfigurationModel)
  : ConfigurationModel.t :=
  ConfigurationModel.mk (ConfigurationModel.data_contents model)
                        (ConfigurationModel.data_keys model)
                        (ConfigurationModel.data_overrides model).

(** [URI.revive] gives back the resource the components came from. *)
Definition parse (data : IConfigurationData) : t :=
  new (parseConfigurationModel (defaults data))
      (parseConfigurationModel (policy data))
      (parseConfigurationModel (application data))
      (parseConfigurationModel (user data))
      ConfigurationModel.createEmptyModel
      (parseConfigurationModel (workspace data))
      (foldl (fun result value => <[value.1 := parseConfigurationModel value.2]> result)
             ∅ (folders data))
      ConfigurationModel.createEmptyModel
      ∅.

End Configuration.

(** ** configurationModels.ts: the change event *)

Module ConfigurationChangeEvent.

Record IConfigurationChange : Type := mkChange {
  keys : list string;
  overrides : list (string * list string)
}.

(** The constructor's arguments and the field [_previousConfiguration].  The
    current configuration is the live object the event was given: a read
    through the event fills its caches. *)
Record t : Type := mk {
  change : IConfigurationChange;
  previous : option (option Workspace * IConfigurationData);
  currentConfiguraiton : Configuration.t;
  currentWorkspace : option Workspace;
  _previousConfiguration : option Configuration.t
}.

Definition new (change : IConfigurationChange)
    (previous : option (option Workspace * IConfigurationData))
    (currentConfiguraiton : Configuration.t) (currentWorkspace : option Workspace) : t :=
  mk change previous currentConfiguraiton currentWorkspace None.

Definition _marker : string := String "010"%char "".
Definition _markerCode1 : ascii := "010"%char.
Definition _markerCode2 : ascii := "."%char.

(** The set [affectedKeys], in insertion order. *)
Definition affectedKeys (this : t) : list string :=
  arrays.distinct (keys (change this) ++ concat (snd <$> overrides (change this))).

(** The marker, then every affected key followed by the marker. *)
Definition _affectsConfigStr (this : t) : string :=
  foldl (fun str key => str +:+ key +:+ _marker) _marker (affectedKeys this).

(** The getter [previousConfiguration] parses the previous data on first use. *)
Definition previousConfiguration (this : t) : option Configuration.t * t :=
  match _previousConfiguration this, previous this with
  | None, Some (_, data) =>
      let parsed := Configuration.parse data in
      (Some parsed,
       mk (change this) (previous this) (currentConfiguraiton this)
          (currentWorkspace this) (Some parsed))
  | cached, _ => (cached, this)
  end.

(** [affectsConfiguration(section, overrides?)]: what it returns and the event
    as the reads leave it. *)
Definition affectsConfiguration (this : t) (section : string)
    (overrides : option IConfigurationOverrides) : outcome bool * t :=
  let needle := _marker +:+ section in
  match JS.indexOf (_affectsConfigStr this) needle with
  | None => (Returned false, this)
  | Some idx =>
      let pos := idx + String.length needle in
      if bool_decide (String.length (_affectsConfigStr this) <= pos)
      then (Returned false, this)
      else
        match charAt (_affectsConfigStr this) pos with
        | None => (Returned false, this)
        | Some code =>
            if negb (Ascii.eqb code _markerCode1) && negb (Ascii.eqb code _markerCode2)
            then (Returned false, this)
            else
              match overrides with
              | None => (Returned true, this)
              | Some overrides =>
                  let '(previousConfiguration, this) := previousConfiguration this in
                  let '(value1, previousConfiguration) :=
                    match previousConfiguration with
                    | Some configuration =>
                        let '(value1, configuration) :=
                          Configuration.getValue (Some section) overrides
                            (previous this ≫= fst) configuration in
                        (value1, Some configuration)
                    | None => (Returned None, None)
                    end in
                  let this :=
                    mk (change this) (previous this) (currentConfiguraiton this)
                       (currentWorkspace this) previousConfiguration in
                  match value1 with
                  | Returned value1 =>
                      let '(value2, current) :=
                        Configuration.getValue (Some section) overrides
                          (currentWorkspace this) (currentConfiguraiton this) in
                      (outcome_bind value2
                         (fun value2 => Returned (negb (objects.equals value1 value2))),
                       mk (change this) (previous this) current
                          (currentWorkspace this) (_previousConfiguration this))
                  | Thrown e => (Thrown e, this)
                  | NotAValue => (NotAValue, this)
                  end
              end
        end
  end.

End ConfigurationChangeEvent.

(** ** configurationRegistry.ts *)

Module ConfigurationRegistry.

Inductive ConfigurationScope : Type :=
| APPLICATION
| MACHINE
| WINDOW
| RESOURCE
| LANGUAGE_OVERRIDABLE
| MACHINE_OVERRIDABLE.

(** A contributing extension, by its identifier. *)
Definition IExtensionInfo : Type := string.

(** [IExtensionInfo | Map<string, IExtensionInfo>]. *)
Inductive ConfigurationDefaultValueSource : Type :=
| FromExtension (extension : IExtensionInfo)
| FromMap (sources : gmap string IExtensionInfo).

(** [string | string[]], the [type] of a JSON schema. *)
Inductive SchemaType : Type :=
| TypeName (name : string)
| TypeNames (names : list string).

(** The fields of [IRegisteredConfigurationPropertySchema] the registry reads
    or writes; an absent field is [None].  For [included] the code asks
    [hasOwnProperty]: the field is absent ([None]), bound to [undefined] or to
    [null] ([Some None]), or bound to a boolean. *)
Record IConfigurationPropertySchema : Type := mkSchema {
  type : option SchemaType;
  default : option value;
  scope : option ConfigurationScope;
  restricted : option bool;
  included : option (option bool);
  disallowConfigurationDefault : option bool;
  policy : option string;
  deprecationMessage : option string;
  markdownDeprecationMessage : option string;
  defaultDefaultValue : option value;
  source : option IExtensionInfo;
  defaultValueSource : option ConfigurationDefaultValueSource
}.

Inductive IConfigurationNode : Type := mkNode {
  properties : option (list (string * IConfigurationPropertySchema));
  allOf : option (list IConfigurationNode);
  node_scope : option ConfigurationScope;
  extensionInfo : option IExtensionInfo;
  restrictedProperties : option (list string)
}.

Record IConfigurationDefaults : Type := mkDefaults {
  overrides : list (string * value);
  defaults_source : option IExtensionInfo
}.

Record IConfigurationDefaultOverride : Type := mkDefaultOverride {
  override_value : value;
  override_source : option IExtensionInfo
}.

Record IConfigurationDefaultOverrideValue : Type := mkDefaultOverrideValue {
  value_of : value;
  source_of : option ConfigurationDefaultValueSource
}.

Record DefaultsOverridesEntry : Type := mkEntry {
  configurationDefaultOverrides : list IConfigurationDefaultOverride;
  configurationDefaultOverrideValue : option IConfigurationDefaultOverrideValue
}.

(** The private fields of the class.  The contributed nodes, the JSON schema
    tables ([allSettings] and its siblings) and the emitters are not part of
    the catalogue of keys and are left out. *)
Record t : Type := mk {
  registeredConfigurationDefaults : list IConfigurationDefaults;
  configurationDefaultsOverrides : gmap string DefaultsOverridesEntry;
  configurationProperties : gmap string IConfigurationPropertySchema;
  policyConfigurations : gmap string string;
  excludedConfigurationProperties : gmap string IConfigurationPropertySchema;
  overrideIdentifiers : gset string
}.

Definition new : t := mk [] ∅ ∅ ∅ ∅ ∅.

Definition getConfigurationProperties (this : t)
  : gmap string IConfigurationPropertySchema := configurationProperties this.

Definition getPolicyConfigurations (this : t) : gmap string string :=
  policyConfigurations this.

Definition set_configurationProperties
    (v : gmap string IConfigurationPropertySchema) (this : t) : t :=
  mk (registeredConfigurationDefaults this) (configurationDefaultsOverrides this)
     v (policyConfigurations this) (excludedConfigurationProperties this)
     (overrideIdentifiers this).

Definition set_policyConfigurations (v : gmap string string) (this : t) : t :=
  mk (registeredConfigurationDefaults this) (configurationDefaultsOverrides this)
     (configurationProperties this) v (excludedConfigurationProperties this)
     (overrideIdentifiers this).

Definition set_excludedConfigurationProperties
    (v : gmap string IConfigurationPropertySchema) (this : t) : t :=
  mk (registeredConfigurationDefaults this) (configurationDefaultsOverrides this)
     (configurationProperties this) (policyConfigurations this) v
     (overrideIdentifiers this).

Definition set_configurationDefaultsOverrides
    (v : gmap string DefaultsOverridesEntry) (this : t) : t :=
  mk (registeredConfigurationDefaults this) v
     (configurationProperties this) (policyConfigurations this)
     (excludedConfigurationProperties this) (overrideIdentifiers this).

Definition set_registeredConfigurationDefaults
    (v : list IConfigurationDefaults) (this : t) : t :=
  mk v (configurationDefaultsOverrides this)
     (configurationProperties this) (policyConfigurations this)
     (excludedConfigurationProperties this) (overrideIdentifiers this).

Definition set_overrideIdentifiers (v : gset string) (this : t) : t :=
  mk (registeredConfigurationDefaults this) (configurationDefaultsOverrides this)
     (configurationProperties this) (policyConfigurations this)
     (excludedConfigurationProperties this) v.

(** [policy?.name] when it is truthy. *)
Definition policyName (schema : IConfigurationPropertySchema) : option string :=
  match policy schema with
  | Some name => if nonempty name then Some name else None
  | None => None
  end.

(** [validateProperty]: the message of the first rule the key breaks, or
    [null].  The messages are those of [nls.localize] with their arguments
    filled in.  The table of the registry is created with [{}]: the test
    [getConfigurationProperties()[property] !== undefined] holds for a
    registered key and for a name the table inherits. *)
Definition validateProperty (this : t) (property : string)
    (schema : IConfigurationPropertySchema) : option string :=
  if negb (nonempty (trim property)) then
    Some "Cannot register an empty property"
  else if OVERRIDE_PROPERTY_REGEX_test property then
    Some ("Cannot register '" +:+ property
          +:+ "'. This matches property pattern '\\[.*\\]$' for describing language specific editor settings. Use 'configurationDefaults' contribution.")
  else if bool_decide (is_Some (getConfigurationProperties this !! property))
          || inherited property then
    Some ("Cannot register '" +:+ property +:+ "'. This property is already registered.")
  else
    match policyName schema with
    | Some name =>
        match getPolicyConfigurations this !! name with
        | Some owner =>
            Some ("Cannot register '" +:+ property +:+ "'. The associated policy "
                  +:+ name +:+ " is already registered with " +:+ owner +:+ ".")
        | None => None
        end
    | None => None
    end.

Definition getDefaultValue (type : option SchemaType) : value :=
  let t := match type with
           | Some (TypeNames names) => head names
           | Some (TypeName name) => Some name
           | None => None
           end in
  match t with
  | Some name =>
      if String.eqb name "boolean" then JBool false
      else if String.eqb name "integer" then JNum 0
      else if String.eqb name "number" then JNum 0
      else if String.eqb name "string" then JStr ""
      else if String.eqb name "array" then JArr []
      else if String.eqb name "object" then JObj ∅
      else JNull
  | None => JNull
  end.

Definition with_default (property : IConfigurationPropertySchema)
    (defaultValue : option value)
    (defaultSource : option ConfigurationDefaultValueSource)
  : IConfigurationPropertySchema :=
  mkSchema (type property) defaultValue (scope property) (restricted property)
           (included property) (disallowConfigurationDefault property)
           (policy property) (deprecationMessage property)
           (markdownDeprecationMessage property) (defaultDefaultValue property)
           (source property) defaultSource.

Definition is_true (b : option bool) : bool :=
  match b with Some true => true | _ => false end.

(** [updatePropertyDefaultValue(key, property)]: the property with its
    [default] and [defaultValueSource] set. *)
Definition updatePropertyDefaultValue (this : t) (key : string)
    (property : IConfigurationPropertySchema) : IConfigurationPropertySchema :=
  let configurationdefaultOverride :=
    configurationDefaultsOverrides this !! key ≫= configurationDefaultOverrideValue in
  let '(defaultValue, defaultSource) :=
    match configurationdefaultOverride with
    | Some o =>
        if negb (is_true (disallowConfigurationDefault property))
           || negb (bool_decide (is_Some (source_of o)))
        then (Some (value_of o), source_of o)
        else (None, None)
    | None => (None, None)
    end in
  let '(defaultValue, defaultSource) :=
    match defaultValue with
    | None => (defaultDefaultValue property, None)
    | Some _ => (defaultValue, defaultSource)
    end in
  let defaultValue :=
    match defaultValue with
    | None => Some (getDefaultValue (type property))
    | Some _ => defaultValue
    end in
  with_default property defaultValue defaultSource.

Definition is_object_type (type : option SchemaType) : bool :=
  match type with
  | Some (TypeName name) => String.eqb name "object"
  | _ => false
  end.

(** [source.set(`${propertyKey}.${objectKey}`, valuesSource)] for every key of
    the contributed object. *)
Definition trackSources (propertyKey : string) (contributed : gmap string value)
    (valuesSource : IExtensionInfo) (sources : gmap string IExtensionInfo)
  : gmap string IExtensionInfo :=
  map_fold (fun objectKey _ sources =>
              <[propertyKey +:+ "." +:+ objectKey := valuesSource]> sources)
           sources contributed.

(** The spread [{ ...existing, ...value }]: the entries of [value], and those of
    [existing] that [value] does not name. *)
Definition spread (existing contributed : gmap string value) : gmap string value :=
  contributed ∪ existing.

(** [mergeDefaultConfigurationsForConfigurationProperty]; [None] is the
    [undefined] returned after [console.error].  For a key that the table
    inherits and does not bind, [this.configurationProperties[propertyKey]]
    is a member of the prototype: it is not [undefined] and its [type] is not
    ['object'], so that [isObjectSetting] is false. *)
Definition mergeDefaultConfigurationsForConfigurationProperty (this : t)
    (propertyKey : string) (v : value) (valuesSource : option IExtensionInfo)
    (existingDefaultOverride : option IConfigurationDefaultOverrideValue)
  : option IConfigurationDefaultOverrideValue :=
  let property := configurationProperties this !! propertyKey in
  let existingDefaultValue : option value :=
    match value_of <$> existingDefaultOverride with
    | Some JNull | None => property ≫= defaultDefaultValue
    | Some existing => Some existing
    end in
  let isObjectSetting :=
    types.isObject (Some v)
    && match property with
       | Some property => is_object_type (type property)
       | None =>
           negb (inherited propertyKey)
           && (types.isUndefined existingDefaultValue
               || types.isObject existingDefaultValue)
       end in
  if isObjectSetting then
    match v with
    | JObj contributed =>
        match existingDefaultOverride ≫= source_of with
        | Some (FromExtension _) => None
        | existingSource =>
            let sources : gmap string IExtensionInfo :=
              match existingSource with Some (FromMap m) => m | _ => ∅ end in
            let sources :=
              match valuesSource with
              | Some valuesSource => trackSources propertyKey contributed valuesSource sources
              | None => sources
              end in
            let existingObject : gmap string value :=
              match existingDefaultValue with Some (JObj o) => o | _ => ∅ end in
            Some (mkDefaultOverrideValue (JObj (spread existingObject contributed))
                                         (Some (FromMap sources)))
        end
    | _ => None
    end
  else Some (mkDefaultOverrideValue v (FromExtension <$> valuesSource)).

(** One [propertyKey] of the loop of
    [mergeDefaultConfigurationsForOverrideIdentifier].  For a name that
    [defaultValue] inherits and does not bind, [defaultValue[propertyKey]] is
    a function of the prototype, neither [undefined] nor an object, so that
    [isObjectSetting] is false ([inheritsFunction]).  For [__proto__] it is
    the prototype, and the assignment sets the prototype of [defaultValue]
    where the model adds a property: what is proved of the merged entries is
    proved for contributed names that are not inherited. *)
Definition mergeOverrideIdentifierProperty (valueSource : option IExtensionInfo)
    (acc : gmap string value * gmap string IExtensionInfo)
    (entry : string * value) : gmap string value * gmap string IExtensionInfo :=
  let '(defaultValue, sources) := acc in
  let '(propertyKey, propertyDefaultValue) := entry in
  let isObjectSetting :=
    types.isObject (Some propertyDefaultValue)
    && negb (inheritsFunction defaultValue propertyKey)
    && (types.isUndefined (defaultValue !! propertyKey)
        || types.isObject (defaultValue !! propertyKey)) in
  if isObjectSetting then
    let existingObject : gmap string value :=
      match defaultValue !! propertyKey with Some (JObj o) => o | _ => ∅ end in
    let contributed : gmap string value :=
      match propertyDefaultValue with JObj o => o | _ => ∅ end in
    (<[propertyKey := JObj (spread existingObject contributed)]> defaultValue,
     match valueSource with
     | Some valueSource => trackSources propertyKey contributed valueSource sources
     | None => sources
     end)
  else
    (<[propertyKey := propertyDefaultValue]> defaultValue,
     match valueSource with
     | Some valueSource => <[propertyKey := valueSource]> sources
     | None => delete propertyKey sources
     end).

(** [mergeDefaultConfigurationsForOverrideIdentifier]; the inner [None] is the
    [undefined] returned after [console.error].  A previous value that is truthy
    and not an object cannot take a property: assigning to a primitive throws in
    a module, and an array would carry a named property. *)
Definition mergeDefaultConfigurationsForOverrideIdentifier
    (overrideIdentifier : string) (configurationValueObject : value)
    (valueSource : option IExtensionInfo)
    (existingDefaultOverride : option IConfigurationDefaultOverrideValue)
  : outcome (option IConfigurationDefaultOverrideValue) :=
  match existingDefaultOverride ≫= source_of with
  | Some (FromExtension _) => Returned None
  | existingSource =>
      let sources : gmap string IExtensionInfo :=
        match existingSource with Some (FromMap m) => m | _ => ∅ end in
      outcome_bind (ownProperties (Some configurationValueObject)) (fun entries =>
        let existing := value_of <$> existingDefaultOverride in
        let finish (defaultValue : gmap string value) :=
          let '(defaultValue, sources) :=
            foldl (mergeOverrideIdentifierProperty valueSource)
                  (defaultValue, sources) entries in
          Returned (Some (mkDefaultOverrideValue (JObj defaultValue)
                                                 (Some (FromMap sources)))) in
        if truthy existing then
          match existing with
          | Some (JObj o) => finish o
          | Some other =>
              match entries with
              | [] => Returned (Some (mkDefaultOverrideValue other (Some (FromMap sources))))
              | _ => match other with JArr _ => NotAValue | _ => Thrown TypeError end
              end
          | None => finish ∅
          end
        else finish ∅)
  end.

(** [updateDefaultOverrideProperty]: the synthetic property of an
    override-section key. *)
Definition updateDefaultOverrideProperty (this : t) (key : string)
    (newDefaultOverride : IConfigurationDefaultOverrideValue)
    (source : option IExtensionInfo) : t :=
  let property :=
    mkSchema (Some (TypeName "object")) (Some (value_of newDefaultOverride))
             None None None None None None None
             (Some (value_of newDefaultOverride)) source (FromExtension <$> source) in
  set_configurationProperties (<[key := property]> (configurationProperties this)) this.

Definition doRegisterOverrideIdentifiers (this : t) (identifiers : list string) : t :=
  set_overrideIdentifiers (overrideIdentifiers this ∪ list_to_set identifiers) this.

Definition set_entry_value (entry : DefaultsOverridesEntry)
    (v : IConfigurationDefaultOverrideValue) : DefaultsOverridesEntry :=
  mkEntry (configurationDefaultOverrides entry) (Some v).

(** The body of the inner loop of [doRegisterDefaultConfigurations], for one
    key of one contribution.  The state is the registry, the bucket of changed
    keys and the override identifiers collected so far.  For a key that the
    table of properties inherits and does not bind, the code goes on to write
    the default to the member of the prototype it finds; this member is not
    part of the state. *)
Definition registerDefaultConfiguration (source : option IExtensionInfo)
    (st : t * gset string * list string) (entry : string * value)
  : outcome (t * gset string * list string) :=
  let '(this, bucket, identifiers) := st in
  let '(key, v) := entry in
  let bucket := bucket ∪ {[ key ]} in
  let forKey :=
    match configurationDefaultsOverrides this !! key with
    | Some e => e
    | None => mkEntry [] None
    end in
  let forKey :=
    mkEntry (configurationDefaultOverrides forKey ++ [mkDefaultOverride v source])
            (configurationDefaultOverrideValue forKey) in
  let this :=
    set_configurationDefaultsOverrides
      (<[key := forKey]> (configurationDefaultsOverrides this)) this in
  if OVERRIDE_PROPERTY_REGEX_test key then
    match mergeDefaultConfigurationsForOverrideIdentifier
            key v source (configurationDefaultOverrideValue forKey) with
    | Returned None => Returned (this, bucket, identifiers)
    | Returned (Some newDefaultOverride) =>
        let this :=
          set_configurationDefaultsOverrides
            (<[key := set_entry_value forKey newDefaultOverride]>
               (configurationDefaultsOverrides this)) this in
        let this := updateDefaultOverrideProperty this key newDefaultOverride source in
        Returned (this, bucket, identifiers ++ overrideIdentifiersFromKey key)
    | Thrown e => Thrown e
    | NotAValue => NotAValue
    end
  else
    match mergeDefaultConfigurationsForConfigurationProperty
            this key v source (configurationDefaultOverrideValue forKey) with
    | None => Returned (this, bucket, identifiers)
    | Some newDefaultOverride =>
        let this :=
          set_configurationDefaultsOverrides
            (<[key := set_entry_value forKey newDefaultOverride]>
               (configurationDefaultsOverrides this)) this in
        let this :=
          match configurationProperties this !! key with
          | Some property =>
              set_configurationProperties
                (<[key := updatePropertyDefaultValue this key property]>
                   (configurationProperties this)) this
          | None => this
          end in
        Returned (this, bucket, identifiers)
    end.

Fixpoint foldOutcome {A B} (f : A -> B -> outcome A) (a : A) (l : list B) : outcome A :=
  match l with
  | [] => Returned a
  | b :: rest => outcome_bind (f a b) (fun a' => foldOutcome f a' rest)
  end.

Definition doRegisterDefaultConfigurations (this : t)
    (configurationDefaults : list IConfigurationDefaults) (bucket : gset string)
  : outcome (t * gset string) :=
  let this :=
    set_registeredConfigurationDefaults
      (registeredConfigurationDefaults this ++ configurationDefaults) this in
  outcome_bind
    (foldOutcome
       (fun st contribution =>
          foldOutcome (registerDefaultConfiguration (defaults_source contribution))
                      st (overrides contribution))
       (this, bucket, []) configurationDefaults)
    (fun '(this, bucket, identifiers) =>
       Returned (doRegisterOverrideIdentifiers this identifiers, bucket)).

(** The writes [validateAndRegisterProperties] makes to a property that passed
    validation, up to the test on [included]. *)
Definition prepareProperty (this : t) (key : string)
    (property : IConfigurationPropertySchema)
    (extensionInfo : option IExtensionInfo)
    (restrictedProperties : option (list string))
    (scope : ConfigurationScope) : IConfigurationPropertySchema :=
  let property :=
    mkSchema (type property) (default property) (ConfigurationRegistry.scope property)
             (restricted property) (included property)
             (disallowConfigurationDefault property) (policy property)
             (deprecationMessage property) (markdownDeprecationMessage property)
             (default property) extensionInfo (defaultValueSource property) in
  let property := updatePropertyDefaultValue this key property in
  let '(scope', restricted') :=
    if OVERRIDE_PROPERTY_REGEX_test key then (None, restricted property)
    else
      (Some (match ConfigurationRegistry.scope property with
             | Some s => s
             | None => scope
             end),
       Some (match restricted property with
             | Some r => r
             | None =>
                 match restrictedProperties with
                 | Some l => bool_decide (key ∈ l)
                 | None => false
                 end
             end)) in
  mkSchema (type property) (default property) scope' restricted' (included property)
           (disallowConfigurationDefault property) (policy property)
           (deprecationMessage property) (markdownDeprecationMessage property)
           (defaultDefaultValue property) (source property)
           (defaultValueSource property).

(** [if (!deprecationMessage && markdownDeprecationMessage)]: the write lands
    on the object the registry already holds. *)
Definition defaultDeprecationMessage (property : IConfigurationPropertySchema)
  : IConfigurationPropertySchema :=
  let falsy (m : option string) :=
    match m with Some text => negb (nonempty text) | None => true end in
  if falsy (deprecationMessage property) && negb (falsy (markdownDeprecationMessage property))
  then mkSchema (type property) (default property) (scope property) (restricted property)
                (included property) (disallowConfigurationDefault property)
                (policy property) (markdownDeprecationMessage property)
                (markdownDeprecationMessage property) (defaultDefaultValue property)
                (source property) (defaultValueSource property)
  else property.

(** One key of the loop over [properties].  The state is the properties the
    node keeps, the registry and the bucket. *)
Definition registerProperty (validate : bool)
    (extensionInfo : option IExtensionInfo)
    (restrictedProperties : option (list string)) (scope : ConfigurationScope)
    (st : list (string * IConfigurationPropertySchema) * t * gset string)
    (entry : string * IConfigurationPropertySchema)
  : list (string * IConfigurationPropertySchema) * t * gset string :=
  let '(kept, this, bucket) := st in
  let '(key, property) := entry in
  if validate && bool_decide (is_Some (validateProperty this key property)) then st
  else
    let property := prepareProperty this key property extensionInfo restrictedProperties scope in
    if match included property with
       | Some declared => negb (is_true declared)
       | None => false
       end
    then
      (kept,
       set_excludedConfigurationProperties
         (<[key := property]> (excludedConfigurationProperties this)) this,
       bucket)
    else
      let property := defaultDeprecationMessage property in
      let this :=
        set_configurationProperties (<[key := property]> (configurationProperties this)) this in
      let this :=
        match policyName property with
        | Some name => set_policyConfigurations (<[name := key]> (policyConfigurations this)) this
        | None => this
        end in
      (kept ++ [(key, property)], this, bucket ∪ {[ key ]}).

(** [validateAndRegisterProperties]: the node as the call leaves it, the
    registry and the bucket. *)
Fixpoint validateAndRegisterProperties (this : t) (configuration : IConfigurationNode)
    (validate : bool) (extensionInfo : option IExtensionInfo)
    (restrictedProperties : option (list string)) (scope : ConfigurationScope)
    (bucket : gset string) {struct configuration}
  : IConfigurationNode * t * gset string :=
  let scope := match node_scope configuration with Some s => s | None => scope end in
  let '(properties', this, bucket) :=
    match properties configuration with
    | Some properties =>
        let '(kept, this, bucket) :=
          foldl (registerProperty validate extensionInfo restrictedProperties scope)
                ([], this, bucket) properties in
        (Some kept, this, bucket)
    | None => (None, this, bucket)
    end in
  let '(allOf', this, bucket) :=
    match allOf configuration with
    | Some subNodes =>
        let '(nodes, this, bucket) :=
          (fix each (nodes : list IConfigurationNode) (this : t) (bucket : gset string)
             : list IConfigurationNode * t * gset string :=
             match nodes with
             | [] => ([], this, bucket)
             | node :: rest =>
                 let '(node', this, bucket) :=
                   validateAndRegisterProperties this node validate extensionInfo
                     restrictedProperties scope bucket in
                 let '(rest', this, bucket) := each rest this bucket in
                 (node' :: rest', this, bucket)
             end) subNodes this bucket in
        (Some nodes, this, bucket)
    | None => (None, this, bucket)
    end in
  (mkNode properties' allOf' (node_scope configuration)
          (ConfigurationRegistry.extensionInfo configuration)
          (ConfigurationRegistry.restrictedProperties configuration),
   this, bucket).

Definition doRegisterConfigurations (this : t) (configurations : list IConfigurationNode)
    (validate : bool) (bucket : gset string)
  : list IConfigurationNode * t * gset string :=
  foldl (fun '(done, this, bucket) configuration =>
           let '(configuration', this, bucket) :=
             validateAndRegisterProperties this configuration validate
               (extensionInfo configuration) (restrictedProperties configuration)
               WINDOW bucket in
           (done ++ [configuration'], this, bucket))
        ([], this, bucket) configurations.

(** [registerConfigurations]: the nodes as the call leaves them, the registry,
    and the [properties] of the update event. *)
Definition registerConfigurations (this : t) (configurations : list IConfigurationNode)
    (validate : bool) : list IConfigurationNode * t * gset string :=
  doRegisterConfigurations this configurations validate ∅.

(** [registerConfiguration(configuration, validate = true)]. *)
Definition registerConfiguration (this : t) (configuration : IConfigurationNode)
    (validate : bool) : list IConfigurationNode * t * gset string :=
  registerConfigurations this [configuration] validate.

(** [registerDefaultConfigurations]: the registry afterwards and the
    [properties] of the update event. *)
Definition registerDefaultConfigurations (this : t)
    (configurationDefaults : list IConfigurationDefaults) : outcome (t * gset string) :=
  doRegisterDefaultConfigurations this configurationDefaults ∅.

End ConfigurationRegistry.

(** ** [ConfigurationModelParser]: filtering a settings document *)

Module ConfigurationModelParser.

#[global] Instance ConfigurationScope_eq_dec : EqDecision ConfigurationRegistry.ConfigurationScope.
Proof. solve_decision. Defined.

(** [ConfigurationParseOptions]; an absent field is [None]. *)
Record ConfigurationParseOptions : Type := mkParseOptions {
  scopes : option (list ConfigurationRegistry.ConfigurationScope);
  skipRestricted : option bool;
  include : option (list string);
  exclude : option (list string)
}.

(** What [filter] returns. *)
Record Filtered : Type := mkFiltered {
  raw : value;
  restricted : list string;
  hasExcludedProperties : bool
}.

(** The keys walked by [for (const key in properties)], each with
    [properties[key]]: the entries of an object, the indices of an array or of
    a string, nothing for any other value ([null] included).  An object is
    walked in the order of [map_to_list], which is not the order of the
    document: the list [restricted] holds the keys the code reports, in
    another order. *)
Definition forIn (properties : value) : list (string * value) :=
  match properties with
  | JObj o => map_to_list o
  | JArr l => imap (fun i x => (pretty i, x)) l
  | JStr s => imap (fun i c => (pretty i, JStr (String c ""))) (String.list_ascii_of_string s)
  | _ => []
  end.

(** [list?.includes(x)], falsy when the list is absent. *)
Definition includes {A} `{EqDecision A} (l : option (list A)) (x : A) : bool :=
  match l with
  | Some l => bool_decide (x ∈ l)
  | None => false
  end.

(** The guard [!options?.scopes && !options?.skipRestricted &&
    !options?.exclude?.length] under which [filter] hands the document back. *)
Definition nothingToFilter (options : option ConfigurationParseOptions) : bool :=
  match options with
  | None => true
  | Some options =>
      negb (bool_decide (is_Some (scopes options)))
      && negb (ConfigurationRegistry.is_true (skipRestricted options))
      && negb (match exclude options with Some (_ :: _) => true | _ => false end)
  end.

(** [propertySchema?.restricted], as tested by [if]. *)
Definition isRestricted
    (propertySchema : option ConfigurationRegistry.IConfigurationPropertySchema) : bool :=
  ConfigurationRegistry.is_true (propertySchema ≫= ConfigurationRegistry.restricted).

(** The scope the filter gives a key: that of its schema, [WINDOW] for a
    schema without one, [undefined] for a key without a schema. *)
Definition scopeOf
    (propertySchema : option ConfigurationRegistry.IConfigurationPropertySchema)
  : option ConfigurationRegistry.ConfigurationScope :=
  match propertySchema with
  | Some schema =>
      Some (match ConfigurationRegistry.scope schema with
            | Some scope => scope
            | None => ConfigurationRegistry.WINDOW
            end)
  | None => None
  end.

(** The condition under which [raw[key] = properties[key]] runs. *)
Definition passes (options : ConfigurationParseOptions)
    (propertySchema : option ConfigurationRegistry.IConfigurationPropertySchema)
    (key : string) : bool :=
  negb (includes (exclude options) key)
  && (includes (include options) key
      || ((match scopeOf propertySchema, scopes options with
           | None, _ => true
           | _, None => true
           | Some scope, Some _ => includes (scopes options) scope
           end)
          && negb (ConfigurationRegistry.is_true (skipRestricted options)
                   && isRestricted propertySchema))).

(** One round of the loop of [filter]; [filterSection] stands for the
    recursive call [this.filter(properties[key], configurationProperties,
    false, options)].  The assignment [raw[key] = ..] binds the key in the
    dictionary [raw]; the key [__proto__], which an assignment reads as the
    prototype of [raw], is not taken to be a key of a settings document. *)
Definition filterProperty (filterSection : value → Filtered)
    (configurationProperties : gmap string ConfigurationRegistry.IConfigurationPropertySchema)
    (filterOverriddenProperties : bool) (options : ConfigurationParseOptions)
    (acc : gmap string value * list string * bool) (entry : string * value)
  : gmap string value * list string * bool :=
  let '(raw0, restricted0, hasExcludedProperties0) := acc in
  let '(key, v) := entry in
  if OVERRIDE_PROPERTY_REGEX_test key && filterOverriddenProperties then
    let result := filterSection v in
    (<[key := raw result]> raw0,
     restricted0 ++ restricted result,
     hasExcludedProperties0 || hasExcludedProperties result)
  else
    let propertySchema := configurationProperties !! key in
    let restricted1 :=
      if isRestricted propertySchema then restricted0 ++ [key] else restricted0 in
    if passes options propertySchema key
    then (<[key := v]> raw0, restricted1, hasExcludedProperties0)
    else (raw0, restricted1, true).

(** The body of [filter] with its recursive call as a parameter. *)
Definition filterWith (filterSection : value → Filtered) (properties : value)
    (configurationProperties : gmap string ConfigurationRegistry.IConfigurationPropertySchema)
    (filterOverriddenProperties : bool) (options : option ConfigurationParseOptions)
  : Filtered :=
  if nothingToFilter options then mkFiltered properties [] false
  else
    match options with
    | None => mkFiltered properties [] false
    | Some options =>
        let '(raw, restricted, hasExcludedProperties) :=
          foldl (filterProperty filterSection configurationProperties
                   filterOverriddenProperties options)
                (∅, [], false) (forIn properties) in
        mkFiltered (JObj raw) restricted hasExcludedProperties
    end.

(** [filter] called on an override section: [filterOverriddenProperties] is
    [false] and the recursive call is never reached. *)
Definition filterOverridden (properties : value)
    (configurationProperties : gmap string ConfigurationRegistry.IConfigurationPropertySchema)
    (options : option ConfigurationParseOptions) : Filtered :=
  filterWith (fun section => mkFiltered section [] false) properties
    configurationProperties false options.

(** [filter(properties, configurationProperties, filterOverriddenProperties,
    options)].  The recursive call passes [false], so the recursion is one
    level deep. *)
Definition filter (properties : value)
    (configurationProperties : gmap string ConfigurationRegistry.IConfigurationPropertySchema)
    (filterOverriddenProperties : bool) (options : option ConfigurationParseOptions)
  : Filtered :=
  filterWith (fun section => filterOverridden section configurationProperties options)
    properties configurationProperties filterOverriddenProperties options.

End ConfigurationModelParser.

(** * Specification vocabulary and concrete models *)

Module Layers.

(** A scalar: a value that is neither an object nor an array. *)
Definition is_scalar (v : value) : bool :=
  match v with
  | JNull | JBool _ | JNum _ | JStr _ => true
  | JArr _ | JObj _ => false
  end.

(** The layer defines [k], and then with a scalar. *)
Definition scalarIfDefined (k : string) (layer : ConfigurationModel.t) : bool :=
  match ConfigurationModel.getValue layer (Some k) with
  | Some v => is_scalar v
  | None => true
  end.

(** The value of [k] in the last layer of the list that defines it. *)
Definition highestDefinition (layers : list ConfigurationModel.t) (k : string)
  : option value :=
  foldl (fun found layer =>
           match ConfigurationModel.getValue layer (Some k) with
           | Some v => Some v
           | None => found
           end) None layers.

(** The tree holds something that is not an object at a proper prefix of the
    path. *)
Fixpoint shadows (tree : gmap string value) (path : list string) : bool :=
  match path with
  | [] => false
  | [_] => false
  | component :: rest =>
      match tree !! component with
      | Some (JObj subtree) => shadows subtree rest
      | Some _ => true
      | None => false
      end
  end.

Definition shadowsKey (k : string) (layer : ConfigurationModel.t) : bool :=
  shadows (ConfigurationModel.contents layer) (split "."%char k).

Definition modelOf (contents : gmap string value) (keys : list string)
  : ConfigurationModel.t :=
  ConfigurationModel.mk contents keys [].

Definition nested_one : ConfigurationModel.t :=
  modelOf {[ "a" := JObj {[ "b" := JNum 1 ]} ]} ["a.b"].

Definition nested_two : ConfigurationModel.t :=
  modelOf {[ "a" := JObj {[ "b" := JNum 2 ]} ]} ["a.b"].

Definition flat_five : ConfigurationModel.t :=
  modelOf {[ "a" := JNum 5 ]} ["a"].

Definition other_key : ConfigurationModel.t :=
  modelOf {[ "c" := JNum 3 ]} ["c"].

End Layers.

(** Concrete configurations. *)
Module Scenarios.

Definition empty : ConfigurationModel.t := ConfigurationModel.createEmptyModel.

Definition noOverrides : IConfigurationOverrides := mkOverrides None None.

Definition forResource (r : URI) : IConfigurationOverrides := mkOverrides None (Some r).

Definition forLanguage (identifier : string) : IConfigurationOverrides :=
  mkOverrides (Some identifier) None.

(** A workspace with one folder, [file:///w], that owns the resources below it. *)
Definition oneFolder : Workspace :=
  mkWorkspace (fun r => if String.prefix "file:///w/" r then Some "file:///w" else None).

(** Base [{enabled: true, fontSize: 12}] with the section [[typescript]] set to
    [{enabled: false, fontSize: 14}]. *)
Definition typescriptSection : IOverrides.t :=
  IOverrides.mk ["typescript"] ["enabled"; "fontSize"]
                {[ "enabled" := JBool false; "fontSize" := JNum 14 ]}.

Definition withTypescriptSection : ConfigurationModel.t :=
  ConfigurationModel.mk {[ "enabled" := JBool true; "fontSize" := JNum 12 ]}
                        ["enabled"; "fontSize"] [typescriptSection].

(** Base [{a: null}] with the section [[typescript]] set to [{a: {x: 1}}]. *)
Definition nullBase : ConfigurationModel.t :=
  ConfigurationModel.mk {[ "a" := JNull ]} ["a"]
    [IOverrides.mk ["typescript"] ["a.x"] {[ "a" := JObj {[ "x" := JNum 1 ]} ]}].

(** Policy [{a: {x: 1}}] over a user layer [{a: {y: 2}}]. *)
Definition policyObject : Configuration.t :=
  Configuration.new empty
    (Layers.modelOf {[ "a" := JObj {[ "x" := JNum 1 ]} ]} ["a.x"])
    empty
    (Layers.modelOf {[ "a" := JObj {[ "y" := JNum 2 ]} ]} ["a.y"])
    empty empty ∅ empty ∅.

(** Policy [{a: {b: 9}}] over layers that all define [a.b], with a language
    section in the user layer. *)
Definition policyScalar : Configuration.t :=
  Configuration.new Layers.nested_one
    (Layers.modelOf {[ "a" := JObj {[ "b" := JNum 9 ]} ]} ["a.b"])
    Layers.nested_two
    (ConfigurationModel.mk {[ "a" := JObj {[ "b" := JNum 3 ]} ]} ["a.b"]
       [IOverrides.mk ["typescript"] ["a.b"] {[ "a" := JObj {[ "b" := JNum 4 ]} ]}])
    empty Layers.nested_two
    {[ "file:///w" := Layers.nested_one ]}
    Layers.nested_two
    {[ "file:///w/x.ts" := Layers.nested_one ]}.

(** Defaults [{a: {b: 0}}], one folder with its own settings, nothing else. *)
Definition defaultsAndFolder : Configuration.t :=
  Configuration.new
    (Layers.modelOf {[ "a" := JObj {[ "b" := JNum 0 ]} ]} ["a.b"])
    empty empty empty empty empty
    {[ "file:///w" := Layers.other_key ]}
    empty ∅.

(** The state a method leaves, and what it returned. *)
Definition after {A} (m : Configuration.M A) (c : Configuration.t) : Configuration.t :=
  (m c).2.

Definition result {A} (m : Configuration.M A) (c : Configuration.t) : outcome A :=
  (m c).1.

(** Only the memory layer defines [a]. *)
Definition memoryOnly : Configuration.t :=
  Configuration.new empty empty empty empty empty empty ∅
    (Layers.modelOf {[ "a" := JNum 1 ]} ["a"]) ∅.

End Scenarios.

(** What the change event is meant to answer: some affected key is the section
    or starts with the section followed by a dot. *)
Module Affects.

Definition keyUnderSection (section key : string) : bool :=
  String.eqb key section || String.prefix (section +:+ ".") key.

Definition someKeyUnderSection (this : ConfigurationChangeEvent.t) (section : string)
  : bool :=
  existsb (keyUnderSection section) (ConfigurationChangeEvent.affectedKeys this).

(** An event for a change of the given keys, on a configuration without
    settings. *)
Definition eventFor (keys : list string) : ConfigurationChangeEvent.t :=
  ConfigurationChangeEvent.new (ConfigurationChangeEvent.mkChange keys []) None
    (Configuration.new Scenarios.empty Scenarios.empty Scenarios.empty Scenarios.empty
       Scenarios.empty Scenarios.empty ∅ Scenarios.empty ∅)
    None.

Definition fontSizeChange : ConfigurationChangeEvent.t := eventFor ["editor.fontSize"].

Definition twoEditorKeys : ConfigurationChangeEvent.t :=
  eventFor ["editorX"; "editor.fontSize"].

End Affects.

(** The consolidated models as functions of the layers, and the caches that
    agree with them. *)
Module Consolidation.

Import Configuration.

(** The nine layers of a configuration, without its caches. *)
Definition layers (c : t) :=
  (_defaultConfiguration c, _policyConfiguration c, _applicationConfiguration c,
   _localUserConfiguration c, _remoteUserConfiguration c, _workspaceConfiguration c,
   _folderConfigurations c, _memoryConfiguration c, _memoryConfigurationByResource c).

Definition userOf (c : t) : ConfigurationModel.t :=
  if ConfigurationModel.isEmpty (_remoteUserConfiguration c)
  then _localUserConfiguration c
  else ConfigurationModel.merge (_localUserConfiguration c) [_remoteUserConfiguration c].

Definition workspaceOf (c : t) : ConfigurationModel.t :=
  ConfigurationModel.merge (_defaultConfiguration c)
    [_applicationConfiguration c; userOf c; _workspaceConfiguration c;
     _memoryConfiguration c].

Definition folderOf (c : t) (folder : URI) : ConfigurationModel.t :=
  match _folderConfigurations c !! folder with
  | Some folderConfiguration =>
      ConfigurationModel.merge (workspaceOf c) [folderConfiguration]
  | None => workspaceOf c
  end.

Definition resourceOf (c : t) (overrides : IConfigurationOverrides)
    (workspace : option Workspace) : ConfigurationModel.t :=
  match workspace, resource overrides with
  | Some workspace, Some resource =>
      let consolidated :=
        match getFolder workspace resource with
        | Some root => folderOf c root
        | None => workspaceOf c
        end in
      match _memoryConfigurationByResource c !! resource with
      | Some memoryConfigurationForResource =>
          ConfigurationModel.merge consolidated [memoryConfigurationForResource]
      | None => consolidated
      end
  | _, _ => workspaceOf c
  end.

(** Every cache that is filled holds what a rebuild from the layers gives. *)
Record coherent (c : t) : Prop := mkCoherent {
  user_coherent :
    ∀ m, _userConfiguration c = Some m → m = userOf c;
  workspace_coherent :
    ∀ m, _workspaceConsolidatedConfiguration c = Some m → m = workspaceOf c;
  folders_coherent :
    ∀ folder m, _foldersConsolidatedConfigurations c !! folder = Some m →
                m = folderOf c folder
}.

(** The first two steps of [getConsolidatedConfigurationModel]: the model
    consolidated for the resource, projected onto the override identifier. *)
Definition projected (overrides : IConfigurationOverrides) (workspace : option Workspace)
  : M ConfigurationModel.t :=
  let* configurationModel := getConsolidatedConfigurationModelForResource overrides workspace in
  match truthyIdentifier (overrideIdentifier overrides) with
  | Some identifier => lift (ConfigurationModel.override configurationModel identifier)
  | None => ret configurationModel
  end.

(** The last step: the policy layer merged on top when it defines the section. *)
Definition withPolicy (policyConfiguration : ConfigurationModel.t)
    (section : option string) (configurationModel : ConfigurationModel.t)
  : ConfigurationModel.t :=
  if negb (ConfigurationModel.isEmpty policyConfiguration)
     && bool_decide (is_Some (ConfigurationModel.getValue policyConfiguration section))
  then ConfigurationModel.merge configurationModel [policyConfiguration]
  else configurationModel.

(** What [getValue] returns when every cache is coherent. *)
Definition resolve (c : t) (section : option string)
    (overrides : IConfigurationOverrides) (workspace : option Workspace)
  : outcome (option value) :=
  outcome_bind
    (match truthyIdentifier (overrideIdentifier overrides) with
     | Some identifier =>
         ConfigurationModel.override (resourceOf c overrides workspace) identifier
     | None => Returned (resourceOf c overrides workspace)
     end)
    (fun m => Returned (ConfigurationModel.getValue
                          (withPolicy (_policyConfiguration c) section m) section)).

(** The state has the layers of [c0]; its caches are coherent when [φ] holds.
    With [φ] true this is the invariant of a configuration that is only read;
    with [φ] false it says that the layers are those of [c0]. *)
Definition settled (φ : Prop) (c0 c : t) : Prop :=
  layers c = layers c0 ∧ (φ → coherent c).

(** The user model a read finds: the cached one, or the merge of the local and
    the remote user layers. *)
Definition userRead (c : t) : ConfigurationModel.t :=
  match _userConfiguration c with
  | Some m => m
  | None => userOf c
  end.

(** The workspace-level model a rebuild from the layers gives. *)
Definition workspaceRebuilt (c : t) : ConfigurationModel.t :=
  ConfigurationModel.merge (_defaultConfiguration c)
    [_applicationConfiguration c; userRead c; _workspaceConfiguration c;
     _memoryConfiguration c].

(** No memory override is held, globally or for any resource. *)
Definition memoryFree (c : t) : Prop :=
  ConfigurationModel.isEmpty (_memoryConfiguration c) = true
  ∧ ∀ r m, _memoryConfigurationByResource c !! r = Some m →
           ConfigurationModel.isEmpty m = true.

End Consolidation.

(** Total correctness of a method of the consolidator: from a state that
    satisfies [P] the method returns, and the result and the state it leaves
    satisfy [Q]. *)
Module Triples.

Import Configuration.

Definition hoare {A} (P : t → Prop) (m : M A) (Q : A → t → Prop) : Prop :=
  ∀ c, P c → ∃ a c', m c = (Returned a, c') ∧ Q a c'.

End Triples.

(** The memory model a write is routed to, and configurations that differ in
    their memory layers. *)
Module Memory.

Import Configuration.

(** The model [updateValue] writes to: the one held for the resource (a new
    empty one when none is held), or the global one. *)
Definition targeted (c : t) (overrides : IConfigurationOverrides) : ConfigurationModel.t :=
  match resource overrides with
  | Some r =>
      match _memoryConfigurationByResource c !! r with
      | Some m => m
      | None => ConfigurationModel.createEmptyModel
      end
  | None => _memoryConfiguration c
  end.

(** The configuration without its global memory layer, nothing cached at
    workspace level: what the lower-priority layers alone give. *)
Definition withoutGlobalMemory (c : t) : t :=
  set_workspaceConsolidatedConfiguration None
    (set_memoryConfiguration ConfigurationModel.createEmptyModel c).

(** The configuration without the memory model held for a resource. *)
Definition withoutResourceMemory (r : URI) (c : t) : t :=
  set_memoryConfigurationByResource (delete r (_memoryConfigurationByResource c)) c.

(** The configuration without the memory model a write targets: what the
    lower-priority layers alone give to a read for the resource of the
    write. *)
Definition withoutTargeted (overrides : IConfigurationOverrides) (c : t) : t :=
  match resource overrides with
  | Some r => withoutResourceMemory r c
  | None => withoutGlobalMemory c
  end.

Definition set_folderConfigurations (v : gmap URI ConfigurationModel.t) (this : t) : t :=
  mk (_defaultConfiguration this) (_policyConfiguration this)
     (_applicationConfiguration this) (_localUserConfiguration this)
     (_remoteUserConfiguration this) (_workspaceConfiguration this)
     v (_memoryConfiguration this) (_memoryConfigurationByResource this)
     (_workspaceConsolidatedConfiguration this)
     (_foldersConsolidatedConfigurations this) (_userConfiguration this).

(** Defaults [{a: {b: 0}}]; then [a] is set to [{b: 1}] in memory; then [a.b]
    is updated to [undefined]. *)
Definition defaultsOnly : t :=
  new (Layers.modelOf {[ "a" := JObj {[ "b" := JNum 0 ]} ]} ["a.b"])
      Scenarios.empty Scenarios.empty Scenarios.empty Scenarios.empty Scenarios.empty
      ∅ Scenarios.empty ∅.

Definition objectInMemory : t :=
  Scenarios.after (updateValue "a" (Some (JObj {[ "b" := JNum 1 ]})) Scenarios.noOverrides)
                  defaultsOnly.

Definition leafRemoved : t :=
  Scenarios.after (updateValue "a.b" None Scenarios.noOverrides) objectInMemory.

(** Defaults [{a: {b: 0}}]; then [a.b] is set to [1] in memory and read; then
    [a.b] is updated to [undefined]. *)
Definition leafInMemory : t :=
  Scenarios.after (getValue (Some "a.b") Scenarios.noOverrides None)
    (Scenarios.after (updateValue "a.b" (Some (JNum 1)) Scenarios.noOverrides)
                     defaultsOnly).

(** Defaults [{a: {b: 0}}]; in memory [a.b] is set to [1] and the section
    [[typescript]] to [{a.b: 5}]. *)
Definition sectionInMemory : t :=
  Scenarios.after
    (updateValue "[typescript]" (Some (JObj {[ "a.b" := JNum 5 ]})) Scenarios.noOverrides)
    leafInMemory.

(** A folder read fills both caches; a global write and a write for a resource
    follow. *)
Definition folderRead : t :=
  Scenarios.after
    (getValue (Some "a.b") (Scenarios.forResource "file:///w/x.ts")
              (Some Scenarios.oneFolder))
    Scenarios.defaultsAndFolder.

Definition globalWrite : t :=
  Scenarios.after (updateValue "a.b" (Some (JNum 8)) Scenarios.noOverrides) folderRead.

Definition resourceWrite : t :=
  Scenarios.after
    (updateValue "a.b" (Some (JNum 8)) (Scenarios.forResource "file:///w/x.ts"))
    folderRead.

End Memory.

(** Default overrides held by the registry. *)
Module Defaults.

Import ConfigurationRegistry.

(** The default override recorded for a key. *)
Definition storedDefault (this : t) (key : string)
  : option IConfigurationDefaultOverrideValue :=
  configurationDefaultsOverrides this !! key ≫= configurationDefaultOverrideValue.

(** The [existingDefaultValue] of
    [mergeDefaultConfigurationsForConfigurationProperty], from the registered
    property and the default override recorded so far. *)
Definition existingDefaultValue (property : option IConfigurationPropertySchema)
    (previous : option IConfigurationDefaultOverrideValue) : option value :=
  match value_of <$> previous with
  | Some JNull | None => property ≫= defaultDefaultValue
  | Some existing => Some existing
  end.

Definition existingObject (property : option IConfigurationPropertySchema)
    (previous : option IConfigurationDefaultOverrideValue) : gmap string value :=
  match existingDefaultValue property previous with
  | Some (JObj o) => o
  | _ => ∅
  end.




Definition firstContribution : IConfigurationDefaults :=
  mkDefaults [("k", JObj {[ "a" := JObj {[ "x" := JNum 1 ]} ]})] (Some "ext1").


(** The registry after the first contribution. *)
Definition afterFirst : t :=
  match registerDefaultConfigurations new [firstContribution] with
  | Returned (this, _) => this
  | _ => new
  end.

End Defaults.

(** A batch of contributed nodes as the sequence of its properties. *)
Module Batch.

Import ConfigurationRegistry.

(** The properties of a node and of its [allOf] sub-nodes, in the order
    [validateAndRegisterProperties] reaches them, each with the scope its node
    passes on. *)
Fixpoint entriesOf (configuration : IConfigurationNode) (scope : ConfigurationScope)
  : list (ConfigurationScope * (string * IConfigurationPropertySchema)) :=
  let scope := match node_scope configuration with Some s => s | None => scope end in
  match properties configuration with
  | Some properties => pair scope <$> properties
  | None => []
  end
  ++ match allOf configuration with
     | Some subNodes =>
         (fix each (nodes : list IConfigurationNode) :=
            match nodes with
            | [] => []
            | node :: rest => entriesOf node scope ++ each rest
            end) subNodes
     | None => []
     end.

Section SubNodes.

Variables (validate : bool) (extensionInfo : option IExtensionInfo)
  (restrictedProperties : option (list string)) (scope : ConfigurationScope).

(** The loop over [allOf]. *)
Fixpoint registerNodes (nodes : list IConfigurationNode) (this : t)
    (bucket : gset string) : list IConfigurationNode * t * gset string :=
  match nodes with
  | [] => ([], this, bucket)
  | node :: rest =>
      let '(node', this, bucket) :=
        validateAndRegisterProperties this node validate extensionInfo
          restrictedProperties scope bucket in
      let '(rest', this, bucket) := registerNodes rest this bucket in
      (node' :: rest', this, bucket)
  end.

Fixpoint entriesOfNodes (nodes : list IConfigurationNode)
  : list (ConfigurationScope * (string * IConfigurationPropertySchema)) :=
  match nodes with
  | [] => []
  | node :: rest => entriesOf node scope ++ entriesOfNodes rest
  end.

End SubNodes.

(** One step of the batch: the property is validated and registered against
    the registry as the properties before it left it.  The state is the
    properties kept in their nodes so far, the registry and the bucket. *)
Definition registerEntry (validate : bool) (extensionInfo : option IExtensionInfo)
    (restrictedProperties : option (list string))
    (st : list (ConfigurationScope * (string * IConfigurationPropertySchema))
          * t * gset string)
    (entry : ConfigurationScope * (string * IConfigurationPropertySchema))
  : list (ConfigurationScope * (string * IConfigurationPropertySchema))
    * t * gset string :=
  let '(kept, this, bucket) := st in
  let '(scope, property) := entry in
  let '(keptHere, this, bucket) :=
    registerProperty validate extensionInfo restrictedProperties scope
      ([], this, bucket) property in
  (kept ++ (pair scope <$> keptHere), this, bucket).

(** The reasons for which a key is turned down: it is blank, it is an
    override-section key, the table of the registry has it (as a registered
    key or as a name it inherits), or its policy is claimed. *)
Definition turnedDown (this : t) (key : string)
    (property : IConfigurationPropertySchema) : Prop :=
  trim key = ""
  ∨ OVERRIDE_PROPERTY_REGEX_test key = true
  ∨ (is_Some (configurationProperties this !! key) ∨ inherited key = true)
  ∨ ∃ name owner, policyName property = Some name
                  ∧ policyConfigurations this !! name = Some owner.

(** The property has a field [included] that is not truthy: [included: false],
    or [included] bound to [undefined] or to [null]. *)
Definition isExcluded (property : IConfigurationPropertySchema) : bool :=
  match included property with
  | Some declared => negb (is_true declared)
  | None => false
  end.

Definition plainSchema : IConfigurationPropertySchema :=
  mkSchema None None None None None None None None None None None None.

Definition excludedSchema : IConfigurationPropertySchema :=
  mkSchema None None None None (Some (Some false)) None None None None None None None.

Definition withPolicyName (name : string) : IConfigurationPropertySchema :=
  mkSchema None None None None None None (Some name) None None None None None.

Definition nodeOf (properties : list (string * IConfigurationPropertySchema))
    (subNodes : option (list IConfigurationNode)) : IConfigurationNode :=
  mkNode (Some properties) subNodes None None None.

(** A batch with an empty key, an override-section key, two properties that
    claim the same policy, and, in a sub-node, a key registered before. *)
Definition mixedBatch : IConfigurationNode :=
  nodeOf [("editor.tabSize", withPolicyName "TabSize");
          ("", plainSchema);
          ("[typescript]", plainSchema);
          ("editor.indent", withPolicyName "TabSize");
          ("editor.fontSize", plainSchema)]
         (Some [nodeOf [("editor.tabSize", plainSchema);
                        ("editor.wordWrap", plainSchema)] None]).

(** U+00A0, the no-break space. *)
Definition noBreakSpace : string := String "194"%char (String "160"%char "").

(** A batch with a key of white space outside ASCII, a key that the table of
    the registry inherits, a property declared with [included: false] and a
    property like any other. *)
Definition awkwardBatch : IConfigurationNode :=
  nodeOf [(noBreakSpace, plainSchema);
          ("toString", plainSchema);
          ("editor.hidden", excludedSchema);
          ("editor.fontSize", plainSchema)]
         None.

End Batch.

(** Keys written as groups between brackets. *)
Module Brackets.

(** The key that names the given groups: each between brackets, one after the
    other. *)
Definition bracketed (groups : list string) : string :=
  foldr (fun g rest => "[" +:+ g +:+ "]" +:+ rest) "" groups.

(** The character occurs in the text. *)
Fixpoint occurs (c : ascii) (s : string) : bool :=
  match s with
  | EmptyString => false
  | String d rest => Ascii.eqb d c || occurs c rest
  end.

(** A text [[^\]]+] accepts: not empty, without a closing bracket. *)
Definition groupText (g : string) : Prop :=
  g ≠ "" ∧ occurs "]"%char g = false.

End Brackets.

(** The override sections of a model. *)
Module Sections.

(** The identifier lists of the override sections of a model, in order. *)
Definition identifierLists (m : ConfigurationModel.t) : list (list string) :=
  IOverrides.identifiers <$> ConfigurationModel.overrides m.

(** The models of a list that [merge] does not skip. *)
Definition contributing (others : list ConfigurationModel.t) : list ConfigurationModel.t :=
  filter (fun other => ConfigurationModel.isEmpty other = false) others.

(** Sections [[typescript][javascript]] = [{a: 1}] and then [[typescript]]
    = [{a: 2}]. *)
Definition sharedThenExact : ConfigurationModel.t :=
  ConfigurationModel.mk ∅ ["[typescript][javascript]"; "[typescript]"]
    [IOverrides.mk ["typescript"; "javascript"] ["a"] {[ "a" := JNum 1 ]};
     IOverrides.mk ["typescript"] ["a"] {[ "a" := JNum 2 ]}].

(** [[b]], [[a]] and [[a][a]] are set, in this order, and [[a]] is removed. *)
Definition aliasRemoved : ConfigurationModel.t :=
  let section := JObj {[ "x" := JNum 1 ]} in
  let m := (ConfigurationModel.setValue ConfigurationModel.createEmptyModel "[b]" section).2 in
  let m := (ConfigurationModel.setValue m "[a]" section).2 in
  let m := (ConfigurationModel.setValue m "[a][a]" section).2 in
  ConfigurationModel.removeValue m "[a]".

End Sections.

(** What a read finds, whatever the caches hold. *)
Module Seen.

Import Configuration Consolidation.

(** The workspace-level model a read finds: the cached one, or the rebuild. *)
Definition workspaceSeen (c : t) : ConfigurationModel.t :=
  match _workspaceConsolidatedConfiguration c with
  | Some m => m
  | None => workspaceRebuilt c
  end.

(** The model a read finds for a folder: the cached one, or the folder's
    settings merged over the workspace-level model. *)
Definition folderSeen (c : t) (folder : URI) : ConfigurationModel.t :=
  match _foldersConsolidatedConfigurations c !! folder with
  | Some m => m
  | None =>
      match _folderConfigurations c !! folder with
      | Some folderConfiguration =>
          ConfigurationModel.merge (workspaceSeen c) [folderConfiguration]
      | None => workspaceSeen c
      end
  end.

Definition resourceSeen (c : t) (overrides : IConfigurationOverrides)
    (workspace : option Workspace) : ConfigurationModel.t :=
  match workspace, resource overrides with
  | Some workspace, Some resource =>
      let consolidated :=
        match getFolder workspace resource with
        | Some root => folderSeen c root
        | None => workspaceSeen c
        end in
      match _memoryConfigurationByResource c !! resource with
      | Some memoryConfigurationForResource =>
          ConfigurationModel.merge consolidated [memoryConfigurationForResource]
      | None => consolidated
      end
  | _, _ => workspaceSeen c
  end.

(** What [getValue] returns from any state. *)
Definition resolveSeen (c : t) (section : option string)
    (overrides : IConfigurationOverrides) (workspace : option Workspace)
  : outcome (option value) :=
  outcome_bind
    (match truthyIdentifier (overrideIdentifier overrides) with
     | Some identifier =>
         ConfigurationModel.override (resourceSeen c overrides workspace) identifier
     | None => Returned (resourceSeen c overrides workspace)
     end)
    (fun m => Returned (ConfigurationModel.getValue
                          (withPolicy (_policyConfiguration c) section m) section)).

(** The same layers, and the same models found by a read. *)
Definition sameReads (c c' : t) : Prop :=
  layers c' = layers c
  ∧ userRead c' = userRead c
  ∧ workspaceSeen c' = workspaceSeen c
  ∧ ∀ folder, folderSeen c' folder = folderSeen c folder.

End Seen.

(** The text the change event searches. *)
Module Marked.

(** The affected keys, each followed by the marker. *)
Definition body (keys : list string) : string :=
  foldr (fun key rest => key +:+ ConfigurationChangeEvent._marker +:+ rest) "" keys.

(** The text does not hold the marker. *)
Definition markerFree (s : string) : Prop :=
  Brackets.occurs ConfigurationChangeEvent._markerCode1 s = false.

End Marked.

(** Invariants of the catalogue of keys. *)
Module Catalogue.

Import ConfigurationRegistry.

(** The policy table is the inverse of the policies the registered schemas
    name: a name is claimed by a key exactly when the schema registered for
    that key names it. *)
Definition policiesExact (this : t) : Prop :=
  ∀ name key,
    policyConfigurations this !! name = Some key
    ↔ ∃ property, configurationProperties this !! key = Some property
                  ∧ policyName property = Some name.

(** Every schema the registry holds, registered or excluded, has a default. *)
Definition defaultsDefined (this : t) : Prop :=
  ∀ key property,
    configurationProperties this !! key = Some property
    ∨ excludedConfigurationProperties this !! key = Some property →
    is_Some (default property).

(** The registry after [registerConfiguration]. *)
Definition registered (this : t) (configuration : IConfigurationNode) (validate : bool)
  : t :=
  (registerConfiguration this configuration validate).1.2.

(** The scope a property is registered with: its own, or the one its node
    passes on. *)
Definition resolvedScope (scope : ConfigurationScope)
    (property : IConfigurationPropertySchema) : ConfigurationScope :=
  match ConfigurationRegistry.scope property with
  | Some declared => declared
  | None => scope
  end.

(** The [restricted] flag a property is registered with: its own, or whether
    its node lists the key as restricted. *)
Definition resolvedRestricted (restrictedProperties : option (list string))
    (key : string) (property : IConfigurationPropertySchema) : bool :=
  match restricted property with
  | Some declared => declared
  | None =>
      match restrictedProperties with
      | Some listed => bool_decide (key ∈ listed)
      | None => false
      end
  end.

(** The default a property is registered with: the default override recorded
    for its key, unless the property disallows defaults that come with a
    source; else its own default; else the default of its type. *)
Definition resolvedDefault (this : t) (key : string)
    (property : IConfigurationPropertySchema) : value :=
  let own :=
    match default property with
    | Some declared => declared
    | None => getDefaultValue (type property)
    end in
  match Defaults.storedDefault this key with
  | Some stored =>
      if negb (is_true (disallowConfigurationDefault property))
         || negb (bool_decide (is_Some (source_of stored)))
      then value_of stored
      else own
  | None => own
  end.

End Catalogue.

(** Default overrides of override-section keys. *)
Module SectionDefaults.

Import ConfigurationRegistry Defaults.

(** One property of a contributed section merged with what is recorded for
    it: two objects are spread into one, an object with nothing recorded is
    taken as it is, anything else replaces what is recorded. *)
Definition mergedEntry (existing : option value) (contributed : value) : value :=
  match contributed, existing with
  | JObj c, Some (JObj e) => JObj (spread e c)
  | JObj c, None => JObj (spread ∅ c)
  | _, _ => contributed
  end.

(** The test [isObjectSetting] of the loop: the contributed value is an object
    and what is recorded is absent or an object. *)
Definition spreads (existing : option value) (contributed : value) : bool :=
  types.isObject (Some contributed)
  && (types.isUndefined existing || types.isObject existing).

(** The section recorded so far for an override-section key. *)
Definition recorded (previous : option IConfigurationDefaultOverrideValue)
  : gmap string value :=
  match previous with
  | Some previous => match value_of previous with JObj o => o | _ => ∅ end
  | None => ∅
  end.

(** The recorded default of every override-section key is an object whose
    provenance is a map. *)
Definition sourcesAreMaps (this : t) : Prop :=
  ∀ key stored,
    OVERRIDE_PROPERTY_REGEX_test key = true →
    storedDefault this key = Some stored →
    (∃ o, value_of stored = JObj o) ∧ (∃ m, source_of stored = Some (FromMap m)).

(** A contribution for the section [[typescript]]. *)
Definition typescriptDefaults : IConfigurationDefaults :=
  mkDefaults [("[typescript]", JObj {[ "editor.tabSize" := JNum 2 ]})] (Some "ext1").

(** The key [k] is registered with type [object]; then an extension
    contributes the default [5] for it. *)
Definition plainDefaultRecorded : t :=
  let objectSchema :=
    mkSchema (Some (TypeName "object")) None None None None None None None None None
             None None in
  let this := (registerConfiguration new (Batch.nodeOf [("k", objectSchema)] None) true).1.2 in
  match registerDefaultConfigurations this [mkDefaults [("k", JNum 5)] (Some "ext1")] with
  | Returned (this, _) => this
  | _ => this
  end.

End SectionDefaults.

(** What a contribution of defaults leaves in the registry. *)
Module Contributed.

Import ConfigurationRegistry.

(** What the loop of [doRegisterDefaultConfigurations] has recorded for a
    contributed key: the key is in the bucket and, for an override-section
    key, the registry holds a property for it and its identifiers are among
    those collected. *)
Definition recordedEntry (entry : string * value)
    (st : t * gset string * list string) : Prop :=
  entry.1 ∈ st.1.2
  ∧ (OVERRIDE_PROPERTY_REGEX_test entry.1 = true →
     is_Some (configurationProperties st.1.1 !! entry.1)
     ∧ ∀ identifier, identifier ∈ overrideIdentifiersFromKey entry.1 →
                     identifier ∈ st.2).

End Contributed.

(** What the filter does with a document, entry by entry. *)
Module Filtering.

Import ConfigurationModelParser.

(** A document whose override sections are objects. *)
Definition sectionsAreObjects (o : gmap string value) : Prop :=
  ∀ key v, o !! key = Some v → OVERRIDE_PROPERTY_REGEX_test key = true →
           ∃ section, v = JObj section.

(** What one entry of the document becomes in the filtered document: a
    section is replaced by its filtered section, a key that passes is kept
    with its value, any other key is left out. *)
Definition entryOut (recur : value → Filtered)
    (cp : gmap string ConfigurationRegistry.IConfigurationPropertySchema)
    (flag : bool) (options : ConfigurationParseOptions) (key : string) (v : value)
  : option value :=
  if OVERRIDE_PROPERTY_REGEX_test key && flag then Some (raw (recur v))
  else if passes options (cp !! key) key then Some v else None.

(** The restricted keys one entry reports. *)
Definition entryReports (recur : value → Filtered)
    (cp : gmap string ConfigurationRegistry.IConfigurationPropertySchema)
    (flag : bool) (key : string) (v : value) (k : string) : Prop :=
  if OVERRIDE_PROPERTY_REGEX_test key && flag then k ∈ restricted (recur v)
  else key = k ∧ isRestricted (cp !! key) = true.

(** The entry makes the filter report excluded properties. *)
Definition entryDrops (recur : value → Filtered)
    (cp : gmap string ConfigurationRegistry.IConfigurationPropertySchema)
    (flag : bool) (options : ConfigurationParseOptions) (key : string) (v : value)
  : Prop :=
  if OVERRIDE_PROPERTY_REGEX_test key && flag then hasExcludedProperties (recur v) = true
  else passes options (cp !! key) key = false.

(** The document [{"editor.fontSize": 12, "security.trust": true,
    "[typescript]": {"editor.tabSize": 2, "security.trust": false}}]. *)
Definition document : gmap string value :=
  {[ "editor.fontSize" := JNum 12;
     "security.trust" := JBool true;
     "[typescript]" := JObj {[ "editor.tabSize" := JNum 2;
                               "security.trust" := JBool false ]} ]}.

(** [security.trust] is registered as a restricted setting of the
    application, the two editor settings with the scope of a resource. *)
Definition catalogue : gmap string ConfigurationRegistry.IConfigurationPropertySchema :=
  let schema scope restricted :=
    ConfigurationRegistry.mkSchema None None (Some scope) restricted None None None None
      None None None None in
  {[ "editor.fontSize" := schema ConfigurationRegistry.RESOURCE None;
     "editor.tabSize" := schema ConfigurationRegistry.RESOURCE None;
     "security.trust" := schema ConfigurationRegistry.APPLICATION (Some true) ]}.

(** Options that keep the settings of a resource. *)
Definition resourceScopes : ConfigurationParseOptions :=
  mkParseOptions (Some [ConfigurationRegistry.RESOURCE]) None None None.

(** Options that exclude [security.trust] and include it as well. *)
Definition trustExcluded : ConfigurationParseOptions :=
  mkParseOptions None None (Some ["security.trust"]) (Some ["security.trust"]).

(** Options that exclude the section key [[typescript]]. *)
Definition sectionExcluded : ConfigurationParseOptions :=
  mkParseOptions None None None (Some ["[typescript]"]).

(** Options that skip the restricted settings. *)
Definition restrictedSkipped : ConfigurationParseOptions :=
  mkParseOptions None (Some true) None None.

End Filtering.

(** * Properties *)

(** ** Value trees and the merge of contents *)

Section MergeContents.

Import ConfigurationModel configuration.

Lemma split_not_nil sep s : split sep s ≠ [].
Proof.
  destruct s as [|c rest]; simpl; [done|].
  destruct (Ascii.eqb c sep); [done|].
  by destruct (split sep rest).
Qed.

Lemma mergeProperty_not_object source target :
  types.isObject (Some target) = false → mergeProperty source target = target.
Proof. by destruct source, target. Qed.

Lemma mergeProperty_source_not_object source target :
  types.isObject (Some source) = false → mergeProperty source target = target.
Proof. by destruct source. Qed.

Lemma mergeProperty_objects so to :
  mergeProperty (JObj so) (JObj to) = JObj (mergeContents so to).
Proof. done. Qed.

Lemma lookup_mergeContents source target key :
  mergeContents source target !! key
  = match source !! key, target !! key with
    | Some s, Some t => Some (mergeProperty s t)
    | Some s, None => Some s
    | None, t => t
    end.
Proof.
  unfold mergeContents. rewrite lookup_union_with.
  by destruct (source !! key), (target !! key).
Qed.


(** A path the target defines with something that is not an object reads the
    same after the merge, whatever the source held. *)
Lemma accessSetting_merge_defined path : ∀ source target v,
  path ≠ [] →
  accessSetting (JObj target) path = Some v →
  types.isObject (Some v) = false →
  accessSetting (JObj (mergeContents source target)) path = Some v.
Proof.
  induction path as [|component rest IH]; intros source target v Hne Hget Hv; [done|].
  simpl in *. rewrite lookup_mergeContents.
  destruct (target !! component) as [tv|] eqn:Ht; [|done].
  destruct (source !! component) as [sv|] eqn:Hs; [|done].
  destruct rest as [|next rest'].
  - simpl in *. injection Hget as ->. by rewrite mergeProperty_not_object.
  - destruct tv as [| | | | |to]; try done.
    destruct sv as [| | | | |so]; try done.
    rewrite mergeProperty_objects. by apply IH.
Qed.

(** A path the target neither defines nor shadows reads after the merge as it
    read in the source. *)
Lemma accessSetting_merge_undefined path : ∀ source target,
  path ≠ [] →
  accessSetting (JObj target) path = None →
  Layers.shadows target path = false →
  accessSetting (JObj (mergeContents source target)) path
  = accessSetting (JObj source) path.
Proof.
  induction path as [|component rest IH]; intros source target Hne Hget Hsh; [done|].
  simpl in Hget |- *. rewrite lookup_mergeContents.
  destruct (target !! component) as [tv|] eqn:Ht.
  2:{ by destruct (source !! component). }
  destruct rest as [|next rest'].
  { simpl in Hget. done. }
  assert (∃ to, tv = JObj to) as [to ->].
  { simpl in Hsh. rewrite Ht in Hsh. destruct tv; try done. by eexists. }
  assert (Layers.shadows to (next :: rest') = false) as Hsh'.
  { simpl in Hsh. rewrite Ht in Hsh. done. }
  destruct (source !! component) as [sv|] eqn:Hs; [|done].
  destruct sv as [| | | | |so];
    try (rewrite mergeProperty_source_not_object by done; by rewrite Hget).
  rewrite mergeProperty_objects. by apply IH.
Qed.

Lemma isEmpty_contents (m : ConfigurationModel.t) :
  isEmpty m = true → contents m = ∅.
Proof.
  unfold isEmpty. intros H.
  apply andb_prop in H as [H _]. apply andb_prop in H as [_ H].
  apply Nat.eqb_eq in H. by apply map_size_empty_iff.
Qed.

Lemma accessSetting_empty path : path ≠ [] → accessSetting (JObj ∅) path = None.
Proof. destruct path; [done|]. intros _. simpl. by rewrite lookup_empty. Qed.

Lemma is_scalar_not_object v : Layers.is_scalar v = true → types.isObject (Some v) = false.
Proof. by destruct v. Qed.

(** The effect of one merged layer on the value of a key. *)
Lemma getValue_mergeOne acc other k :
  Layers.scalarIfDefined k other = true →
  Layers.shadowsKey k other = false →
  getValue (mergeOne acc other) (Some k)
  = match getValue other (Some k) with
    | Some v => Some v
    | None => getValue acc (Some k)
    end.
Proof.
  unfold Layers.scalarIfDefined, Layers.shadowsKey, getValue, mergeOne.
  destruct (nonempty k) eqn:Hk; [|done].
  unfold getConfigurationValue. intros Hscalar Hshadow.
  pose proof (split_not_nil "."%char k) as Hne.
  destruct (isEmpty other) eqn:Hempty.
  - rewrite (isEmpty_contents _ Hempty). by rewrite accessSetting_empty.
  - simpl. destruct (accessSetting (JObj (contents other)) (split "." k)) as [v|] eqn:Hget.
    + apply accessSetting_merge_defined; [done..|]. by apply is_scalar_not_object.
    + by apply accessSetting_merge_undefined.
Qed.

End MergeContents.

(** ** Precedence of merged layers *)

Section MergePrecedence.

Import ConfigurationModel.

Lemma getValue_foldl_mergeOne k others : ∀ acc found,
  forallb (Layers.scalarIfDefined k) others = true →
  forallb (fun layer => negb (Layers.shadowsKey k layer)) others = true →
  getValue acc (Some k) = found →
  getValue (foldl mergeOne acc others) (Some k)
  = foldl (fun found layer =>
             match getValue layer (Some k) with
             | Some v => Some v
             | None => found
             end) found others.
Proof.
  induction others as [|other rest IH]; intros acc found Hscalar Hshadow Hacc; [done|].
  simpl in Hscalar, Hshadow |- *.
  apply andb_prop in Hscalar as [Hs1 Hs2]. apply andb_prop in Hshadow as [Hh1 Hh2].
  apply negb_true_iff in Hh1.
  apply IH; [done..|]. rewrite getValue_mergeOne by done. by rewrite Hacc.
Qed.

(** C1, amended: for layers merged in priority order and a key whose value is
    a scalar in each layer that defines it, provided no merged-in layer holds a
    value that is not an object at a proper prefix of the key, [getValue] on the
    merged model is the value of the key in the highest-priority layer that
    defines it. *)
Theorem merge_highest_priority_wins this others k :
  forallb (Layers.scalarIfDefined k) (this :: others) = true →
  forallb (fun layer => negb (Layers.shadowsKey k layer)) others = true →
  getValue (merge this others) (Some k) = Layers.highestDefinition (this :: others) k.
Proof.
  intros Hscalar Hshadow. simpl in Hscalar. apply andb_prop in Hscalar as [_ Hscalar].
  unfold merge, Layers.highestDefinition. simpl foldl at 2.
  apply getValue_foldl_mergeOne; [done..|].
  unfold objects.deepClone, getValue, contents. simpl.
  by destruct (nonempty k), (configuration.getConfigurationValue (_contents this) k).
Qed.

(** C1 at three layers of which the second defines the key last. *)
Lemma merge_highest_priority_wins_witness :
  getValue (merge Layers.nested_one [Layers.nested_two; Layers.other_key]) (Some "a.b")
  = Layers.highestDefinition [Layers.nested_one; Layers.nested_two; Layers.other_key] "a.b".
Proof.
  apply (merge_highest_priority_wins Layers.nested_one
           [Layers.nested_two; Layers.other_key] "a.b"); reflexivity.
Defined.

(** C1 as stated fails: the layer [{a: {b: 1}}] defines [a.b] with a scalar,
    the later layer [{a: 5}] does not define it, and the merged model does not
    resolve [a.b] at all. *)
Lemma merge_scalar_shadows_nested_key :
  forallb (Layers.scalarIfDefined "a.b") [Layers.nested_one; Layers.flat_five] = true
  ∧ Layers.highestDefinition [Layers.nested_one; Layers.flat_five] "a.b" = Some (JNum 1)
  ∧ getValue (merge Layers.nested_one [Layers.flat_five]) (Some "a.b") = None.
Proof. repeat split; reflexivity. Qed.

End MergePrecedence.

(** ** Projection onto an override identifier *)

Section OverrideProjection.

Import ConfigurationModel Scenarios.

(** The example of the spec: base [{fontSize: 12}] and a [typescript] section
    with [{fontSize: 14}]. *)
Lemma override_fontSize_example :
  let base := ConfigurationModel.mk {[ "fontSize" := JNum 12 ]} ["fontSize"]
                [IOverrides.mk ["typescript"] ["fontSize"] {[ "fontSize" := JNum 14 ]}] in
  (∃ m, override base "typescript" = Returned m
        ∧ getValue m (Some "fontSize") = Some (JNum 14))
  ∧ (∃ m, override base "python" = Returned m
          ∧ getValue m (Some "fontSize") = Some (JNum 12)).
Proof. split; eexists; split; reflexivity. Qed.

(** An identifier that matches no section gives the model itself. *)
Lemma override_without_section this identifier :
  getContentsForOverrideIdentifer this identifier = None →
  override this identifier = Returned this.
Proof. unfold override, createOverrideConfigurationModel. by intros ->. Qed.

(** C2 on the code: the section [[typescript]] defines [enabled] as [false] and
    the base defines it as [true]; the projection keeps the base value, because
    the loop tests the section's value for truthiness.  A truthy value of the
    same section, [fontSize], is taken. *)
Theorem override_drops_falsy_section_value :
  getOverrideValue withTypescriptSection (Some "enabled") "typescript" = Some (JBool false)
  ∧ ∃ m, override withTypescriptSection "typescript" = Returned m
         ∧ getValue m (Some "enabled") = Some (JBool true)
         ∧ getValue m (Some "fontSize") = Some (JNum 14).
Proof. split; [reflexivity|]. eexists. repeat split; reflexivity. Qed.

(** What the projection holds under each top-level key, when it returns. *)
Lemma override_contents this identifier overrideContents m' :
  getContentsForOverrideIdentifer this identifier = Some overrideContents →
  size overrideContents ≠ 0 →
  override this identifier = Returned m' →
  keys m' = keys this
  ∧ overrides m' = overrides this
  ∧ ∀ key,
      is_Some (contents this !! key) ∨ is_Some (overrideContents !! key) →
      overrideProperty (contents this !! key) (overrideContents !! key)
      = Returned (contents m' !! key).
Proof.
  intros Hsection Hsize. unfold override, createOverrideConfigurationModel.
  rewrite Hsection.
  destruct (Nat.eqb (size overrideContents) 0) eqn:Hzero;
    [by apply Nat.eqb_eq in Hzero|].
  destruct (bool_decide (map_Exists _ _)) eqn:Hthrown; [done|].
  destruct (bool_decide (map_Exists (λ _ r, is_not_a_value r = true) _)) eqn:Hnot; [done|].
  intros [= <-]. split; [done|]. split; [done|].
  intros key Hkey. unfold contents in *. cbn [_contents].
  rewrite lookup_omap, lookup_merge.
  apply bool_decide_eq_false_1 in Hthrown, Hnot.
  assert (diag_None (λ c o, Some (overrideProperty c o))
                    (_contents this !! key) (overrideContents !! key)
          = Some (overrideProperty (_contents this !! key) (overrideContents !! key)))
    as Hlookup.
  { destruct Hkey as [[c Hc]|[o Ho]]; rewrite ?Hc, ?Ho;
      [by destruct (overrideContents !! key)|by destruct (_contents this !! key)]. }
  rewrite Hlookup.
  destruct (overrideProperty (_contents this !! key) (overrideContents !! key))
    as [x|e|] eqn:Hproperty; [done| |].
  - exfalso. apply Hthrown. exists key, (Thrown e). split; [|done].
    by rewrite lookup_merge, Hlookup.
  - exfalso. apply Hnot. exists key, NotAValue. split; [|done].
    by rewrite lookup_merge, Hlookup.
Qed.

(** A key the section does not define keeps its base value; a truthy value of
    the section that [typeof] does not call an object is taken as it is; two
    objects are merged, the section winning leaf by leaf. *)
Lemma override_top_level_values this identifier overrideContents m' key :
  getContentsForOverrideIdentifer this identifier = Some overrideContents →
  size overrideContents ≠ 0 →
  override this identifier = Returned m' →
  (overrideContents !! key = None → contents m' !! key = contents this !! key)
  ∧ (∀ o, overrideContents !! key = Some o → truthy (Some o) = true →
          is_TObject (typeof (Some o)) = false → contents m' !! key = Some o)
  ∧ (∀ b o, contents this !! key = Some (JObj b) →
            overrideContents !! key = Some (JObj o) →
            contents m' !! key = Some (JObj (mergeContents b o))).
Proof.
  intros Hsection Hsize Hoverride.
  destruct (override_contents _ _ _ _ Hsection Hsize Hoverride) as (_ & _ & Hkeys).
  split; [|split].
  - intros Hnone. destruct (contents this !! key) as [c|] eqn:Hc.
    + specialize (Hkeys key). rewrite Hc, Hnone in Hkeys.
      assert (Returned (Some c) = Returned (contents m' !! key)) as [= <-]; [|done].
      apply Hkeys. left. by eexists.
    + revert Hoverride. unfold override, createOverrideConfigurationModel.
      rewrite Hsection.
      destruct (Nat.eqb (size overrideContents) 0); [by intros [= <-]|].
      repeat destruct (bool_decide _); try done. intros [= <-].
      unfold contents in *. cbn [_contents]. rewrite lookup_omap, lookup_merge.
      by rewrite Hc, Hnone.
  - intros o Ho Htruthy Htype. specialize (Hkeys key). rewrite Ho in Hkeys.
    assert (Returned (Some o) = Returned (contents m' !! key)) as [= <-]; [|done].
    rewrite <- Hkeys by (right; by eexists).
    unfold overrideProperty. rewrite Htruthy.
    destruct (contents this !! key); [|done].
    simpl in Htype |- *. rewrite Htype. by rewrite andb_false_r.
  - intros b o Hb Ho. specialize (Hkeys key). rewrite Hb, Ho in Hkeys.
    assert (Returned (Some (JObj (mergeContents b o))) = Returned (contents m' !! key))
      as [= <-]; [|done].
    apply Hkeys. left. by eexists.
Qed.

(** The projection does not always complete: a base value [null] passes the
    [typeof] test, and merging an object into it evaluates [key in null]. *)
Lemma override_null_base_throws :
  ConfigurationModel.override Scenarios.nullBase "typescript" = Thrown TypeError.
Proof. by vm_compute. Qed.

End OverrideProjection.

(** ** The change event *)

Section ChangeEvent.

Import ConfigurationChangeEvent Affects.

(** The examples of the spec: a change of [editor.fontSize] affects [editor] and
    [editor.fontSize] and does not affect [editorX]. *)
Lemma affectsConfiguration_fontSize_example :
  (affectsConfiguration fontSizeChange "editor" None).1 = Returned true
  ∧ (affectsConfiguration fontSizeChange "editor.fontSize" None).1 = Returned true
  ∧ (affectsConfiguration fontSizeChange "editorX" None).1 = Returned false.
Proof. repeat split; reflexivity. Qed.

(** C4 on the code: with the affected keys [editorX] and [editor.fontSize] the
    second key starts with [editor.], yet the section [editor] is reported as
    not affected: only the first place where the marker and the section occur
    is examined, and there the next character is [X]. *)
Theorem affectsConfiguration_first_occurrence_only :
  someKeyUnderSection twoEditorKeys "editor" = true
  ∧ (affectsConfiguration twoEditorKeys "editor" None).1 = Returned false.
Proof. split; reflexivity. Qed.

End ChangeEvent.

(** ** Reads of the consolidator *)

Section Reads.

Import Configuration Consolidation Triples.

Lemma layers_userOf c c' : layers c' = layers c → userOf c' = userOf c.
Proof.
  destruct c, c'. unfold layers, userOf. simpl.
  by intros [= -> -> -> -> -> -> -> -> ->].
Qed.

Lemma layers_workspaceOf c c' : layers c' = layers c → workspaceOf c' = workspaceOf c.
Proof.
  intros H. unfold workspaceOf. rewrite (layers_userOf _ _ H).
  destruct c, c'. unfold layers in H. simpl in *.
  by injection H as -> -> -> -> -> -> -> -> ->.
Qed.

Lemma layers_folderOf c c' folder :
  layers c' = layers c → folderOf c' folder = folderOf c folder.
Proof.
  intros H. unfold folderOf. rewrite (layers_workspaceOf _ _ H).
  destruct c, c'. unfold layers in H. simpl in *.
  by injection H as -> -> -> -> -> -> -> -> ->.
Qed.


Lemma layers_policy c c' :
  layers c' = layers c → _policyConfiguration c' = _policyConfiguration c.
Proof. destruct c, c'. unfold layers. simpl. by intros [= -> -> -> -> -> -> -> -> ->]. Qed.

Lemma bind_read {A B} (field : t → A) (k : A → M B) c :
  bind (read field) k c = k (field c) c.
Proof. done. Qed.

Lemma bind_write {B} (update : t → t) (k : unit → M B) c :
  bind (write update) k c = k tt (update c).
Proof. done. Qed.

Lemma bind_returned {A B} (m : M A) (k : A → M B) c a c' :
  m c = (Returned a, c') → bind m k c = k a c'.
Proof. unfold bind. by intros ->. Qed.

Lemma layers_fields c c0 :
  layers c = layers c0 →
  _defaultConfiguration c = _defaultConfiguration c0
  ∧ _policyConfiguration c = _policyConfiguration c0
  ∧ _applicationConfiguration c = _applicationConfiguration c0
  ∧ _localUserConfiguration c = _localUserConfiguration c0
  ∧ _remoteUserConfiguration c = _remoteUserConfiguration c0
  ∧ _workspaceConfiguration c = _workspaceConfiguration c0
  ∧ _folderConfigurations c = _folderConfigurations c0
  ∧ _memoryConfiguration c = _memoryConfiguration c0
  ∧ _memoryConfigurationByResource c = _memoryConfigurationByResource c0.
Proof.
  destruct c, c0. unfold layers. simpl.
  by intros [= -> -> -> -> -> -> -> -> ->].
Qed.

Lemma settled_from (φ : Prop) c0 c :
  layers c = layers c0 →
  (φ → ∀ m, _userConfiguration c = Some m → m = userOf c0) →
  (φ → ∀ m, _workspaceConsolidatedConfiguration c = Some m → m = workspaceOf c0) →
  (φ → ∀ folder m, _foldersConsolidatedConfigurations c !! folder = Some m →
                   m = folderOf c0 folder) →
  settled φ c0 c.
Proof.
  intros Hl Hu Hw Hf. split; [done|]. intros Hφ. split.
  - intros m Hm. rewrite (layers_userOf _ _ Hl). by apply Hu.
  - intros m Hm. rewrite (layers_workspaceOf _ _ Hl). by apply Hw.
  - intros folder m Hm. rewrite (layers_folderOf _ _ _ Hl). by apply Hf.
Qed.

Lemma settled_caches (φ : Prop) c0 c :
  settled φ c0 c →
  (φ → ∀ m, _userConfiguration c = Some m → m = userOf c0)
  ∧ (φ → ∀ m, _workspaceConsolidatedConfiguration c = Some m → m = workspaceOf c0)
  ∧ (φ → ∀ folder m, _foldersConsolidatedConfigurations c !! folder = Some m →
                     m = folderOf c0 folder).
Proof.
  intros [Hl Hc]. repeat split; intros Hφ; destruct (Hc Hφ) as [Hu Hw Hf].
  - intros m Hm. rewrite <- (layers_userOf _ _ Hl). by apply Hu.
  - intros m Hm. rewrite <- (layers_workspaceOf _ _ Hl). by apply Hw.
  - intros folder m Hm. rewrite <- (layers_folderOf _ _ _ Hl). by apply Hf.
Qed.

Lemma userConfiguration_settled (φ : Prop) c0 :
  hoare (settled φ c0) userConfiguration
        (fun m c => (φ → m = userOf c0) ∧ settled φ c0 c).
Proof.
  intros c Hs. pose proof Hs as [Hl _].
  destruct (settled_caches _ _ _ Hs) as (Hu & Hw & Hf).
  unfold userConfiguration. rewrite bind_read.
  destruct (_userConfiguration c) as [m|] eqn:Hcache.
  - exists m, c. split; [done|]. split; [|done]. intros Hφ. by apply Hu.
  - rewrite !bind_read, bind_write. unfold ret.
    eexists _, _. split; [reflexivity|].
    split; [intros _; symmetry; by apply layers_userOf|].
    apply settled_from; [|simpl..].
    + rewrite <- Hl. by destruct c.
    + intros _ m [= <-]. by apply layers_userOf.
    + done.
    + done.
Qed.

Lemma getWorkspaceConsolidatedConfiguration_settled (φ : Prop) c0 :
  hoare (settled φ c0) getWorkspaceConsolidatedConfiguration
        (fun m c => (φ → m = workspaceOf c0) ∧ settled φ c0 c).
Proof.
  intros c Hs. unfold getWorkspaceConsolidatedConfiguration, applicationConfiguration.
  rewrite bind_read.
  destruct (_workspaceConsolidatedConfiguration c) as [m|] eqn:Hcache.
  { exists m, c. split; [done|]. split; [|done].
    destruct (settled_caches _ _ _ Hs) as (_ & Hw & _). intros Hφ. by apply Hw. }
  rewrite !bind_read.
  destruct (userConfiguration_settled φ c0 c Hs) as (u & c1 & E & Hu1 & Hs1).
  rewrite (bind_returned _ _ _ _ _ E). rewrite !bind_read, bind_write. unfold ret.
  eexists _, _. split; [reflexivity|].
  pose proof Hs as [Hl _]. pose proof Hs1 as [Hl1 _].
  destruct (layers_fields _ _ Hl) as (-> & _ & -> & _ & _ & _ & _ & _ & _).
  destruct (layers_fields _ _ Hl1) as (_ & _ & _ & _ & _ & -> & _ & -> & _).
  assert (φ → ConfigurationModel.merge (_defaultConfiguration c0)
                [_applicationConfiguration c0; u; _workspaceConfiguration c0;
                 _memoryConfiguration c0] = workspaceOf c0) as Hvalue.
  { intros Hφ. by rewrite (Hu1 Hφ). }
  split; [done|].
  destruct (settled_caches _ _ _ Hs1) as (Hu & Hw & Hf).
  apply settled_from; [|simpl..].
  - rewrite <- Hl1. by destruct c1.
  - done.
  - intros Hφ m [= <-]. by apply Hvalue.
  - done.
Qed.

Lemma getFolderConsolidatedConfiguration_settled (φ : Prop) c0 folder :
  hoare (settled φ c0) (getFolderConsolidatedConfiguration folder)
        (fun m c => (φ → m = folderOf c0 folder) ∧ settled φ c0 c).
Proof.
  intros c Hs. unfold getFolderConsolidatedConfiguration.
  rewrite bind_read.
  destruct (_foldersConsolidatedConfigurations c !! folder) as [m|] eqn:Hcache.
  { exists m, c. split; [done|]. split; [|done].
    destruct (settled_caches _ _ _ Hs) as (_ & _ & Hf). intros Hφ. by apply Hf. }
  destruct (getWorkspaceConsolidatedConfiguration_settled φ c0 c Hs)
    as (w & c1 & E & Hw1 & Hs1).
  rewrite (bind_returned _ _ _ _ _ E). rewrite bind_read.
  pose proof Hs1 as [Hl1 _].
  destruct (layers_fields _ _ Hl1) as (_ & _ & _ & _ & _ & _ & -> & _ & _).
  unfold folderOf.
  destruct (_folderConfigurations c0 !! folder) as [fc|] eqn:Hfc.
  - rewrite bind_read, bind_write. unfold ret.
    eexists _, _. split; [reflexivity|].
    split; [intros Hφ; by rewrite (Hw1 Hφ)|].
    destruct (settled_caches _ _ _ Hs1) as (Hu & Hw & Hf).
    apply settled_from; [|simpl..].
    + rewrite <- Hl1. by destruct c1.
    + done.
    + done.
    + intros Hφ folder' m. destruct (decide (folder = folder')) as [<-|Hne].
      * rewrite lookup_insert_eq. intros [= <-]. unfold folderOf.
        by rewrite Hfc, (Hw1 Hφ).
      * rewrite lookup_insert_ne by done. by apply Hf.
  - by exists w, c1.
Qed.

Lemma getConsolidatedConfigurationModelForResource_settled (φ : Prop) c0
    overrides workspace :
  hoare (settled φ c0) (getConsolidatedConfigurationModelForResource overrides workspace)
        (fun m c => (φ → m = resourceOf c0 overrides workspace) ∧ settled φ c0 c).
Proof.
  intros c Hs. unfold getConsolidatedConfigurationModelForResource, resourceOf.
  destruct (getWorkspaceConsolidatedConfiguration_settled φ c0 c Hs)
    as (w & c1 & E & Hw1 & Hs1).
  rewrite (bind_returned _ _ _ _ _ E).
  destruct workspace as [ws|]; [|by exists w, c1].
  destruct (resource overrides) as [r|]; [|by exists w, c1].
  assert (∃ m c2, (match getFolder ws r with
                   | Some root => getFolderConsolidatedConfiguration root
                   | None => ret w
                   end) c1 = (Returned m, c2)
                  ∧ (φ → m = match getFolder ws r with
                             | Some root => folderOf c0 root
                             | None => workspaceOf c0
                             end)
                  ∧ settled φ c0 c2) as (m & c2 & E2 & Hm & Hs2).
  { destruct (getFolder ws r) as [root|].
    - apply (getFolderConsolidatedConfiguration_settled φ c0 root c1 Hs1).
    - by exists w, c1. }
  rewrite (bind_returned _ _ _ _ _ E2). rewrite bind_read.
  pose proof Hs2 as [Hl2 _].
  destruct (layers_fields _ _ Hl2) as (_ & _ & _ & _ & _ & _ & _ & _ & ->).
  destruct (_memoryConfigurationByResource c0 !! r);
    eexists _, c2; (split; [reflexivity|]); (split; [|done]);
    intros Hφ; by rewrite (Hm Hφ).
Qed.

End Reads.

(** ** Values resolved by the consolidator *)

Section Resolution.

Import Configuration Consolidation Triples.

Lemma projected_settled (φ : Prop) c0 overrides workspace c :
  settled φ c0 c →
  ∃ r c', projected overrides workspace c = (r, c')
          ∧ settled φ c0 c'
          ∧ (φ → r = match truthyIdentifier (overrideIdentifier overrides) with
                     | Some identifier =>
                         ConfigurationModel.override
                           (resourceOf c0 overrides workspace) identifier
                     | None => Returned (resourceOf c0 overrides workspace)
                     end).
Proof.
  intros Hs. unfold projected.
  destruct (getConsolidatedConfigurationModelForResource_settled
              φ c0 overrides workspace c Hs) as (m & c1 & E & Hm & Hs1).
  rewrite (bind_returned _ _ _ _ _ E).
  destruct (truthyIdentifier (overrideIdentifier overrides)) as [identifier|].
  - eexists _, c1. split; [reflexivity|]. split; [done|].
    intros Hφ. by rewrite (Hm Hφ).
  - eexists _, c1. split; [reflexivity|]. split; [done|].
    intros Hφ. by rewrite (Hm Hφ).
Qed.

Lemma projected_without_identifier overrides workspace c :
  truthyIdentifier (overrideIdentifier overrides) = None →
  ∃ m c', projected overrides workspace c = (Returned m, c').
Proof.
  intros Hid. unfold projected.
  destruct (getConsolidatedConfigurationModelForResource_settled
              False c overrides workspace c) as (m & c1 & E & _ & _).
  { by split. }
  rewrite (bind_returned _ _ _ _ _ E). rewrite Hid. by exists m, c1.
Qed.

(** [getConsolidatedConfigurationModel] is the projection followed by the merge
    of the policy layer. *)
Lemma getConsolidatedConfigurationModel_projected section overrides workspace c :
  getConsolidatedConfigurationModel section overrides workspace c
  = match projected overrides workspace c with
    | (Returned m, c') => (Returned (withPolicy (_policyConfiguration c') section m), c')
    | (Thrown e, c') => (Thrown e, c')
    | (NotAValue, c') => (NotAValue, c')
    end.
Proof.
  unfold getConsolidatedConfigurationModel, projected, withPolicy, bind.
  destruct (getConsolidatedConfigurationModelForResource overrides workspace c)
    as [[m| |] c1]; try done.
  destruct (truthyIdentifier (overrideIdentifier overrides)) as [identifier|]; simpl.
  - unfold lift. destruct (ConfigurationModel.override m identifier); try done.
    unfold read. simpl.
    by destruct (negb _ && _).
  - unfold read, ret. simpl. by destruct (negb _ && _).
Qed.

Lemma getValue_projected section overrides workspace c :
  (getValue section overrides workspace c).1
  = outcome_bind (projected overrides workspace c).1
      (fun m => Returned
                  (ConfigurationModel.getValue
                     (withPolicy (_policyConfiguration c) section m) section)).
Proof.
  unfold getValue, bind. rewrite getConsolidatedConfigurationModel_projected.
  destruct (projected_settled False c overrides workspace c) as (r & c' & E & [Hl _] & _).
  { by split. }
  rewrite E. rewrite (layers_policy _ _ Hl). by destruct r.
Qed.

(** On coherent caches [getValue] returns what the layers determine and leaves
    the caches coherent. *)
Lemma getValue_coherent section overrides workspace c :
  coherent c →
  (getValue section overrides workspace c).1 = resolve c section overrides workspace
  ∧ coherent (getValue section overrides workspace c).2
  ∧ layers (getValue section overrides workspace c).2 = layers c.
Proof.
  intros Hc. split.
  - rewrite getValue_projected. unfold resolve.
    destruct (projected_settled True c overrides workspace c) as (r & c' & E & _ & Hr).
    { by split. }
    rewrite E. simpl. by rewrite (Hr I).
  - unfold getValue, bind. rewrite getConsolidatedConfigurationModel_projected.
    destruct (projected_settled True c overrides workspace c) as (r & c' & E & [Hl Hc'] & _).
    { by split. }
    rewrite E. destruct r; simpl; auto.
Qed.

End Resolution.

(** ** Policy precedence *)

Section PolicyPrecedence.

Import Configuration Consolidation.

Lemma getValue_defined_not_empty (m : ConfigurationModel.t) k v :
  ConfigurationModel.getValue m (Some k) = Some v →
  types.isObject (Some v) = false →
  nonempty k = true ∧ ConfigurationModel.isEmpty m = false.
Proof.
  unfold ConfigurationModel.getValue. destruct (nonempty k) eqn:Hk.
  2:{ intros [= <-]. done. }
  intros Hget _. split; [done|].
  destruct (ConfigurationModel.isEmpty m) eqn:He; [|done].
  rewrite (isEmpty_contents _ He) in Hget.
  unfold configuration.getConfigurationValue in Hget.
  rewrite accessSetting_empty in Hget; [done|]. apply split_not_nil.
Qed.

Lemma getValue_merge_defined m other k v :
  ConfigurationModel.getValue other (Some k) = Some v →
  types.isObject (Some v) = false →
  ConfigurationModel.getValue (ConfigurationModel.merge m [other]) (Some k) = Some v.
Proof.
  intros Hget Hv. destruct (getValue_defined_not_empty _ _ _ Hget Hv) as [Hk He].
  unfold ConfigurationModel.merge. simpl. unfold ConfigurationModel.mergeOne. rewrite He.
  unfold ConfigurationModel.getValue in *. rewrite Hk in *. simpl.
  apply accessSetting_merge_defined; [apply split_not_nil|done..].
Qed.

Lemma getValue_withPolicy_defined policyConfiguration k v m :
  ConfigurationModel.getValue policyConfiguration (Some k) = Some v →
  types.isObject (Some v) = false →
  ConfigurationModel.getValue (withPolicy policyConfiguration (Some k) m) (Some k)
  = Some v.
Proof.
  intros Hget Hv.
  destruct (getValue_defined_not_empty _ _ _ Hget Hv) as [Hk He].
  unfold withPolicy. rewrite He, Hget. simpl.
  rewrite ?bool_decide_eq_true_2 by eauto.
  by apply getValue_merge_defined.
Qed.

(** C3, amended: when the policy layer defines for key [k] a value that is not
    an object, and the projection onto the override identifier completes (it
    always does when no identifier is given), [getValue] returns the policy
    layer's value for [k], whatever the other layers define and whatever the
    resource, the identifier and the state of the caches. *)
Theorem policy_value_wins c k overrides workspace v m :
  ConfigurationModel.getValue (_policyConfiguration c) (Some k) = Some v →
  types.isObject (Some v) = false →
  (projected overrides workspace c).1 = Returned m →
  (getValue (Some k) overrides workspace c).1 = Returned (Some v).
Proof.
  intros Hget Hv Hm. rewrite getValue_projected, Hm. simpl. f_equal.
  by apply getValue_withPolicy_defined.
Qed.

(** C3 at a configuration whose layers all define [a.b], read for a resource
    in a folder and for a language with its own section. *)
Lemma policy_value_wins_witness :
  (getValue (Some "a.b") (mkOverrides (Some "typescript") (Some "file:///w/x.ts"))
            (Some Scenarios.oneFolder) Scenarios.policyScalar).1
  = Returned (Some (JNum 9)).
Proof.
  eapply (policy_value_wins Scenarios.policyScalar "a.b"
            (mkOverrides (Some "typescript") (Some "file:///w/x.ts"))
            (Some Scenarios.oneFolder) (JNum 9)).
  - reflexivity.
  - reflexivity.
  - vm_compute. reflexivity.
Defined.

(** Without an override identifier the projection always completes, so the
    policy value is returned outright. *)
Lemma policy_value_wins_without_identifier c k overrides workspace v :
  ConfigurationModel.getValue (_policyConfiguration c) (Some k) = Some v →
  types.isObject (Some v) = false →
  truthyIdentifier (overrideIdentifier overrides) = None →
  (getValue (Some k) overrides workspace c).1 = Returned (Some v).
Proof.
  intros Hget Hv Hid.
  destruct (projected_without_identifier overrides workspace c Hid) as (m & c' & E).
  rewrite getValue_projected, E. simpl. f_equal.
  by apply getValue_withPolicy_defined.
Qed.

(** C3 as stated fails: the policy layer defines [a] as [{x: 1}], the user
    layer defines it as [{y: 2}], and [getValue] returns the merge of the two,
    not the policy layer's value. *)
Lemma policy_object_is_merged :
  ConfigurationModel.getValue (_policyConfiguration Scenarios.policyObject) (Some "a")
  = Some (JObj {[ "x" := JNum 1 ]})
  ∧ (getValue (Some "a") Scenarios.noOverrides None Scenarios.policyObject).1
    = Returned (Some (JObj (<[ "y" := JNum 2 ]> {[ "x" := JNum 1 ]})))
  ∧ (getValue (Some "a") Scenarios.noOverrides None Scenarios.policyObject).1
    ≠ Returned (ConfigurationModel.getValue
                  (_policyConfiguration Scenarios.policyObject) (Some "a")).
Proof.
  split; [reflexivity|]. split; [reflexivity|].
  intros H. vm_compute in H. discriminate H.
Qed.

End PolicyPrecedence.

(** ** Reads without a workspace *)

Section WithoutWorkspace.

Import Configuration Memory.

(** C9: with a resource and no workspace, [getValue] does what it does without
    the resource, and neither the folder configurations nor the memory models
    held per resource have a say in what it returns; without a resource the
    memory models held per resource have no say either, whatever the
    workspace. *)
Theorem getValue_resource_needs_workspace c section identifier r :
  getValue section (mkOverrides identifier (Some r)) None c
  = getValue section (mkOverrides identifier None) None c
  ∧ (∀ folderConfigurations byResource,
       (getValue section (mkOverrides identifier (Some r)) None
          (set_folderConfigurations folderConfigurations
             (set_memoryConfigurationByResource byResource c))).1
       = (getValue section (mkOverrides identifier None) None c).1)
  ∧ (∀ workspace byResource,
       (getValue section (mkOverrides identifier None) workspace
          (set_memoryConfigurationByResource byResource c)).1
       = (getValue section (mkOverrides identifier None) workspace c).1).
Proof.
  split; [reflexivity|].
  split; [intros folderConfigurations byResource|intros [workspace|] byResource];
    unfold getValue, getConsolidatedConfigurationModel,
      getConsolidatedConfigurationModelForResource,
      getWorkspaceConsolidatedConfiguration, applicationConfiguration,
      userConfiguration, bind, read, write, ret, lift;
    destruct c as [d p a l rm w f m mr wc fc uc]; simpl;
    destruct wc as [wm|], uc as [um|]; simpl;
    destruct (truthyIdentifier identifier) as [i|]; simpl;
    repeat match goal with
           | |- context [ConfigurationModel.override ?x ?y] =>
               destruct (ConfigurationModel.override x y); simpl
           | |- context [negb ?x && ?y] => destruct (negb x && y); simpl
           end; reflexivity.
Qed.

End WithoutWorkspace.

(** ** Writes to the memory layer *)

Section MemoryWrites.

Import Configuration Consolidation Memory.

Lemma getWorkspaceConsolidatedConfiguration_rebuilt c :
  _workspaceConsolidatedConfiguration c = None →
  (getWorkspaceConsolidatedConfiguration c).1 = Returned (workspaceRebuilt c).
Proof.
  intros Hcache.
  unfold getWorkspaceConsolidatedConfiguration, applicationConfiguration,
    userConfiguration, workspaceRebuilt, userRead, userOf, bind, read, write, ret.
  rewrite Hcache. simpl. by destruct (_userConfiguration c).
Qed.

(** C5, amended: a write to the memory layer without a resource, once it has
    returned, leaves the cache of the workspace-level consolidated model empty,
    so that the next read of that model rebuilds it from the layers as they are
    then; a write with a resource leaves that cache as it was. *)
Theorem updateValue_workspace_cache c key v overrides :
  match resource overrides with
  | None =>
      (updateValue key v overrides c).1 = Returned tt →
      _workspaceConsolidatedConfiguration (updateValue key v overrides c).2 = None
      ∧ (getWorkspaceConsolidatedConfiguration (updateValue key v overrides c).2).1
        = Returned (workspaceRebuilt (updateValue key v overrides c).2)
  | Some _ =>
      _workspaceConsolidatedConfiguration (updateValue key v overrides c).2
      = _workspaceConsolidatedConfiguration c
  end.
Proof.
  destruct overrides as [identifier [r|]]; simpl.
  - unfold updateValue, bind, read, write, ret, lift. simpl.
    destruct (_memoryConfigurationByResource c !! r) as [m|]; simpl;
      destruct v as [v|]; simpl; try done;
      match goal with
      | |- context [ConfigurationModel.setValue ?m ?k ?x] =>
          destruct (ConfigurationModel.setValue m k x) as [[[]| |] m']; simpl; done
      end.
  - intros Hreturned.
    assert (_workspaceConsolidatedConfiguration
              (updateValue key v (mkOverrides identifier None) c).2 = None) as Hcache.
    { revert Hreturned. unfold updateValue, bind, read, write, ret, lift. simpl.
      destruct v as [v|]; simpl; [|done].
      destruct (ConfigurationModel.setValue (_memoryConfiguration c) key v)
        as [[[]| |] m']; simpl; done. }
    split; [done|]. by apply getWorkspaceConsolidatedConfiguration_rebuilt.
Qed.

(** C5 at a write without a resource and at a write with one. *)
Lemma updateValue_workspace_cache_witness :
  (_workspaceConsolidatedConfiguration globalWrite = None
   ∧ (getWorkspaceConsolidatedConfiguration globalWrite).1
     = Returned (workspaceRebuilt globalWrite))
  ∧ _workspaceConsolidatedConfiguration resourceWrite
    = _workspaceConsolidatedConfiguration folderRead.
Proof.
  split.
  - apply (updateValue_workspace_cache folderRead "a.b" (Some (JNum 8))
             Scenarios.noOverrides).
    reflexivity.
  - apply (updateValue_workspace_cache folderRead "a.b" (Some (JNum 8))
             (Scenarios.forResource "file:///w/x.ts")).
Defined.

(** C5 as stated fails.  After a read for a resource in a folder both caches
    are filled.  A write for a resource leaves the workspace cache filled.  A
    write without a resource leaves the folder cache filled, and the next read
    for the folder returns the value cached before the write, while the
    workspace-level read returns the value written. *)
Lemma updateValue_leaves_caches_filled :
  is_Some (_workspaceConsolidatedConfiguration folderRead)
  ∧ is_Some (_workspaceConsolidatedConfiguration resourceWrite)
  ∧ is_Some (_foldersConsolidatedConfigurations globalWrite !! "file:///w")
  ∧ (getValue (Some "a.b") (Scenarios.forResource "file:///w/x.ts")
              (Some Scenarios.oneFolder) globalWrite).1
    = Returned (Some (JNum 0))
  ∧ (getValue (Some "a.b") Scenarios.noOverrides (Some Scenarios.oneFolder)
              globalWrite).1
    = Returned (Some (JNum 8)).
Proof.
  split; [vm_compute; eauto|].
  split; [vm_compute; eauto|].
  split; [vm_compute; eauto|].
  split; reflexivity.
Qed.

End MemoryWrites.

(** ** Removal from the memory layer *)

Section MemoryRemoval.

Import Configuration Consolidation Memory.

Lemma indexOf_None (l : list string) x : arrays.indexOf l x = None ↔ x ∉ l.
Proof.
  induction l as [|y rest IH]; simpl.
  - split; [intros _; apply not_elem_of_nil|done].
  - destruct (decide (y = x)) as [->|Hne].
    + split; [done|]. intros H. exfalso. apply H. left.
    + rewrite not_elem_of_cons. destruct (arrays.indexOf rest x); simpl.
      * split; [done|]. intros [_ H]. by apply IH in H.
      * split; [|done]. intros _. split; [done|]. by apply IH.
Qed.

Lemma removeFromValueTreeAt_gone path : ∀ tree,
  path ≠ [] →
  configuration.accessSetting (JObj (configuration.removeFromValueTreeAt tree path)) path
  = None.
Proof.
  induction path as [|first rest IH]; intros tree Hne; [done|].
  destruct rest as [|next rest'].
  - simpl. by rewrite lookup_delete_eq.
  - change (configuration.removeFromValueTreeAt tree (first :: next :: rest'))
      with (match tree !! first with
            | Some (JObj o) =>
                let o' := configuration.removeFromValueTreeAt o (next :: rest') in
                if decide (size o' = 0) then delete first tree
                else <[first := JObj o']> tree
            | _ => tree
            end).
    destruct (tree !! first) as [[| | | | |o]|] eqn:Hfirst;
      try (simpl; by rewrite Hfirst).
    simpl. destruct (decide _).
    + simpl. by rewrite lookup_delete_eq.
    + simpl. rewrite lookup_insert_eq. by apply IH.
Qed.

Lemma getValue_removeValue (m : ConfigurationModel.t) key :
  key ∈ ConfigurationModel.keys m →
  nonempty key = true →
  ConfigurationModel.getValue (ConfigurationModel.removeValue m key) (Some key) = None.
Proof.
  intros Hin Hk. unfold ConfigurationModel.removeValue.
  destruct (arrays.indexOf (ConfigurationModel.keys m) key) eqn:Hidx.
  2:{ by apply indexOf_None in Hidx. }
  unfold ConfigurationModel.getValue. rewrite Hk. simpl.
  apply removeFromValueTreeAt_gone, split_not_nil.
Qed.

Lemma removeValue_not_listed (m : ConfigurationModel.t) key :
  key ∉ ConfigurationModel.keys m → ConfigurationModel.removeValue m key = m.
Proof.
  intros Hin. unfold ConfigurationModel.removeValue.
  by rewrite (proj2 (indexOf_None _ _) Hin).
Qed.

(** What a path reads after a merge depends on the source only through what
    the path read in the source. *)
Lemma accessSetting_merge_absent path : ∀ source target,
  configuration.accessSetting (JObj source) path = None →
  configuration.accessSetting (JObj (ConfigurationModel.mergeContents source target)) path
  = configuration.accessSetting (JObj target) path.
Proof.
  induction path as [|component rest IH]; intros source target Hs; [done|].
  simpl in Hs |- *. rewrite lookup_mergeContents.
  destruct (source !! component) as [sv|] eqn:Hsv; [|done].
  destruct (target !! component) as [tv|] eqn:Htv; [|done].
  destruct sv as [| | | | |so];
    try (rewrite mergeProperty_source_not_object by done; done).
  destruct tv as [| | | | |to]; try done.
  rewrite mergeProperty_objects. by apply IH.
Qed.

Lemma accessSetting_merge_congruence path : ∀ source1 source2 target,
  configuration.accessSetting (JObj source1) path
  = configuration.accessSetting (JObj source2) path →
  configuration.accessSetting (JObj (ConfigurationModel.mergeContents source1 target)) path
  = configuration.accessSetting (JObj (ConfigurationModel.mergeContents source2 target)) path.
Proof.
  induction path as [|component rest IH]; intros source1 source2 target Heq.
  { simpl in Heq. by injection Heq as ->. }
  destruct (configuration.accessSetting (JObj source1) (component :: rest)) eqn:H1.
  2:{ rewrite (accessSetting_merge_absent _ source1 target H1).
      by rewrite (accessSetting_merge_absent _ source2 target (eq_sym Heq)). }
  simpl in H1, Heq |- *. rewrite !lookup_mergeContents.
  destruct (source1 !! component) as [sv1|] eqn:Hs1; [|done].
  destruct (source2 !! component) as [sv2|] eqn:Hs2; [|done].
  destruct (target !! component) as [tv|] eqn:Htv; [|by rewrite H1].
  destruct rest as [|next rest'].
  { simpl in *. injection H1 as ->. by injection Heq as ->. }
  destruct tv as [| | | | |to];
    try (rewrite !mergeProperty_not_object by done; done).
  destruct sv1 as [| | | | |so1]; try done.
  destruct sv2 as [| | | | |so2]; try done.
  rewrite !mergeProperty_objects. apply IH. by rewrite H1.
Qed.

Lemma getValue_mergeOne_congruence acc1 acc2 other section :
  ConfigurationModel.getValue acc1 section = ConfigurationModel.getValue acc2 section →
  ConfigurationModel.getValue (ConfigurationModel.mergeOne acc1 other) section
  = ConfigurationModel.getValue (ConfigurationModel.mergeOne acc2 other) section.
Proof.
  unfold ConfigurationModel.mergeOne.
  destruct (ConfigurationModel.isEmpty other); [done|].
  unfold ConfigurationModel.getValue, ConfigurationModel.contents. simpl.
  assert (_contents_eq : ConfigurationModel._contents acc1 = ConfigurationModel._contents acc2 →
          Some (JObj (ConfigurationModel.mergeContents (ConfigurationModel._contents acc1)
                        (ConfigurationModel._contents other)))
          = Some (JObj (ConfigurationModel.mergeContents (ConfigurationModel._contents acc2)
                          (ConfigurationModel._contents other)))).
  { by intros ->. }
  destruct section as [s|]; [|intros [= H]; by apply _contents_eq].
  destruct (nonempty s); [|intros [= H]; by apply _contents_eq].
  apply accessSetting_merge_congruence.
Qed.

Lemma getValue_withPolicy_congruence policyConfiguration section m1 m2 :
  ConfigurationModel.getValue m1 section = ConfigurationModel.getValue m2 section →
  ConfigurationModel.getValue (withPolicy policyConfiguration section m1) section
  = ConfigurationModel.getValue (withPolicy policyConfiguration section m2) section.
Proof.
  intros Heq. unfold withPolicy. destruct (negb _ && _); [|done].
  unfold ConfigurationModel.merge. simpl. by apply getValue_mergeOne_congruence.
Qed.

Lemma projected_workspace_level overrides workspace c :
  resource overrides = None →
  truthyIdentifier (overrideIdentifier overrides) = None →
  _workspaceConsolidatedConfiguration c = None →
  (projected overrides workspace c).1 = Returned (workspaceRebuilt c).
Proof.
  intros Hr Hid Hcache.
  pose proof (getWorkspaceConsolidatedConfiguration_rebuilt c Hcache) as Hw.
  unfold projected, getConsolidatedConfigurationModelForResource, bind.
  destruct (getWorkspaceConsolidatedConfiguration c) as [r c1]. simpl in Hw. subst r.
  rewrite Hr, Hid. by destruct workspace.
Qed.

Lemma updateValue_undefined c key overrides :
  (updateValue key None overrides c).1 = Returned tt
  ∧ targeted (updateValue key None overrides c).2 overrides
    = ConfigurationModel.removeValue (targeted c overrides) key.
Proof.
  unfold updateValue, targeted, bind, read, write, ret, lift.
  destruct overrides as [identifier [r|]]; simpl.
  - destruct (_memoryConfigurationByResource c !! r) as [m|]; simpl;
      by rewrite ?lookup_insert_eq.
  - done.
Qed.

Lemma updateValue_defined c key v overrides :
  targeted (updateValue key (Some v) overrides c).2 overrides
  = (ConfigurationModel.setValue (targeted c overrides) key v).2.
Proof.
  unfold updateValue, targeted, bind, read, write, ret, lift.
  destruct overrides as [identifier [r|]]; simpl.
  - destruct (_memoryConfigurationByResource c !! r) as [m|]; simpl;
      match goal with
      | |- context [ConfigurationModel.setValue ?m ?k ?x] =>
          destruct (ConfigurationModel.setValue m k x) as [[[]| |] m']; simpl;
          by rewrite ?lookup_insert_eq
      end.
  - destruct (ConfigurationModel.setValue (_memoryConfiguration c) key v)
      as [[[]| |] m']; by simpl.
Qed.

(** After the removal from the global memory model, by a write with or without
    an override identifier, a workspace-level read gives what the configuration
    without that model gives. *)
Lemma getValue_after_global_removal c key identifier workspace :
  key ∈ ConfigurationModel.keys (_memoryConfiguration c) →
  nonempty key = true →
  Layers.shadowsKey key (ConfigurationModel.removeValue (_memoryConfiguration c) key)
  = false →
  (getValue (Some key) (mkOverrides None None) workspace
     (updateValue key None (mkOverrides identifier None) c).2).1
  = (getValue (Some key) (mkOverrides None None) workspace (withoutGlobalMemory c)).1.
Proof.
  intros Hin Hk Hshadow.
  assert ((updateValue key None (mkOverrides identifier None) c).2
          = set_workspaceConsolidatedConfiguration None
              (set_memoryConfiguration
                 (ConfigurationModel.removeValue (_memoryConfiguration c) key) c))
    as -> by reflexivity.
  rewrite !getValue_projected.
  rewrite !projected_workspace_level by done. cbn [outcome_bind]. f_equal.
  change (_policyConfiguration (set_workspaceConsolidatedConfiguration _ _))
    with (_policyConfiguration c).
  change (_policyConfiguration (withoutGlobalMemory c)) with (_policyConfiguration c).
  apply getValue_withPolicy_congruence.
  unfold workspaceRebuilt, userRead, userOf, withoutGlobalMemory.
  cbn [set_workspaceConsolidatedConfiguration set_memoryConfiguration
       _defaultConfiguration _applicationConfiguration _userConfiguration
       _workspaceConfiguration _memoryConfiguration _remoteUserConfiguration
       _localUserConfiguration].
  unfold ConfigurationModel.merge. cbn [foldl].
  change (ConfigurationModel.mergeOne ?acc ConfigurationModel.createEmptyModel)
    with acc.
  rewrite getValue_mergeOne.
  - rewrite getValue_removeValue by done. done.
  - unfold Layers.scalarIfDefined. by rewrite getValue_removeValue.
  - done.
Qed.

(** C10 as stated fails: memory holds [a] as [{b: 1}] over the default
    [{a: {b: 0}}]; [a.b] is not one of the keys of the memory model, the update
    of [a.b] to [undefined] changes nothing, and the read still gives [1], not
    the [0] of the lower layer. *)
Lemma updateValue_undefined_keeps_unlisted_key :
  (getValue (Some "a.b") Scenarios.noOverrides None defaultsOnly).1
  = Returned (Some (JNum 0))
  ∧ (updateValue "a.b" None Scenarios.noOverrides objectInMemory).1 = Returned tt
  ∧ (getValue (Some "a.b") Scenarios.noOverrides None leafRemoved).1
    = Returned (Some (JNum 1)).
Proof. repeat split; reflexivity. Qed.

End MemoryRemoval.

(** ** Serialization round trip *)

Section RoundTrip.

Import Configuration Consolidation Memory.

Lemma parseConfigurationModel_toJSON m :
  parseConfigurationModel (ConfigurationModel.toJSON m) = m.
Proof. by destruct m. Qed.

Lemma foldl_insert_lookup {A B} (g : A → B) (l : list (string * A)) :
  ∀ (acc : gmap string B) k,
  NoDup l.*1 →
  foldl (fun result value => <[value.1 := g value.2]> result) acc l !! k
  = match (list_to_map l : gmap string A) !! k with
    | Some x => Some (g x)
    | None => acc !! k
    end.
Proof.
  induction l as [|[k1 x1] l IH]; intros acc k Hnd; simpl.
  { by rewrite lookup_empty. }
  apply NoDup_cons in Hnd as [Hk1 Hnd]. rewrite IH by done.
  destruct (decide (k1 = k)) as [<-|Hne].
  - rewrite lookup_insert_eq.
    rewrite (not_elem_of_list_to_map_1 _ _ Hk1). by rewrite lookup_insert_eq.
  - rewrite !lookup_insert_ne by done. done.
Qed.

Lemma parse_folders (f : gmap URI ConfigurationModel.t) :
  foldl (fun result value => <[value.1 := parseConfigurationModel value.2]> result) ∅
        (prod_map id ConfigurationModel.toJSON <$> map_to_list f)
  = f.
Proof.
  apply map_eq. intros k.
  rewrite foldl_insert_lookup.
  2:{ rewrite <- list_fmap_compose.
      rewrite (list_fmap_ext (fst ∘ prod_map id ConfigurationModel.toJSON) fst).
      - apply NoDup_fst_map_to_list.
      - by intros i [folder m] _. }
  rewrite list_to_map_fmap, list_to_map_to_list, lookup_fmap, lookup_empty.
  destruct (f !! k) as [m|]; simpl; [|done].
  by rewrite parseConfigurationModel_toJSON.
Qed.


Lemma merge_snoc this others other :
  ConfigurationModel.merge this (others ++ [other])
  = ConfigurationModel.mergeOne (ConfigurationModel.merge this others) other.
Proof. unfold ConfigurationModel.merge. by rewrite foldl_app. Qed.

Lemma mergeOne_empty acc other :
  ConfigurationModel.isEmpty other = true → ConfigurationModel.mergeOne acc other = acc.
Proof. unfold ConfigurationModel.mergeOne. by intros ->. Qed.

Lemma merge_one_empty m other :
  ConfigurationModel.isEmpty other = true → ConfigurationModel.merge m [other] = m.
Proof.
  intros He. unfold ConfigurationModel.merge. simpl. rewrite mergeOne_empty by done.
  by destruct m.
Qed.

(** What [toData] returns on coherent caches. *)
Lemma toData_coherent c :
  coherent c →
  (toData c).1
  = Returned (mkConfigurationData
                (ConfigurationModel.toJSON (_defaultConfiguration c))
                (ConfigurationModel.toJSON (_policyConfiguration c))
                (ConfigurationModel.toJSON (_applicationConfiguration c))
                (ConfigurationModel.toJSON (userOf c))
                (ConfigurationModel.toJSON (_workspaceConfiguration c))
                (prod_map id ConfigurationModel.toJSON
                   <$> map_to_list (_folderConfigurations c))).
Proof.
  intros Hc. unfold toData, applicationConfiguration. rewrite !bind_read.
  destruct (userConfiguration_settled True c c) as (u & c1 & E & Hu & [Hl _]).
  { by split. }
  rewrite (bind_returned _ _ _ _ _ E). rewrite !bind_read. unfold ret. simpl.
  rewrite (Hu I).
  destruct (layers_fields _ _ Hl) as (_ & _ & _ & _ & _ & -> & -> & _ & _).
  done.
Qed.

Lemma new_coherent d p a l r w f m mr : coherent (new d p a l r w f m mr).
Proof. by split. Qed.

(** The layers decide alike before and after the round trip when no memory
    override is held. *)
Lemma resolve_roundtrip c section overrides workspace :
  memoryFree c →
  resolve (new (_defaultConfiguration c) (_policyConfiguration c)
               (_applicationConfiguration c) (userOf c)
               ConfigurationModel.createEmptyModel (_workspaceConfiguration c)
               (_folderConfigurations c) ConfigurationModel.createEmptyModel ∅)
          section overrides workspace
  = resolve c section overrides workspace.
Proof.
  intros [Hmem Hres]. unfold resolve. simpl.
  set (c' := new _ _ _ _ _ _ _ _ _).
  assert (workspaceOf c' = workspaceOf c) as Hw.
  { unfold workspaceOf, c', userOf at 1. simpl.
    change [_applicationConfiguration c; userOf c; _workspaceConfiguration c;
            ConfigurationModel.createEmptyModel]
      with ([_applicationConfiguration c; userOf c; _workspaceConfiguration c]
              ++ [ConfigurationModel.createEmptyModel]).
    change [_applicationConfiguration c; userOf c; _workspaceConfiguration c;
            _memoryConfiguration c]
      with ([_applicationConfiguration c; userOf c; _workspaceConfiguration c]
              ++ [_memoryConfiguration c]).
    by rewrite !merge_snoc, !mergeOne_empty. }
  assert (∀ folder, folderOf c' folder = folderOf c folder) as Hf.
  { intros folder. unfold folderOf. by rewrite Hw. }
  assert (resourceOf c' overrides workspace = resourceOf c overrides workspace) as ->.
  { unfold resourceOf. rewrite Hw.
    destruct workspace as [ws|]; [|done].
    destruct (resource overrides) as [r|]; [|done].
    change (_memoryConfigurationByResource c' !! r) with (@None ConfigurationModel.t).
    assert (match getFolder ws r with
            | Some root => folderOf c' root
            | None => workspaceOf c
            end = match getFolder ws r with
                  | Some root => folderOf c root
                  | None => workspaceOf c
                  end) as -> by (destruct (getFolder ws r); by rewrite ?Hf).
    destruct (_memoryConfigurationByResource c !! r) as [mr|] eqn:Hmr; [|done].
    by rewrite (merge_one_empty _ _ (Hres _ _ Hmr)). }
  done.
Qed.

(** C6, amended: for a configuration whose caches are coherent and that holds no
    memory override, globally or for a resource, [toData] returns, and the
    configuration parsed from what it returned resolves every key, resource,
    override identifier and workspace to what the original resolves them
    to. *)
Theorem parse_toData_roundtrip c section overrides workspace :
  coherent c →
  memoryFree c →
  ∃ data, (toData c).1 = Returned data
          ∧ (getValue section overrides workspace (parse data)).1
            = (getValue section overrides workspace c).1.
Proof.
  intros Hc Hfree. eexists. split; [by apply toData_coherent|].
  unfold parse. simpl. rewrite !parseConfigurationModel_toJSON, parse_folders.
  rewrite (proj1 (getValue_coherent _ _ _ _ (new_coherent _ _ _ _ _ _ _ _ _))).
  rewrite (proj1 (getValue_coherent _ _ _ _ Hc)).
  by apply resolve_roundtrip.
Qed.

(** C6 at a configuration that was read for a resource in a folder before it
    was serialized. *)
Lemma parse_toData_roundtrip_witness :
  ∃ data, (toData folderRead).1 = Returned data
          ∧ (getValue (Some "a.b") (Scenarios.forResource "file:///w/x.ts")
                      (Some Scenarios.oneFolder) (parse data)).1
            = (getValue (Some "a.b") (Scenarios.forResource "file:///w/x.ts")
                        (Some Scenarios.oneFolder) folderRead).1.
Proof.
  apply (parse_toData_roundtrip folderRead).
  - apply (getValue_coherent (Some "a.b") (Scenarios.forResource "file:///w/x.ts")
             (Some Scenarios.oneFolder) Scenarios.defaultsAndFolder).
    apply new_coherent.
  - split; [reflexivity|]. intros r m. vm_compute. discriminate.
Defined.

(** C6 as stated fails: the memory layer is not part of the data.  With [a]
    defined by the memory layer alone, the original resolves [a] to [1] and the
    parsed configuration does not resolve it. *)
Lemma parse_toData_drops_memory :
  (getValue (Some "a") Scenarios.noOverrides None Scenarios.memoryOnly).1
  = Returned (Some (JNum 1))
  ∧ ∃ data, (toData Scenarios.memoryOnly).1 = Returned data
            ∧ (getValue (Some "a") Scenarios.noOverrides None (parse data)).1
              = Returned None.
Proof. split; [reflexivity|]. eexists. split; reflexivity. Qed.

End RoundTrip.

(** ** Default overrides of plain keys *)

Section DefaultOverrides.

Import ConfigurationRegistry Defaults.


Lemma trackSources_spec propertyKey valuesSource sources (contributed : gmap string value) :
  (∀ entry, is_Some (contributed !! entry) →
            trackSources propertyKey contributed valuesSource sources
              !! (propertyKey +:+ "." +:+ entry) = Some valuesSource)
  ∧ (∀ path, (∀ entry, is_Some (contributed !! entry) →
                       path ≠ propertyKey +:+ "." +:+ entry) →
             trackSources propertyKey contributed valuesSource sources !! path
             = sources !! path).
Proof.
  unfold trackSources.
  apply (map_fold_weak_ind
           (fun r (m : gmap string value) =>
              (∀ entry, is_Some (m !! entry) →
                        r !! (propertyKey +:+ "." +:+ entry) = Some valuesSource)
              ∧ (∀ path, (∀ entry, is_Some (m !! entry) →
                                   path ≠ propertyKey +:+ "." +:+ entry) →
                         r !! path = sources !! path))).
  - split.
    + intros entry. rewrite lookup_empty. by intros [? ?].
    + done.
  - intros i x m r Hi [IH1 IH2]. split.
    + intros entry Hentry.
      destruct (decide (propertyKey +:+ "." +:+ i = propertyKey +:+ "." +:+ entry))
        as [->|Hne]; [by rewrite lookup_insert_eq|].
      rewrite lookup_insert_ne by done. apply IH1.
      rewrite lookup_insert_ne in Hentry; [done|]. by intros ->.
    + intros path Hpath. rewrite lookup_insert_ne.
      * apply IH2. intros entry Hentry. apply Hpath.
        destruct (decide (i = entry)) as [->|Hne];
          [by rewrite lookup_insert_eq|by rewrite lookup_insert_ne].
      * intros Heq. apply (Hpath i); [by rewrite lookup_insert_eq|done].
Qed.



(** The recorded default after one key of a contribution, for a plain key. *)
Lemma registerDefaultConfiguration_plain this bucket identifiers source key v stored :
  OVERRIDE_PROPERTY_REGEX_test key = false →
  (∀ that, configurationProperties that = configurationProperties this →
           mergeDefaultConfigurationsForConfigurationProperty that key v source
             (storedDefault this key) = Some stored) →
  ∃ this',
    registerDefaultConfiguration source (this, bucket, identifiers) (key, v)
    = Returned (this', bucket ∪ {[ key ]}, identifiers)
    ∧ storedDefault this' key = Some stored
    ∧ ∀ property,
        configurationProperties this !! key = Some property →
        is_true (disallowConfigurationDefault property) = false →
        default <$> configurationProperties this' !! key = Some (Some (value_of stored)).
Proof.
  intros Hkey Hmerge. unfold registerDefaultConfiguration. rewrite Hkey.
  set (forKey := mkEntry _ _).
  set (this1 := set_configurationDefaultsOverrides _ this).
  assert (configurationDefaultOverrideValue forKey = storedDefault this key) as Hprev.
  { unfold forKey, storedDefault. simpl.
    by destruct (configurationDefaultsOverrides this !! key). }
  rewrite Hprev, (Hmerge this1) by done.
  eexists. split; [reflexivity|]. split.
  - unfold storedDefault.
    destruct (configurationProperties _ !! key); simpl; by rewrite lookup_insert_eq.
  - intros property Hproperty Hallow.
    change (configurationProperties
              (set_configurationDefaultsOverrides
                 (<[key:=set_entry_value forKey stored]>
                    (configurationDefaultsOverrides this1)) this1) !! key)
      with (configurationProperties this !! key).
    rewrite Hproperty. simpl. rewrite lookup_insert_eq.
    unfold updatePropertyDefaultValue. simpl. rewrite lookup_insert_eq. simpl.
    by rewrite Hallow.
Qed.



(** At a key that the table of properties inherits and does not bind
    ([toString], [constructor], ...) nothing is merged: the contributed value,
    object or not, becomes the recorded default, with the source of the
    contribution as its provenance. *)
Lemma registerDefault_inherited_key this bucket identifiers source key v :
  OVERRIDE_PROPERTY_REGEX_test key = false →
  inherited key = true →
  configurationProperties this !! key = None →
  ∃ this',
    registerDefaultConfiguration source (this, bucket, identifiers) (key, v)
    = Returned (this', bucket ∪ {[ key ]}, identifiers)
    ∧ storedDefault this' key
      = Some (mkDefaultOverrideValue v (FromExtension <$> source)).
Proof.
  intros Hkey Hinherited Hproperty.
  destruct (registerDefaultConfiguration_plain this bucket identifiers source key v
              (mkDefaultOverrideValue v (FromExtension <$> source)) Hkey)
    as (this' & E & Hstored & _).
  { intros that Hthat. unfold mergeDefaultConfigurationsForConfigurationProperty.
    rewrite Hthat, Hproperty, Hinherited. cbn [negb andb].
    by rewrite andb_false_r. }
  by exists this'.
Qed.

(** The contribution [{a: 1}] for [constructor] to the registry that holds
    [{x: 0}] for it replaces the recorded default. *)
Lemma registerDefault_inherited_key_replaces :
  ∃ this this',
    registerDefaultConfiguration (Some "ext1") (new, ∅, [])
      ("constructor", JObj {[ "x" := JNum 0 ]})
    = Returned (this, {[ "constructor" ]}, [])
    ∧ registerDefaultConfiguration (Some "ext2") (this, ∅, [])
        ("constructor", JObj {[ "a" := JNum 1 ]})
      = Returned (this', {[ "constructor" ]}, [])
    ∧ storedDefault this' "constructor"
      = Some (mkDefaultOverrideValue (JObj {[ "a" := JNum 1 ]})
                (Some (FromExtension "ext2"))).
Proof.
  eexists _, _. split; [vm_compute; reflexivity|]. split; [vm_compute; reflexivity|].
  vm_compute. reflexivity.
Qed.


End DefaultOverrides.

(** ** Registration of a batch of properties *)

Section Registration.

Import ConfigurationRegistry Batch.

(** Induction on a node and the nodes under its [allOf]. *)
Lemma IConfigurationNode_nested_ind (P : IConfigurationNode → Prop) :
  (∀ properties subNodes scope extensionInfo restrictedProperties,
     (∀ nodes, subNodes = Some nodes → Forall P nodes) →
     P (mkNode properties subNodes scope extensionInfo restrictedProperties)) →
  ∀ configuration, P configuration.
Proof.
  intros Hnode. fix IH 1. intros [properties subNodes scope extensionInfo restricted].
  apply Hnode. destruct subNodes as [nodes|]; [|done].
  intros ? [= <-]. revert nodes. fix IHnodes 1. intros [|node rest].
  - constructor.
  - constructor; [apply IH|apply IHnodes].
Qed.

(** The properties kept so far are only added to. *)
Lemma registerProperty_kept validate extensionInfo restrictedProperties scope
    kept this bucket entry :
  registerProperty validate extensionInfo restrictedProperties scope
    (kept, this, bucket) entry
  = let '(keptHere, this', bucket') :=
      registerProperty validate extensionInfo restrictedProperties scope
        ([], this, bucket) entry in
    (kept ++ keptHere, this', bucket').
Proof.
  unfold registerProperty. destruct entry as [key property].
  destruct (validate && _); [by rewrite app_nil_r|].
  destruct (included _) as [declared|]; [|done].
  destruct (negb _); [by rewrite app_nil_r|done].
Qed.

Lemma foldl_registerProperty_kept validate extensionInfo restrictedProperties scope
    properties : ∀ kept this bucket,
  foldl (registerProperty validate extensionInfo restrictedProperties scope)
        (kept, this, bucket) properties
  = let '(keptHere, this', bucket') :=
      foldl (registerProperty validate extensionInfo restrictedProperties scope)
            ([], this, bucket) properties in
    (kept ++ keptHere, this', bucket').
Proof.
  induction properties as [|entry rest IH]; intros kept this bucket; cbn [foldl].
  { by rewrite app_nil_r. }
  rewrite (registerProperty_kept _ _ _ _ kept).
  destruct (registerProperty validate extensionInfo restrictedProperties scope
              ([], this, bucket) entry) as [[keptHere this1] bucket1].
  rewrite (IH (kept ++ keptHere)), (IH keptHere).
  destruct (foldl _ ([], this1, bucket1) rest) as [[keptRest this2] bucket2].
  by rewrite (assoc_L (++)).
Qed.

Lemma foldl_registerEntry_properties validate extensionInfo restrictedProperties scope
    properties : ∀ kept this bucket,
  foldl (registerEntry validate extensionInfo restrictedProperties)
        (kept, this, bucket) (pair scope <$> properties)
  = let '(keptHere, this', bucket') :=
      foldl (registerProperty validate extensionInfo restrictedProperties scope)
            ([], this, bucket) properties in
    (kept ++ (pair scope <$> keptHere), this', bucket').
Proof.
  induction properties as [|entry rest IH]; intros kept this bucket;
    cbn [foldl fmap list_fmap].
  { by rewrite app_nil_r. }
  unfold registerEntry at 2.
  destruct (registerProperty validate extensionInfo restrictedProperties scope
              ([], this, bucket) entry) as [[keptHere this1] bucket1].
  rewrite IH, (foldl_registerProperty_kept _ _ _ _ _ keptHere).
  destruct (foldl _ ([], this1, bucket1) rest) as [[keptRest this2] bucket2].
  by rewrite fmap_app, (assoc_L (++)).
Qed.

Lemma validateAndRegisterProperties_unfold this configuration validate extensionInfo
    restrictedProperties scope bucket :
  validateAndRegisterProperties this configuration validate extensionInfo
    restrictedProperties scope bucket
  = let scope := match node_scope configuration with Some s => s | None => scope end in
    let '(properties', this, bucket) :=
      match properties configuration with
      | Some properties =>
          let '(kept, this, bucket) :=
            foldl (registerProperty validate extensionInfo restrictedProperties scope)
                  ([], this, bucket) properties in
          (Some kept, this, bucket)
      | None => (None, this, bucket)
      end in
    let '(allOf', this, bucket) :=
      match allOf configuration with
      | Some subNodes =>
          let '(nodes, this, bucket) :=
            registerNodes validate extensionInfo restrictedProperties scope
              subNodes this bucket in
          (Some nodes, this, bucket)
      | None => (None, this, bucket)
      end in
    (mkNode properties' allOf' (node_scope configuration)
            (ConfigurationRegistry.extensionInfo configuration)
            (ConfigurationRegistry.restrictedProperties configuration),
     this, bucket).
Proof. by destruct configuration. Qed.

Lemma entriesOf_unfold configuration scope :
  entriesOf configuration scope
  = let scope := match node_scope configuration with Some s => s | None => scope end in
    match properties configuration with
    | Some properties => pair scope <$> properties
    | None => []
    end
    ++ match allOf configuration with
       | Some subNodes => entriesOfNodes scope subNodes
       | None => []
       end.
Proof. by destruct configuration. Qed.

(** A call of [validateAndRegisterProperties] is the sequence of the steps for
    the properties of the node and of its sub-nodes; the node it leaves holds
    the properties the steps kept. *)
Lemma validateAndRegisterProperties_entries validate extensionInfo restrictedProperties
    configuration : ∀ this scope bucket kept,
  foldl (registerEntry validate extensionInfo restrictedProperties)
        (kept, this, bucket) (entriesOf configuration scope)
  = let '(configuration', this', bucket') :=
      validateAndRegisterProperties this configuration validate extensionInfo
        restrictedProperties scope bucket in
    (kept ++ entriesOf configuration' scope, this', bucket').
Proof.
  induction configuration as [properties subNodes nodeScope ext restricted IH]
    using IConfigurationNode_nested_ind.
  intros this scope bucket kept.
  rewrite validateAndRegisterProperties_unfold, entriesOf_unfold.
  cbn [node_scope ConfigurationRegistry.properties allOf
       ConfigurationRegistry.extensionInfo ConfigurationRegistry.restrictedProperties].
  set (scope' := match nodeScope with Some s => s | None => scope end).
  rewrite foldl_app.
  assert (∃ ownProperties this1 bucket1,
            foldl (registerEntry validate extensionInfo restrictedProperties)
                  (kept, this, bucket)
                  (match properties with
                   | Some properties => pair scope' <$> properties
                   | None => []
                   end)
            = (kept ++ match ownProperties with
                       | Some properties => pair scope' <$> properties
                       | None => []
                       end, this1, bucket1)
            ∧ match properties with
              | Some properties =>
                  let '(keptHere, this2, bucket2) :=
                    foldl (registerProperty validate extensionInfo
                             restrictedProperties scope')
                          ([], this, bucket) properties in
                  (Some keptHere, this2, bucket2)
              | None => (None, this, bucket)
              end = (ownProperties, this1, bucket1))
    as (ownProperties & this1 & bucket1 & -> & ->).
  { destruct properties as [properties|].
    - rewrite foldl_registerEntry_properties.
      destruct (foldl _ ([], this, bucket) properties) as [[keptHere this1] bucket1].
      by exists (Some keptHere), this1, bucket1.
    - exists None, this, bucket. by rewrite app_nil_r. }
  destruct subNodes as [nodes|].
  2:{ rewrite entriesOf_unfold. simpl. by rewrite !app_nil_r. }
  specialize (IH nodes eq_refl).
  assert (∀ kept this bucket,
            foldl (registerEntry validate extensionInfo restrictedProperties)
                  (kept, this, bucket) (entriesOfNodes scope' nodes)
            = let '(nodes', this', bucket') :=
                registerNodes validate extensionInfo restrictedProperties scope'
                  nodes this bucket in
              (kept ++ entriesOfNodes scope' nodes', this', bucket')) as Hnodes.
  { clear -IH. induction IH as [|node rest Hnode _ IHrest]; intros kept this bucket.
    - simpl. by rewrite app_nil_r.
    - cbn [entriesOfNodes registerNodes]. rewrite foldl_app, Hnode.
      destruct (validateAndRegisterProperties this node validate extensionInfo
                  restrictedProperties scope' bucket) as [[node' this1] bucket1].
      rewrite IHrest.
      destruct (registerNodes validate extensionInfo restrictedProperties scope'
                  rest this1 bucket1) as [[rest' this2] bucket2].
      cbn [entriesOfNodes]. by rewrite (assoc_L (++)). }
  rewrite Hnodes.
  destruct (registerNodes validate extensionInfo restrictedProperties scope'
              nodes this1 bucket1) as [[nodes' this2] bucket2].
  rewrite entriesOf_unfold.
  cbn [node_scope ConfigurationRegistry.properties allOf].
  by rewrite (assoc_L (++)).
Qed.

Lemma nonempty_false s : nonempty s = false ↔ s = "".
Proof.
  unfold nonempty. rewrite negb_false_iff. apply String.eqb_eq.
Qed.

(** [validateProperty] returns a message exactly for the keys that are turned
    down, and no message is empty. *)
Lemma validateProperty_turnedDown this key property :
  turnedDown this key property
  ↔ ∃ message, validateProperty this key property = Some message
               ∧ nonempty message = true.
Proof.
  unfold turnedDown, validateProperty, getConfigurationProperties,
    getPolicyConfigurations.
  destruct (nonempty (trim key)) eqn:Htrim; simpl.
  2:{ apply nonempty_false in Htrim. split; [by eexists|by left]. }
  assert (trim key ≠ "") as Hne.
  { intros H. apply nonempty_false in H. congruence. }
  destruct (OVERRIDE_PROPERTY_REGEX_test key) eqn:Hregex.
  { split; [by eexists|by right; left]. }
  destruct (configurationProperties this !! key) as [registered|] eqn:Hreg; simpl.
  { split; [by eexists|by right; right; left; left; eexists]. }
  destruct (inherited key) eqn:Hinherited; simpl.
  { split; [by eexists|by right; right; left; right]. }
  destruct (policyName property) as [name|] eqn:Hname.
  2:{ split.
      - intros [?|[?|[[[? ?]|?]|(? & ? & ? & ?)]]]; done.
      - by intros (? & ? & ?). }
  destruct (policyConfigurations this !! name) as [owner|] eqn:Howner.
  - split; [by eexists|]. intros _. right; right; right. by exists name, owner.
  - split.
    + intros [?|[?|[[[? ?]|?]|(name' & owner' & [= <-] & ?)]]]; try done. congruence.
    + by intros (? & ? & ?).
Qed.

Lemma validateProperty_accepted this key property :
  ¬ turnedDown this key property → validateProperty this key property = None.
Proof.
  intros Hnot. destruct (validateProperty this key property) as [message|] eqn:E; [|done].
  exfalso. apply Hnot. apply validateProperty_turnedDown.
  exists message. split; [done|].
  revert E. unfold validateProperty.
  repeat match goal with
         | |- context [if ?b then _ else _] => destruct b
         | |- context [match ?x with Some _ => _ | None => _ end] => destruct x
         end; by intros [= <-].
Qed.

(** A property that is turned down leaves the registry, the bucket and the
    nodes as they were. *)
Lemma registerEntry_turnedDown extensionInfo restrictedProperties kept this bucket
    scope key property :
  turnedDown this key property →
  registerEntry true extensionInfo restrictedProperties (kept, this, bucket)
    (scope, (key, property))
  = (kept, this, bucket).
Proof.
  intros Hdown. apply validateProperty_turnedDown in Hdown as (message & E & _).
  unfold registerEntry, registerProperty. rewrite E. simpl. by rewrite app_nil_r.
Qed.

Lemma included_prepareProperty this key property extensionInfo restrictedProperties scope :
  included (prepareProperty this key property extensionInfo restrictedProperties scope)
  = included property.
Proof.
  unfold prepareProperty, updatePropertyDefaultValue, with_default. simpl.
  repeat match goal with
         | |- context [let '(_, _) := ?x in _] => destruct x
         | |- context [match ?x with Some _ => _ | None => _ end] => destruct x
         | |- context [if ?b then _ else _] => destruct b
         end; done.
Qed.

(** What a step records for a property that passes validation: a property
    with a field [included] that is not truthy changes the excluded properties
    and nothing else. *)
Lemma registerEntry_accepted extensionInfo restrictedProperties kept this bucket
    scope key property :
  validateProperty this key property = None →
  ∃ kept' this' bucket',
    registerEntry true extensionInfo restrictedProperties (kept, this, bucket)
      (scope, (key, property))
    = (kept', this', bucket')
    ∧ if isExcluded property
      then (∃ recorded,
              this' = set_excludedConfigurationProperties
                        (<[key := recorded]> (excludedConfigurationProperties this)) this)
           ∧ bucket' = bucket ∧ kept' = kept
      else is_Some (configurationProperties this' !! key)
           ∧ key ∈ bucket'
           ∧ ∃ registered, kept' = kept ++ [(scope, (key, registered))].
Proof.
  intros Hvalid. unfold registerEntry, registerProperty. rewrite Hvalid.
  cbn [andb bool_decide decide_rel]. rewrite bool_decide_eq_false_2 by by intros [? ?].
  cbn [andb]. rewrite included_prepareProperty. unfold isExcluded.
  destruct (included property) as [declared|]; [destruct (negb (is_true declared))|].
  - eexists _, _, _. split; [reflexivity|]. split; [by eexists|].
    split; [done|by rewrite app_nil_r].
  - eexists _, _, _. split; [reflexivity|].
    split; [|split; [set_solver|by eexists]].
    destruct (policyName _); simpl; by rewrite lookup_insert_eq.
  - eexists _, _, _. split; [reflexivity|].
    split; [|split; [set_solver|by eexists]].
    destruct (policyName _); simpl; by rewrite lookup_insert_eq.
Qed.

(** A step never takes a key out of the registry, of the excluded properties
    or of the bucket, and never takes a property out of a node. *)
Lemma registerEntry_monotone validate extensionInfo restrictedProperties
    kept this bucket entry key :
  ∃ kept' this' bucket',
    registerEntry validate extensionInfo restrictedProperties (kept, this, bucket) entry
    = (kept', this', bucket')
    ∧ (is_Some (configurationProperties this !! key) →
       is_Some (configurationProperties this' !! key))
    ∧ (is_Some (excludedConfigurationProperties this !! key) →
       is_Some (excludedConfigurationProperties this' !! key))
    ∧ (key ∈ bucket → key ∈ bucket')
    ∧ kept `prefix_of` kept'.
Proof.
  destruct entry as [scope [key' property]].
  unfold registerEntry, registerProperty.
  destruct (validate && _).
  { eexists _, _, _. split; [reflexivity|]. rewrite app_nil_r. by repeat split. }
  destruct (match included _ with Some declared => negb (is_true declared) | None => false end).
  - eexists _, _, _. split; [reflexivity|]. rewrite app_nil_r. repeat split; try done.
    simpl. intros Hkey. destruct (decide (key' = key)) as [->|Hne];
      [by rewrite lookup_insert_eq|by rewrite lookup_insert_ne].
  - eexists _, _, _. split; [reflexivity|]. repeat split.
    + intros Hkey. destruct (policyName _); simpl;
        (destruct (decide (key' = key)) as [->|Hne];
         [by rewrite lookup_insert_eq|by rewrite lookup_insert_ne]).
    + by destruct (policyName _).
    + set_solver.
    + by apply prefix_app_r.
Qed.

Lemma foldl_registerEntry_monotone validate extensionInfo restrictedProperties
    entries key : ∀ kept this bucket,
  ∃ kept' this' bucket',
    foldl (registerEntry validate extensionInfo restrictedProperties)
          (kept, this, bucket) entries
    = (kept', this', bucket')
    ∧ (is_Some (configurationProperties this !! key) →
       is_Some (configurationProperties this' !! key))
    ∧ (is_Some (excludedConfigurationProperties this !! key) →
       is_Some (excludedConfigurationProperties this' !! key))
    ∧ (key ∈ bucket → key ∈ bucket')
    ∧ kept `prefix_of` kept'.
Proof.
  induction entries as [|entry rest IH]; intros kept this bucket; cbn [foldl].
  { by exists kept, this, bucket. }
  destruct (registerEntry_monotone validate extensionInfo restrictedProperties
              kept this bucket entry key)
    as (kept1 & this1 & bucket1 & -> & H1 & H2 & H3 & H4).
  destruct (IH kept1 this1 bucket1)
    as (kept2 & this2 & bucket2 & -> & H1' & H2' & H3' & H4').
  exists kept2, this2, bucket2. split; [done|].
  repeat split; [auto..|]. by etrans.
Qed.

(** C8, amended: [registerConfiguration] with validation on walks every
    property of the node and of its sub-nodes in order; nothing stops the walk.
    A property whose key is blank, is an override-section key, is found in the
    table of the registry (a registered key, or a name such as [toString] that
    the table inherits), or whose policy name is already claimed gets a message
    that is not empty and leaves the registry, the bucket and the nodes as they
    were when it was reached.  Every other property is recorded: when it has a
    field [included] that is not truthy, its step changes the excluded
    properties and nothing else, and the key is among the excluded properties
    at the end of the walk; otherwise the key is in the registry, in the bucket
    and in its node at the end of the walk. *)
Theorem registerConfiguration_best_effort this configuration :
  let step :=
    registerEntry true (extensionInfo configuration)
      (restrictedProperties configuration) in
  ∃ configuration' this' bucket',
    registerConfiguration this configuration true = ([configuration'], this', bucket')
    ∧ foldl step ([], this, ∅) (entriesOf configuration WINDOW)
      = (entriesOf configuration' WINDOW, this', bucket')
    ∧ ∀ before scope key property after kept reached bucket,
        entriesOf configuration WINDOW = before ++ (scope, (key, property)) :: after →
        foldl step ([], this, ∅) before = (kept, reached, bucket) →
        (turnedDown reached key property →
         (∃ message, validateProperty reached key property = Some message
                     ∧ nonempty message = true)
         ∧ step (kept, reached, bucket) (scope, (key, property))
           = (kept, reached, bucket))
        ∧ (¬ turnedDown reached key property →
           if isExcluded property
           then (∃ recorded,
                   step (kept, reached, bucket) (scope, (key, property))
                   = (kept,
                      set_excludedConfigurationProperties
                        (<[key := recorded]> (excludedConfigurationProperties reached))
                        reached,
                      bucket))
                ∧ is_Some (excludedConfigurationProperties this' !! key)
           else is_Some (configurationProperties this' !! key)
                ∧ key ∈ bucket'
                ∧ ∃ registered,
                    (scope, (key, registered)) ∈ entriesOf configuration' WINDOW).
Proof.
  intros step.
  pose proof (validateAndRegisterProperties_entries true
                (extensionInfo configuration) (restrictedProperties configuration)
                configuration this WINDOW ∅ []) as Hwalk.
  unfold registerConfiguration, registerConfigurations, doRegisterConfigurations.
  cbn [foldl].
  destruct (validateAndRegisterProperties this configuration true
              (extensionInfo configuration) (restrictedProperties configuration)
              WINDOW ∅) as [[configuration' this'] bucket'].
  exists configuration', this', bucket'. split; [done|]. split; [done|].
  intros before scope key property after kept reached bucket Hsplit Hbefore.
  fold step in Hwalk. rewrite Hsplit, foldl_app, Hbefore in Hwalk. cbn [foldl] in Hwalk.
  split.
  - intros Hdown. split; [by apply validateProperty_turnedDown|].
    by apply registerEntry_turnedDown.
  - intros Haccepted. apply validateProperty_accepted in Haccepted.
    destruct (registerEntry_accepted (extensionInfo configuration)
                (restrictedProperties configuration) kept reached bucket
                scope key property Haccepted)
      as (kept1 & this1 & bucket1 & Estep & Hrecorded).
    fold step in Estep. rewrite Estep in Hwalk.
    destruct (foldl_registerEntry_monotone true (extensionInfo configuration)
                (restrictedProperties configuration) after key kept1 this1 bucket1)
      as (kept2 & this2 & bucket2 & Eafter & Hprops & Hexcluded & Hbucket & Hkept).
    fold step in Eafter. rewrite Eafter in Hwalk. simpl in Hwalk.
    injection Hwalk as -> -> ->.
    destruct (isExcluded property).
    + destruct Hrecorded as ([recorded ->] & -> & ->).
      split; [by exists recorded|].
      apply Hexcluded. simpl. by rewrite lookup_insert_eq.
    + destruct Hrecorded as (Hrecorded & Hin & registered & ->).
      split; [auto|]. split; [auto|]. exists registered.
      destruct Hkept as [more ->]. set_solver.
Qed.

(** C8 at a batch with a key that is a no-break space, the key [toString],
    a property declared with [included: false] and a property like any other:
    the first two are turned down, the third is among the excluded properties
    only, and the last is registered. *)
Lemma registerConfiguration_best_effort_witness :
  ∃ configuration' this' bucket',
    registerConfiguration new awkwardBatch true = ([configuration'], this', bucket')
    ∧ (is_Some (configurationProperties this' !! "editor.fontSize")
       ∧ "editor.fontSize" ∈ bucket')
    ∧ is_Some (excludedConfigurationProperties this' !! "editor.hidden")
    ∧ configurationProperties this' !! "editor.hidden" = None
    ∧ configurationProperties this' !! "toString" = None
    ∧ configurationProperties this' !! noBreakSpace = None.
Proof.
  destruct (registerConfiguration_best_effort new awkwardBatch)
    as (configuration' & this' & bucket' & E & Hwalk & Heach).
  exists configuration', this', bucket'. split; [exact E|]. split; [|split].
  - edestruct (Heach [(WINDOW, (noBreakSpace, plainSchema));
                      (WINDOW, ("toString", plainSchema));
                      (WINDOW, ("editor.hidden", excludedSchema))]
                     WINDOW "editor.fontSize" plainSchema) as [_ Haccepted].
    { reflexivity. }
    { vm_compute. reflexivity. }
    destruct Haccepted as (Hregistered & Hbucket & _).
    { intros [H|[H|[[[x H]|H]|(name & owner & H & _)]]];
        vm_compute in H; discriminate H. }
    split; [exact Hregistered|exact Hbucket].
  - edestruct (Heach [(WINDOW, (noBreakSpace, plainSchema));
                      (WINDOW, ("toString", plainSchema))]
                     WINDOW "editor.hidden" excludedSchema) as [_ Haccepted].
    { reflexivity. }
    { vm_compute. reflexivity. }
    destruct Haccepted as [_ Hexcluded].
    { intros [H|[H|[[[x H]|H]|(name & owner & H & _)]]];
        vm_compute in H; discriminate H. }
    exact Hexcluded.
  - revert E. vm_compute. intros [= <- <- <-]. repeat split.
Defined.

(** C8 as stated fails.  A property that passes validation and is declared with
    [included: false] is not registered: it is removed from its node and kept
    among the excluded properties.  And when [registerConfiguration] is called
    with validation off, a property with an empty key is registered. *)
Lemma registerConfiguration_not_all_registered :
  validateProperty new "editor.hidden" excludedSchema = None
  ∧ (∃ configuration' this' bucket',
       registerConfiguration new (nodeOf [("editor.hidden", excludedSchema)] None) true
       = ([configuration'], this', bucket')
       ∧ configurationProperties this' !! "editor.hidden" = None
       ∧ is_Some (excludedConfigurationProperties this' !! "editor.hidden")
       ∧ properties configuration' = Some [])
  ∧ (∃ message, validateProperty new "" plainSchema = Some message)
  ∧ ∃ configuration' this' bucket',
      registerConfiguration new (nodeOf [("", plainSchema)] None) false
      = ([configuration'], this', bucket')
      ∧ is_Some (configurationProperties this' !! "").
Proof.
  split; [reflexivity|]. split.
  { eexists _, _, _. split; [reflexivity|]. split; [reflexivity|].
    split; [vm_compute; eauto|reflexivity]. }
  split; [by eexists|].
  eexists _, _, _. split; [reflexivity|]. vm_compute. eauto.
Qed.

End Registration.

(** ** Override-section keys *)

Section OverrideKeysProps.
Import Brackets.

#[local] Arguments String.append : simpl nomatch.

Lemma append_assoc (a b c : string) : (a +:+ b) +:+ c = a +:+ (b +:+ c).
Proof. induction a as [|x a IH]; [done|]. simpl. by rewrite IH. Qed.

Lemma append_empty_r (a : string) : a +:+ "" = a.
Proof. induction a as [|x a IH]; [done|]. simpl. by rewrite IH. Qed.

Lemma occurs_append c a b : occurs c (a +:+ b) = occurs c a || occurs c b.
Proof.
  induction a as [|x a IH]; [done|]. simpl. rewrite IH. by rewrite orb_assoc.
Qed.

Lemma nonempty_true s : nonempty s = true ↔ s ≠ "".
Proof.
  unfold nonempty. destruct (String.eqb_spec s ""); split; try done.
Qed.

Lemma append_nonempty_r a c : a +:+ String c "" ≠ "".
Proof. by destruct a. Qed.

(** What [groupsFrom] has read when it accepts. *)
Lemma groupsFrom_accepts s : ∀ cur gs,
  groupsFrom s cur = Some gs →
  match cur with
  | None => s = bracketed gs ∧ Forall groupText gs
  | Some inner =>
      occurs "]"%char inner = false →
      ∃ tail gs', gs = (inner +:+ tail) :: gs'
                  ∧ s = tail +:+ "]" +:+ bracketed gs'
                  ∧ groupText (inner +:+ tail)
                  ∧ Forall groupText gs'
  end.
Proof.
  induction s as [|c s IH]; intros cur gs.
  - destruct cur as [inner|]; [done|]. simpl. intros [= <-]. by split.
  - destruct cur as [inner|]; simpl.
    + destruct (Ascii.eqb_spec c "]"%char) as [->|Hc].
      * destruct (nonempty inner) eqn:Hinner; [|done].
        destruct (groupsFrom s None) as [gs'|] eqn:Hrest; [|done].
        intros [= <-] Hfree. apply IH in Hrest as [-> Hgs'].
        exists "", gs'. rewrite append_empty_r. split; [done|]. split; [done|].
        split; [|done]. split; [by apply nonempty_true|done].
      * intros Hgs Hfree. apply IH in Hgs.
        destruct Hgs as (tail & gs' & -> & -> & Hgroup & Hgs').
        { rewrite occurs_append, Hfree. simpl.
          destruct (Ascii.eqb_spec c "]"%char); [done|done]. }
        exists (String c tail), gs'.
        rewrite append_assoc in Hgroup |- *. by simpl in *.
    + destruct (Ascii.eqb_spec c "["%char) as [->|Hc]; [|done].
      intros Hgs. apply IH in Hgs. destruct Hgs as (tail & gs' & -> & -> & Hgroup & Hgs'); [done|].
      split; [done|]. by constructor.
Qed.

(** [groupsFrom] accepts every key made of well-formed groups. *)
Lemma groupsFrom_group g : ∀ inner rest,
  occurs "]"%char g = false →
  inner +:+ g ≠ "" →
  groupsFrom (g +:+ String "]"%char rest) (Some inner)
  = cons (inner +:+ g) <$> groupsFrom rest None.
Proof.
  induction g as [|c g IH]; intros inner rest Hfree Hne.
  - simpl. rewrite append_empty_r in Hne |- *.
    apply nonempty_true in Hne. by rewrite Hne.
  - simpl in Hfree. apply orb_false_iff in Hfree as [Hc Hfree].
    simpl. rewrite Hc. rewrite IH; [|done|].
    + by rewrite append_assoc.
    + rewrite append_assoc. by simpl.
Qed.

Lemma groupsFrom_bracketed gs :
  Forall groupText gs → groupsFrom (bracketed gs) None = Some gs.
Proof.
  induction 1 as [|g gs [Hne Hfree] _ IH]; [done|].
  simpl. rewrite groupsFrom_group; [|done|done]. by rewrite IH.
Qed.

Lemma groups_spec key gs :
  groups key = Some gs ↔ gs ≠ [] ∧ Forall groupText gs ∧ key = bracketed gs.
Proof.
  unfold groups. split.
  - destruct (groupsFrom key None) as [[|g gs']|] eqn:Hgs; [done| |done].
    intros [= <-]. apply groupsFrom_accepts in Hgs as [-> Hall].
    split; [done|]. split; [done|done].
  - intros (Hne & Hall & ->). rewrite groupsFrom_bracketed by done.
    by destruct gs.
Qed.

(** X1: [OVERRIDE_PROPERTY_REGEX] accepts exactly the keys made of one or
    more groups between brackets, each group a text that is not empty and
    holds no closing bracket, with nothing before, between or after them. *)
Theorem OVERRIDE_PROPERTY_REGEX_accepts key :
  OVERRIDE_PROPERTY_REGEX_test key = true
  ↔ ∃ gs, gs ≠ [] ∧ Forall groupText gs ∧ key = bracketed gs.
Proof.
  unfold OVERRIDE_PROPERTY_REGEX_test. split.
  - destruct (groups key) as [gs|] eqn:Hgs; [|done].
    intros _. exists gs. by apply groups_spec.
  - intros (gs & Hgs). apply groups_spec in Hgs. by rewrite Hgs.
Qed.

Lemma elem_of_distinct (l : list string) x : x ∈ arrays.distinct l ↔ x ∈ l.
Proof.
  induction l as [|y l IH]; [done|]. simpl.
  rewrite !elem_of_cons, list_elem_of_filter, IH.
  destruct (decide (x = y)); naive_solver.
Qed.

Lemma NoDup_distinct (l : list string) : NoDup (arrays.distinct l).
Proof.
  induction l as [|y l IH]; simpl; [constructor|].
  constructor; [|by apply NoDup_filter].
  rewrite list_elem_of_filter. naive_solver.
Qed.

Lemma filter_all {A} (P : A → Prop) `{∀ x, Decision (P x)} (l : list A) :
  Forall P l → filter P l = l.
Proof.
  induction 1 as [|x l Hx _ IH]; [done|]. by rewrite filter_cons_True, IH.
Qed.

Lemma distinct_NoDup (l : list string) : NoDup l → arrays.distinct l = l.
Proof.
  induction l as [|y l IH]; [done|]. intros [Hy Hl]%NoDup_cons.
  simpl. rewrite IH by done. f_equal.
  apply filter_all, Forall_forall. by intros z Hz ->.
Qed.

(** X2: for identifiers that are not empty, hold no closing bracket, are
    left as they are by [trim] and differ from one another,
    [overrideIdentifiersFromKey] gives back these identifiers, in their order,
    from the key that names them between brackets. *)
Theorem overrideIdentifiersFromKey_bracketed ids :
  Forall groupText ids →
  Forall (fun i => trim i = i) ids →
  NoDup ids →
  overrideIdentifiersFromKey (bracketed ids) = ids.
Proof.
  intros Hgroups Htrimmed Hdistinct. unfold overrideIdentifiersFromKey.
  destruct ids as [|i ids]; [done|].
  assert (groups (bracketed (i :: ids)) = Some (i :: ids)) as ->.
  { by apply groups_spec. }
  assert (trim <$> i :: ids = i :: ids) as ->.
  { clear -Htrimmed. induction Htrimmed as [|j l Hj _ IH]; [done|].
    rewrite fmap_cons, Hj. by f_equal. }
  rewrite filter_all; [by apply distinct_NoDup|].
  eapply Forall_impl; [exact Hgroups|]. intros g [Hne _]. by apply nonempty_true.
Qed.

(** X2 at the key [[typescript][javascript]]. *)
Lemma overrideIdentifiersFromKey_bracketed_witness :
  overrideIdentifiersFromKey (bracketed ["typescript"; "javascript"])
  = ["typescript"; "javascript"].
Proof.
  apply overrideIdentifiersFromKey_bracketed.
  - repeat constructor; done.
  - repeat constructor.
  - repeat constructor; set_solver.
Defined.

(** White space outside ASCII is trimmed as well: a group that holds a
    no-break space and nothing else names no identifier. *)
Lemma overrideIdentifiersFromKey_no_break_space :
  overrideIdentifiersFromKey ("[" +:+ Batch.noBreakSpace +:+ "]") = []
  ∧ overrideIdentifiersFromKey ("[" +:+ Batch.noBreakSpace +:+ "x][x]") = ["x"].
Proof. split; reflexivity. Qed.

(** X3: [overrideIdentifiersFromKey] never returns an identifier twice,
    returns nothing for a key that [OVERRIDE_PROPERTY_REGEX] rejects, and for
    a key of bracketed groups returns the trimmed groups that are not empty,
    and nothing else. *)
Theorem overrideIdentifiersFromKey_spec key :
  NoDup (overrideIdentifiersFromKey key)
  ∧ (OVERRIDE_PROPERTY_REGEX_test key = false → overrideIdentifiersFromKey key = [])
  ∧ ∀ gs, Forall groupText gs → key = bracketed gs →
          ∀ i, i ∈ overrideIdentifiersFromKey key
               ↔ i ≠ "" ∧ ∃ g, g ∈ gs ∧ i = trim g.
Proof.
  unfold overrideIdentifiersFromKey, OVERRIDE_PROPERTY_REGEX_test.
  split; [|split].
  - destruct (groups key); [apply NoDup_distinct|constructor].
  - by destruct (groups key).
  - intros gs Hgs -> i. destruct gs as [|g gs].
    + simpl. split; [by intros ?%elem_of_nil|]. by intros (_ & g & ?%elem_of_nil & _).
    + assert (groups (bracketed (g :: gs)) = Some (g :: gs)) as ->.
      { by apply groups_spec. }
      rewrite elem_of_distinct, list_elem_of_filter, list_elem_of_fmap, nonempty_true.
      naive_solver.
Qed.

End OverrideKeysProps.

(** ** Keys and sections of merged models *)

Section MergeStructure.

Import ConfigurationModel Sections.

Lemma merge_nil this : merge this [] = this.
Proof. by destruct this. Qed.

Lemma merge_cons this other others :
  merge this (other :: others) = merge (merge this [other]) others.
Proof.
  unfold merge. simpl. by destruct (mergeOne _ other).
Qed.

(** X4: [merge] of several models at once is [merge] of the first ones
    followed by [merge] of the others into the result. *)
Theorem merge_app this others more :
  merge this (others ++ more) = merge (merge this others) more.
Proof.
  unfold merge. rewrite foldl_app.
  by destruct (foldl mergeOne _ others).
Qed.

(** Leaving out the models that are empty does not change the result. *)
Lemma merge_contributing this others :
  merge this (contributing others) = merge this others.
Proof.
  unfold merge, contributing.
  generalize (mk (objects.deepClone (contents this)) (keys this)
                 (objects.deepClone (overrides this))).
  induction others as [|other others IH]; intros acc; [done|].
  destruct (isEmpty other) eqn:Hempty.
  - rewrite filter_cons_False by (by rewrite Hempty). cbn [foldl].
    rewrite mergeOne_empty by done. apply IH.
  - rewrite filter_cons_True by done. cbn [foldl]. apply IH.
Qed.

Lemma elem_of_mergeKeys otherKeys : ∀ keys k,
  k ∈ mergeKeys keys otherKeys ↔ k ∈ keys ∨ k ∈ otherKeys.
Proof.
  unfold mergeKeys.
  induction otherKeys as [|key otherKeys IH]; intros keys k; simpl.
  - rewrite elem_of_nil. naive_solver.
  - rewrite IH, elem_of_cons. destruct (arrays.indexOf keys key) eqn:Hindex.
    + assert (key ∈ keys).
      { destruct (decide (key ∈ keys)) as [|Hnot]; [done|].
        apply indexOf_None in Hnot. congruence. }
      naive_solver.
    + rewrite elem_of_app, list_elem_of_singleton. naive_solver.
Qed.

Lemma NoDup_mergeKeys otherKeys : ∀ keys,
  NoDup keys → NoDup (mergeKeys keys otherKeys).
Proof.
  unfold mergeKeys.
  induction otherKeys as [|key otherKeys IH]; intros keys Hkeys; [done|].
  simpl. apply IH. destruct (arrays.indexOf keys key) eqn:Hindex; [done|].
  apply indexOf_None in Hindex. apply NoDup_app. split; [done|].
  split; [|apply NoDup_singleton].
  intros x Hx ->%list_elem_of_singleton. done.
Qed.

Lemma prefix_mergeKeys otherKeys : ∀ keys, keys `prefix_of` mergeKeys keys otherKeys.
Proof.
  unfold mergeKeys.
  induction otherKeys as [|key otherKeys IH]; intros keys; [done|].
  simpl. etrans; [|apply IH]. destruct (arrays.indexOf keys key); [done|].
  by apply prefix_app_r.
Qed.

Lemma foldl_mergeOne_keys others : ∀ acc,
  (∀ k, k ∈ keys (foldl mergeOne acc others)
        ↔ k ∈ keys acc ∨ ∃ other, other ∈ contributing others ∧ k ∈ keys other)
  ∧ keys acc `prefix_of` keys (foldl mergeOne acc others)
  ∧ (NoDup (keys acc) → NoDup (keys (foldl mergeOne acc others))).
Proof.
  unfold contributing.
  induction others as [|other others IH]; intros acc.
  - simpl. split; [|done]. intros k.
    split; [by left|]. intros [?|(other & ?%elem_of_nil & _)]; done.
  - cbn [foldl]. destruct (IH (mergeOne acc other)) as (Hin & Hprefix & Hdup).
    destruct (isEmpty other) eqn:Hempty.
    + rewrite filter_cons_False by (by rewrite Hempty).
      by rewrite mergeOne_empty in * by done.
    + rewrite filter_cons_True by done.
      assert (keys (mergeOne acc other) = mergeKeys (keys acc) (keys other)) as Hkeys.
      { unfold mergeOne. by rewrite Hempty. }
      rewrite Hkeys in *. split; [|split].
      * intros k. rewrite Hin, elem_of_mergeKeys.
        setoid_rewrite elem_of_cons. naive_solver.
      * etrans; [|exact Hprefix]. apply prefix_mergeKeys.
      * intros Hacc. apply Hdup. by apply NoDup_mergeKeys.
Qed.

(** X5: the keys of a merged model are those of the receiver and of the
    merged models that are not empty; the keys of the receiver come first, in
    their order, and no key is repeated when the receiver repeats none. *)
Theorem merge_keys this others :
  (∀ k, k ∈ keys (merge this others)
        ↔ k ∈ keys this ∨ ∃ other, other ∈ contributing others ∧ k ∈ keys other)
  ∧ keys this `prefix_of` keys (merge this others)
  ∧ (NoDup (keys this) → NoDup (keys (merge this others))).
Proof.
  exact (foldl_mergeOne_keys others
           (mk (objects.deepClone (contents this)) (keys this)
               (objects.deepClone (overrides this)))).
Qed.

Lemma findIndex_Some {A} (p : A → bool) (l : list A) i :
  arrays.findIndex p l = Some i → ∃ x, l !! i = Some x ∧ p x = true.
Proof.
  revert i. induction l as [|y l IH]; intros i; [done|]. simpl.
  destruct (p y) eqn:Hy.
  - intros [= <-]. by exists y.
  - destruct (arrays.findIndex p l) as [j|]; [|done].
    intros [= <-]. by apply IH.
Qed.

Lemma findIndex_None {A} (p : A → bool) (l : list A) :
  arrays.findIndex p l = None ↔ Forall (fun x => p x = false) l.
Proof.
  induction l as [|y l IH]; simpl.
  - split; [constructor|done].
  - destruct (p y) eqn:Hy.
    + split; [done|]. intros Hall. apply Forall_cons in Hall as [? _]. congruence.
    + destruct (arrays.findIndex p l) as [j|].
      * split; [done|]. intros Hall. apply Forall_cons in Hall as [_ Hall].
        by apply IH in Hall.
      * split; [|done]. intros _. constructor; [done|]. by apply IH.
Qed.

Lemma identifiers_mergeOverride sections otherOverride :
  IOverrides.identifiers <$> mergeOverride sections otherOverride
  = if decide (IOverrides.identifiers otherOverride ∈ IOverrides.identifiers <$> sections)
    then IOverrides.identifiers <$> sections
    else (IOverrides.identifiers <$> sections) ++ [IOverrides.identifiers otherOverride].
Proof.
  unfold mergeOverride.
  destruct (arrays.findIndex _ sections) as [i|] eqn:Hindex.
  - apply findIndex_Some in Hindex as (x & Hx & Hequal).
    unfold arrays.equals in Hequal. apply bool_decide_eq_true in Hequal.
    rewrite decide_True.
    + rewrite (list_fmap_alter _ _ id); [by apply list_alter_id|].
      by apply Forall_forall.
    + apply list_elem_of_fmap. exists x. split; [done|]. by eapply list_elem_of_lookup_2.
  - apply findIndex_None in Hindex. rewrite decide_False.
    + by rewrite fmap_app.
    + intros (x & Hx & Hin)%list_elem_of_fmap.
      rewrite Forall_forall in Hindex. specialize (Hindex x Hin).
      unfold arrays.equals in Hindex. apply bool_decide_eq_false in Hindex. done.
Qed.

(** The identifier lists after the sections of one model were merged in. *)
Lemma foldl_mergeOverride_identifiers otherSections : ∀ sections,
  (∀ ids, ids ∈ IOverrides.identifiers <$> foldl mergeOverride sections otherSections
          ↔ ids ∈ IOverrides.identifiers <$> sections
            ∨ ids ∈ IOverrides.identifiers <$> otherSections)
  ∧ (IOverrides.identifiers <$> sections)
      `prefix_of` (IOverrides.identifiers <$> foldl mergeOverride sections otherSections)
  ∧ (NoDup (IOverrides.identifiers <$> sections) →
     NoDup (IOverrides.identifiers <$> foldl mergeOverride sections otherSections)).
Proof.
  induction otherSections as [|o otherSections IH]; intros sections.
  - simpl. split; [|done]. intros ids. rewrite elem_of_nil. naive_solver.
  - cbn [foldl]. destruct (IH (mergeOverride sections o)) as (Hin & Hprefix & Hdup).
    rewrite identifiers_mergeOverride in Hin, Hprefix, Hdup.
    destruct (decide (IOverrides.identifiers o ∈ IOverrides.identifiers <$> sections))
      as [Hknown|Hnew].
    + split; [|done]. intros ids. rewrite Hin, fmap_cons, elem_of_cons. naive_solver.
    + split; [|split].
      * intros ids. rewrite Hin, fmap_cons, elem_of_cons, elem_of_app,
          list_elem_of_singleton. naive_solver.
      * etrans; [|exact Hprefix]. by apply prefix_app_r.
      * intros Hsections. apply Hdup. apply NoDup_app. split; [done|].
        split; [|apply NoDup_singleton].
        by intros x Hx ->%list_elem_of_singleton.
Qed.

Lemma foldl_mergeOne_sections others : ∀ acc,
  (∀ ids, ids ∈ identifierLists (foldl mergeOne acc others)
          ↔ ids ∈ identifierLists acc
            ∨ ∃ other, other ∈ contributing others ∧ ids ∈ identifierLists other)
  ∧ identifierLists acc `prefix_of` identifierLists (foldl mergeOne acc others)
  ∧ (NoDup (identifierLists acc) → NoDup (identifierLists (foldl mergeOne acc others))).
Proof.
  unfold contributing.
  induction others as [|other others IH]; intros acc.
  - simpl. split; [|done]. intros k.
    split; [by left|]. intros [?|(other & ?%elem_of_nil & _)]; done.
  - cbn [foldl]. destruct (IH (mergeOne acc other)) as (Hin & Hprefix & Hdup).
    destruct (isEmpty other) eqn:Hempty.
    + rewrite filter_cons_False by (by rewrite Hempty).
      by rewrite mergeOne_empty in * by done.
    + rewrite filter_cons_True by done.
      assert (identifierLists (mergeOne acc other)
              = IOverrides.identifiers
                  <$> foldl mergeOverride (overrides acc) (overrides other)) as Hsections.
      { unfold mergeOne. by rewrite Hempty. }
      destruct (foldl_mergeOverride_identifiers (overrides other) (overrides acc))
        as (Hin' & Hprefix' & Hdup').
      rewrite Hsections in *. split; [|split].
      * intros ids. rewrite Hin, Hin'. unfold identifierLists.
        setoid_rewrite elem_of_cons. naive_solver.
      * etrans; [exact Hprefix'|exact Hprefix].
      * intros Hacc. apply Hdup. by apply Hdup'.
Qed.

(** X6: the override sections of a merged model are, by their identifier
    lists, those of the receiver and of the merged models that are not empty;
    the sections of the receiver come first, in their order, and no identifier
    list is repeated when the receiver repeats none. *)
Theorem merge_sections this others :
  (∀ ids, ids ∈ identifierLists (merge this others)
          ↔ ids ∈ identifierLists this
            ∨ ∃ other, other ∈ contributing others ∧ ids ∈ identifierLists other)
  ∧ identifierLists this `prefix_of` identifierLists (merge this others)
  ∧ (NoDup (identifierLists this) → NoDup (identifierLists (merge this others))).
Proof.
  exact (foldl_mergeOne_sections others
           (mk (objects.deepClone (contents this)) (keys this)
               (objects.deepClone (overrides this)))).
Qed.

End MergeStructure.

(** ** Values of override sections *)

Section OverrideSections.

Import ConfigurationModel configuration Sections Brackets.

(** The loop of [getContentsForOverrideIdentifer] over sections none of which
    names the identifier alone keeps the contents found for it alone. *)
Lemma contentsForIdentifierOnly_kept identifier after : ∀ only contents,
  Forall (fun s => IOverrides.identifiers s ≠ [identifier]) after →
  ∃ contents',
    foldl (fun '(only, contents) override =>
             if bool_decide (IOverrides.identifiers override = [identifier])
             then (Some (IOverrides.contents override), contents)
             else if bool_decide (identifier ∈ IOverrides.identifiers override)
             then (only, mergeContentsInto contents (Some (IOverrides.contents override)))
             else (only, contents))
          (only, contents) after
    = (only, contents').
Proof.
  induction after as [|s after IH]; intros only contents Hafter.
  - by exists contents.
  - apply Forall_cons in Hafter as [Hs Hafter]. cbn [foldl].
    rewrite bool_decide_eq_false_2 by done.
    destruct (bool_decide (identifier ∈ IOverrides.identifiers s)); by apply IH.
Qed.

(** X7: when the last section that names the identifier alone defines, at
    a path, a value that is not an object, [getOverrideValue] returns this
    value, whatever the sections that name the identifier among others
    define. *)
Theorem getOverrideValue_exact_section this identifier before section after path v :
  overrides this = before ++ section :: after →
  IOverrides.identifiers section = [identifier] →
  Forall (fun s => IOverrides.identifiers s ≠ [identifier]) after →
  nonempty path = true →
  getConfigurationValue (IOverrides.contents section) path = Some v →
  types.isObject (Some v) = false →
  getOverrideValue this (Some path) identifier = Some v.
Proof.
  intros Hsections Hexact Hafter Hpath Hvalue Hleaf.
  unfold getOverrideValue, getContentsForOverrideIdentifer.
  rewrite Hsections, foldl_app. cbn [foldl].
  destruct (foldl _ (None, None) before) as [only contents].
  rewrite bool_decide_eq_true_2 by done.
  destruct (contentsForIdentifierOnly_kept identifier after
              (Some (IOverrides.contents section)) contents Hafter) as [contents' ->].
  rewrite Hpath. destruct contents' as [shared|]; simpl; [|done].
  apply accessSetting_merge_defined; [apply split_not_nil|done|done].
Qed.

(** X7 at the sections [[typescript][javascript]] = [{a: 1}] and
    [[typescript]] = [{a: 2}]. *)
Lemma getOverrideValue_exact_section_witness :
  getOverrideValue sharedThenExact (Some "a") "typescript" = Some (JNum 2).
Proof.
  apply (getOverrideValue_exact_section sharedThenExact "typescript"
           [IOverrides.mk ["typescript"; "javascript"] ["a"] {[ "a" := JNum 1 ]}]
           (IOverrides.mk ["typescript"] ["a"] {[ "a" := JNum 2 ]}) []).
  - reflexivity.
  - reflexivity.
  - constructor.
  - reflexivity.
  - reflexivity.
  - reflexivity.
Defined.

End OverrideSections.

(** ** Writes to a model *)

Section KeysOfAModel.

Import ConfigurationModel configuration Sections Brackets.

Lemma indexOf_Some (l : list string) x i :
  arrays.indexOf l x = Some i → l !! i = Some x ∧ x ∉ take i l.
Proof.
  revert i. induction l as [|y l IH]; intros i; [done|]. simpl.
  destruct (decide (y = x)) as [->|Hne].
  - intros [= <-]. split; [done|]. apply not_elem_of_nil.
  - destruct (arrays.indexOf l x) as [j|]; [|done]. intros [= <-].
    destruct (IH j eq_refl) as [Hl Hnot]. split; [done|].
    simpl. apply not_elem_of_cons. by split.
Qed.

Lemma splice1_delete {A} (l : list A) i : arrays.splice1 l i = delete i l.
Proof. unfold arrays.splice1. by rewrite delete_take_drop. Qed.

Lemma keys_updateValue this key v add :
  keys (updateValue this key v add).2
  = if add || bool_decide (key ∉ keys this) then keys this ++ [key] else keys this.
Proof.
  unfold updateValue.
  assert (match arrays.indexOf (keys this) key with None => true | Some _ => false end
          = bool_decide (key ∉ keys this)) as ->.
  { destruct (arrays.indexOf (keys this) key) eqn:Hindex.
    - apply indexOf_Some in Hindex as [Hi _]. apply list_elem_of_lookup_2 in Hi.
      by rewrite bool_decide_eq_false_2 by (by intros ?).
    - apply indexOf_None in Hindex. by rewrite bool_decide_eq_true_2. }
  destruct (OVERRIDE_PROPERTY_REGEX_test key); [|done].
  by destruct (ownProperties _).
Qed.

(** X8: on a model whose keys are not repeated, [setValue] leaves the keys
    without repetition and with the key written, [removeValue] leaves them
    without repetition and without the key removed, and neither changes
    whether another key is among them. *)
Theorem keys_stay_distinct this key v :
  NoDup (keys this) →
  (NoDup (keys (setValue this key v).2) ∧ key ∈ keys (setValue this key v).2)
  ∧ (NoDup (keys (removeValue this key)) ∧ key ∉ keys (removeValue this key))
  ∧ ∀ k, k ≠ key →
         (k ∈ keys (setValue this key v).2 ↔ k ∈ keys this)
         ∧ (k ∈ keys (removeValue this key) ↔ k ∈ keys this).
Proof.
  intros Hkeys. unfold setValue. rewrite keys_updateValue. simpl.
  assert (keys (removeValue this key)
          = match arrays.indexOf (keys this) key with
            | Some index => delete index (keys this)
            | None => keys this
            end) as Hremoved.
  { unfold removeValue. destruct (arrays.indexOf (keys this) key); [|done].
    by rewrite splice1_delete. }
  rewrite Hremoved. clear Hremoved.
  destruct (arrays.indexOf (keys this) key) as [index|] eqn:Hindex.
  - destruct (indexOf_Some _ _ _ Hindex) as [Hlookup Hbefore].
    assert (key ∈ keys this) as Hin by (by eapply list_elem_of_lookup_2).
    rewrite bool_decide_eq_false_2 by (by intros ?).
    pose proof (take_drop_middle _ _ _ Hlookup) as Hmiddle.
    rewrite delete_take_drop.
    pose proof Hkeys as Hparts. rewrite <- Hmiddle in Hparts.
    apply NoDup_app in Hparts as (Htake & Hcross & Hdrop).
    apply NoDup_cons in Hdrop as [Hafter Hdrop].
    split; [done|]. split.
    + split.
      * apply NoDup_app. split; [done|]. split; [|done].
        intros x Hx Hx'. apply (Hcross x Hx). by right.
      * rewrite elem_of_app. by intros [?|?].
    + intros k Hk. split; [done|]. clear -Hmiddle Hk. revert Hmiddle.
      generalize (take index (keys this)), (drop (S index) (keys this)).
      intros l1 l2 <-. rewrite !elem_of_app, elem_of_cons. naive_solver.
  - apply indexOf_None in Hindex. rewrite bool_decide_eq_true_2 by done.
    split; [|split; [done|]].
    + split; [|rewrite elem_of_app, list_elem_of_singleton; by right].
      apply NoDup_app. split; [done|]. split; [|apply NoDup_singleton].
      by intros x Hx ->%list_elem_of_singleton.
    + intros k Hk. split; [|done].
      rewrite elem_of_app, list_elem_of_singleton. naive_solver.
Qed.

(** X8 at the key [fontSize] of a model with two keys. *)
Lemma keys_stay_distinct_witness :
  (NoDup (keys (setValue Scenarios.withTypescriptSection "fontSize" (JNum 13)).2)
   ∧ "fontSize" ∈ keys (setValue Scenarios.withTypescriptSection "fontSize" (JNum 13)).2)
  ∧ NoDup (keys (removeValue Scenarios.withTypescriptSection "fontSize"))
  ∧ "fontSize" ∉ keys (removeValue Scenarios.withTypescriptSection "fontSize").
Proof.
  destruct (keys_stay_distinct Scenarios.withTypescriptSection "fontSize" (JNum 13))
    as (Hset & Hremoved & _).
  - simpl. repeat constructor; set_solver.
  - split; [exact Hset|exact Hremoved].
Defined.

(** X9: [removeValue] of an override-section key that is among the keys
    while no section carries its identifiers removes the last section of the
    model: the failed search gives [-1] and [splice(-1, 1)] drops the last
    element. *)
Theorem removeValue_unmatched_section this key kept last :
  key ∈ keys this →
  OVERRIDE_PROPERTY_REGEX_test key = true →
  overrideIdentifiersFromKey key ∉ identifierLists this →
  overrides this = kept ++ [last] →
  overrides (removeValue this key) = kept.
Proof.
  intros Hkey Hpattern Hunmatched Hsections. unfold removeValue.
  destruct (arrays.indexOf (keys this) key) as [index|] eqn:Hindex.
  - rewrite Hpattern.
    assert (arrays.findIndex
              (fun o => arrays.equals (IOverrides.identifiers o)
                                      (overrideIdentifiersFromKey key))
              (overrides this) = None) as ->.
    { apply findIndex_None, Forall_forall. intros o Ho.
      apply bool_decide_eq_false_2. intros Hequal. apply Hunmatched.
      apply list_elem_of_fmap. by exists o. }
    simpl. unfold arrays.splice1. rewrite Hsections, length_app. simpl.
    replace (length kept + 1 - 1) with (length kept) by lia.
    rewrite take_app_length. rewrite drop_ge by (rewrite length_app; simpl; lia).
    by rewrite app_nil_r.
  - apply indexOf_None in Hindex. done.
Qed.

(** X9 at the model in which [[b]], [[a]] and [[a][a]] were set and
    [[a]] was removed: removing [[a][a]] drops the section of [[b]]. *)
Lemma removeValue_unmatched_section_witness :
  identifierLists aliasRemoved = [["b"]]
  ∧ overrides (removeValue aliasRemoved "[a][a]") = [].
Proof.
  split; [reflexivity|].
  apply (removeValue_unmatched_section aliasRemoved "[a][a]" []
           (IOverrides.mk ["b"] ["x"] {[ "x" := JNum 1 ]})).
  - vm_compute. set_solver.
  - reflexivity.
  - vm_compute. set_solver.
  - reflexivity.
Defined.

Lemma split_without_separator sep s :
  occurs sep s = false → split sep s = [s].
Proof.
  induction s as [|c s IH]; [done|]. simpl.
  intros [Hc Hs]%orb_false_iff. rewrite Hc, IH by done. done.
Qed.

(** X10: [setValue] of an override-section key without a dot returns unless
    the value is [null]; for [null] it throws a [TypeError], with the contents
    and the keys already written and the sections as they were; for any other
    value a section with the identifiers of the key exists afterwards. *)
Theorem setValue_override_key this key v :
  OVERRIDE_PROPERTY_REGEX_test key = true →
  occurs "."%char key = false →
  ((setValue this key v).1 = Returned tt ↔ v ≠ JNull)
  ∧ ((setValue this key v).1 = Thrown TypeError ↔ v = JNull)
  ∧ contents (setValue this key v).2 !! key = Some v
  ∧ key ∈ keys (setValue this key v).2
  ∧ (v = JNull → overrides (setValue this key v).2 = overrides this)
  ∧ (v ≠ JNull →
     overrideIdentifiersFromKey key ∈ identifierLists (setValue this key v).2).
Proof.
  intros Hpattern Hplain.
  assert (key ∈ keys (setValue this key v).2) as Hlisted.
  { unfold setValue. rewrite keys_updateValue. simpl.
    destruct (decide (key ∈ keys this)).
    - by rewrite bool_decide_eq_false_2 by (by intros ?).
    - rewrite bool_decide_eq_true_2 by done.
      rewrite elem_of_app, list_elem_of_singleton. by right. }
  revert Hlisted. unfold setValue, updateValue. rewrite Hpattern.
  unfold addToValueTree. rewrite split_without_separator by done.
  cbn [addToValueTreeAt]. rewrite lookup_insert_eq.
  assert (v = JNull ∨ v ≠ JNull ∧ ∃ props, ownProperties (Some v) = Returned props)
    as [->|[Hv [props Hprops]]].
  { destruct v; simpl; eauto. }
  - simpl. intros Hlisted. split; [by split|]. split; [done|].
    split; [unfold contents; simpl; by rewrite lookup_insert_eq|].
    split; [done|]. by split.
  - rewrite Hprops. simpl. intros Hlisted. split; [done|]. split; [by split|].
    split; [unfold contents; simpl; by rewrite lookup_insert_eq|].
    split; [done|]. split; [done|]. intros _.
    unfold identifierLists, overrides. simpl.
    destruct (arrays.findIndex _ (_overrides this)) as [i|] eqn:Hindex.
    + apply findIndex_Some in Hindex as (x & Hx & Hequal).
      apply list_elem_of_fmap. eexists. split; [|eapply list_elem_of_lookup_2].
      2: { apply list_lookup_insert_eq. by eapply lookup_lt_Some. }
      done.
    + rewrite fmap_app, elem_of_app. right. simpl. apply list_elem_of_singleton. done.
Qed.

(** X10 at [null] written to [[typescript]] in an empty model. *)
Lemma setValue_override_key_witness :
  (setValue Scenarios.empty "[typescript]" JNull).1 = Thrown TypeError
  ∧ contents (setValue Scenarios.empty "[typescript]" JNull).2 !! "[typescript]"
    = Some JNull
  ∧ "[typescript]" ∈ keys (setValue Scenarios.empty "[typescript]" JNull).2.
Proof.
  destruct (setValue_override_key Scenarios.empty "[typescript]" JNull)
    as (_ & Hthrown & Hcontents & Hkeys & _).
  - reflexivity.
  - reflexivity.
  - split; [by apply Hthrown|]. split; [exact Hcontents|exact Hkeys].
Defined.

End KeysOfAModel.

(** ** Values of a projected model *)

Section ProjectionOfAValue.

Import ConfigurationModel configuration Sections Brackets.

Lemma split_single sep s x : split sep s = [x] → occurs sep s = false.
Proof.
  revert x. induction s as [|c s IH]; intros x; [done|]. simpl.
  destruct (Ascii.eqb c sep).
  - intros [= _ Hsplit]. by apply split_not_nil in Hsplit.
  - destruct (split sep s) as [|h t] eqn:Hsplit; [by apply split_not_nil in Hsplit|].
    intros [= _ ->]. simpl. by apply (IH h).
Qed.

(** X11: when [createOverrideConfigurationModel], the projection that
    [override] builds for an identifier it was not asked for before, returns
    a model and [getOverrideValue] gives, at a path, a scalar that is truthy
    or whose path has a dot, the model returned gives this scalar at the
    path. *)
Theorem createOverrideConfigurationModel_resolves_section_value
    this identifier m' path v :
  createOverrideConfigurationModel this identifier = Returned m' →
  nonempty path = true →
  getOverrideValue this (Some path) identifier = Some v →
  Layers.is_scalar v = true →
  truthy (Some v) = true ∨ occurs "."%char path = true →
  getValue m' (Some path) = Some v.
Proof.
  intros Hoverride Hpath Hsection Hscalar Hvisible.
  unfold getOverrideValue in Hsection.
  destruct (getContentsForOverrideIdentifer this identifier) as [oc|] eqn:Hcontents;
    [|done].
  rewrite Hpath in Hsection. unfold getValue. rewrite Hpath.
  unfold getConfigurationValue in *.
  destruct (split "."%char path) as [|k rest] eqn:Hsplit;
    [by apply split_not_nil in Hsplit|].
  cbn [accessSetting] in Hsection |- *.
  destruct (oc !! k) as [next|] eqn:Hnext; [|done].
  assert (size oc ≠ 0) as Hsize.
  { intros Hzero. apply map_size_empty_iff in Hzero. subst oc. done. }
  destruct (override_contents _ _ _ _ Hcontents Hsize Hoverride) as (_ & _ & Hkeys).
  specialize (Hkeys k). rewrite Hnext in Hkeys.
  pose proof (Hkeys (or_intror (mk_is_Some _ _ eq_refl))) as Hk. clear Hkeys.
  destruct rest as [|r rest].
  - cbn [accessSetting] in Hsection. injection Hsection as ->.
    destruct Hvisible as [Htruthy|Hdot];
      [|apply split_single in Hsplit; congruence].
    unfold overrideProperty in Hk. rewrite Htruthy in Hk.
    assert (is_TObject (typeof (Some v)) = false) as Htype.
    { destruct v; try done. }
    rewrite Htype, andb_false_r in Hk.
    assert (Returned (Some v) = Returned (contents m' !! k)) as [= <-]; [|done].
    rewrite <- Hk. by destruct (contents this !! k).
  - destruct next as [| | | | |no]; try done.
    assert (size no ≠ 0) as Hno.
    { intros Hzero. apply map_size_empty_iff in Hzero. subst no.
      cbn [accessSetting] in Hsection. by rewrite lookup_empty in Hsection. }
    apply Nat.eqb_neq in Hno.
    unfold overrideProperty in Hk. cbn [truthy] in Hk.
    destruct (contents this !! k) as [c|] eqn:Hc.
    + destruct c as [| | | |ss|so]; simpl in Hk; rewrite ?Hno in Hk; try done.
      all: try (injection Hk as <-; exact Hsection).
      injection Hk as <-. by apply accessSetting_merge_defined;
        [|exact Hsection|apply is_scalar_not_object].
    + injection Hk as <-. exact Hsection.
Qed.

(** X11 at [fontSize] of the section [[typescript]]. *)
Lemma createOverrideConfigurationModel_resolves_section_value_witness :
  ∃ m', createOverrideConfigurationModel Scenarios.withTypescriptSection "typescript"
        = Returned m'
        ∧ getValue m' (Some "fontSize") = Some (JNum 14).
Proof.
  destruct (createOverrideConfigurationModel Scenarios.withTypescriptSection "typescript")
    as [m'| |] eqn:Hoverride;
    [|vm_compute in Hoverride; discriminate Hoverride..].
  exists m'. split; [reflexivity|].
  apply (createOverrideConfigurationModel_resolves_section_value
           Scenarios.withTypescriptSection "typescript"
           m' "fontSize" (JNum 14) Hoverride).
  - reflexivity.
  - reflexivity.
  - reflexivity.
  - left. reflexivity.
Defined.

End ProjectionOfAValue.

(** ** Reads from any state of the caches *)

Section ReadsFromAnyState.

Import Configuration Consolidation Seen.

Lemma sameReads_refl c : sameReads c c.
Proof. by repeat split. Qed.

Lemma sameReads_trans c1 c2 c3 : sameReads c1 c2 → sameReads c2 c3 → sameReads c1 c3.
Proof.
  intros (Hl & Hu & Hw & Hf) (Hl' & Hu' & Hw' & Hf').
  split; [congruence|]. split; [congruence|]. split; [congruence|].
  intros folder. by rewrite Hf', Hf.
Qed.

Lemma workspaceRebuilt_layers c c' :
  layers c' = layers c → userRead c' = userRead c →
  workspaceRebuilt c' = workspaceRebuilt c.
Proof.
  intros Hl Hu. unfold workspaceRebuilt. rewrite Hu.
  by destruct (layers_fields _ _ Hl) as (-> & _ & -> & _ & _ & -> & _ & -> & _).
Qed.

Lemma userConfiguration_seen c :
  ∃ c', userConfiguration c = (Returned (userRead c), c') ∧ sameReads c c'.
Proof.
  unfold userConfiguration, userRead. rewrite bind_read.
  destruct (_userConfiguration c) as [m|] eqn:Hcache.
  - exists c. split; [done|]. apply sameReads_refl.
  - rewrite !bind_read, bind_write. unfold ret. fold (userOf c).
    exists (set_userConfiguration (Some (userOf c)) c). split; [reflexivity|].
    set (c' := set_userConfiguration (Some (userOf c)) c).
    assert (layers c' = layers c) as Hl by (by destruct c).
    assert (userRead c' = userRead c) as Hu.
    { unfold userRead. simpl. by rewrite Hcache. }
    assert (workspaceSeen c' = workspaceSeen c) as Hw.
    { unfold workspaceSeen.
      change (_workspaceConsolidatedConfiguration c')
        with (_workspaceConsolidatedConfiguration c).
      destruct (_workspaceConsolidatedConfiguration c); [done|].
      by apply workspaceRebuilt_layers. }
    split; [done|]. split; [done|]. split; [done|].
    intros folder. unfold folderSeen. rewrite Hw.
    change (_foldersConsolidatedConfigurations c')
      with (_foldersConsolidatedConfigurations c).
    by change (_folderConfigurations c') with (_folderConfigurations c).
Qed.

Lemma getWorkspaceConsolidatedConfiguration_seen c :
  ∃ c', getWorkspaceConsolidatedConfiguration c = (Returned (workspaceSeen c), c')
        ∧ sameReads c c'.
Proof.
  unfold getWorkspaceConsolidatedConfiguration, applicationConfiguration.
  rewrite bind_read.
  destruct (_workspaceConsolidatedConfiguration c) as [m|] eqn:Hcache.
  { exists c. unfold workspaceSeen. rewrite Hcache. split; [done|]. apply sameReads_refl. }
  rewrite !bind_read.
  destruct (userConfiguration_seen c) as (c1 & E & Hsame).
  rewrite (bind_returned _ _ _ _ _ E). rewrite !bind_read, bind_write. unfold ret.
  destruct Hsame as (Hl & Hu & Hw & Hf).
  destruct (layers_fields _ _ Hl) as (_ & _ & _ & _ & _ & Hws & _ & Hmem & _).
  rewrite Hws, Hmem. fold (workspaceRebuilt c).
  assert (workspaceSeen c = workspaceRebuilt c) as Hseen.
  { unfold workspaceSeen. by rewrite Hcache. }
  rewrite <- Hseen.
  exists (set_workspaceConsolidatedConfiguration (Some (workspaceSeen c)) c1).
  split; [reflexivity|].
  set (c2 := set_workspaceConsolidatedConfiguration (Some (workspaceSeen c)) c1).
  assert (workspaceSeen c2 = workspaceSeen c) as Hw2 by done.
  split; [rewrite <- Hl; by destruct c1|]. split; [by rewrite <- Hu|].
  split; [done|].
  intros folder. rewrite <- Hf. unfold folderSeen. rewrite Hw2, Hw.
  change (_foldersConsolidatedConfigurations c2)
    with (_foldersConsolidatedConfigurations c1).
  by change (_folderConfigurations c2) with (_folderConfigurations c1).
Qed.

Lemma getFolderConsolidatedConfiguration_seen folder c :
  ∃ c', getFolderConsolidatedConfiguration folder c = (Returned (folderSeen c folder), c')
        ∧ sameReads c c'.
Proof.
  unfold getFolderConsolidatedConfiguration. rewrite bind_read.
  destruct (_foldersConsolidatedConfigurations c !! folder) as [m|] eqn:Hcache.
  { exists c. unfold folderSeen. rewrite Hcache. split; [done|]. apply sameReads_refl. }
  destruct (getWorkspaceConsolidatedConfiguration_seen c) as (c1 & E & Hsame).
  rewrite (bind_returned _ _ _ _ _ E). rewrite bind_read.
  pose proof Hsame as (Hl & Hu & Hw & Hf).
  destruct (layers_fields _ _ Hl) as (_ & _ & _ & _ & _ & _ & Hfolders & _ & _).
  rewrite Hfolders.
  assert (folderSeen c folder
          = match _folderConfigurations c !! folder with
            | Some fc => ConfigurationModel.merge (workspaceSeen c) [fc]
            | None => workspaceSeen c
            end) as Hseen.
  { unfold folderSeen. by rewrite Hcache. }
  destruct (_folderConfigurations c !! folder) as [fc|] eqn:Hfc.
  - rewrite bind_read, bind_write. unfold ret. rewrite <- Hseen.
    exists (set_foldersConsolidatedConfigurations
              (<[folder := folderSeen c folder]> (_foldersConsolidatedConfigurations c1))
              c1).
    split; [reflexivity|].
    set (c2 := set_foldersConsolidatedConfigurations _ c1).
    split; [rewrite <- Hl; by destruct c1|]. split; [by rewrite <- Hu|].
    split; [by rewrite <- Hw|].
    intros folder'. unfold folderSeen at 1.
    change (_foldersConsolidatedConfigurations c2)
      with (<[folder := folderSeen c folder]> (_foldersConsolidatedConfigurations c1)).
    change (_folderConfigurations c2) with (_folderConfigurations c1).
    change (workspaceSeen c2) with (workspaceSeen c1).
    destruct (decide (folder = folder')) as [<-|Hne].
    + by rewrite lookup_insert_eq.
    + rewrite lookup_insert_ne by done. rewrite <- Hf. done.
  - rewrite <- Hseen. by exists c1.
Qed.

Lemma getConsolidatedConfigurationModelForResource_seen overrides workspace c :
  ∃ c', getConsolidatedConfigurationModelForResource overrides workspace c
        = (Returned (resourceSeen c overrides workspace), c')
        ∧ sameReads c c'.
Proof.
  unfold getConsolidatedConfigurationModelForResource, resourceSeen.
  destruct (getWorkspaceConsolidatedConfiguration_seen c) as (c1 & E & Hsame1).
  rewrite (bind_returned _ _ _ _ _ E).
  destruct workspace as [ws|]; [|by exists c1].
  destruct (resource overrides) as [r|]; [|by exists c1].
  assert (∃ c2, (match getFolder ws r with
                 | Some root => getFolderConsolidatedConfiguration root
                 | None => ret (workspaceSeen c)
                 end) c1
                = (Returned (match getFolder ws r with
                             | Some root => folderSeen c root
                             | None => workspaceSeen c
                             end), c2)
                ∧ sameReads c c2) as (c2 & E2 & Hsame2).
  { destruct (getFolder ws r) as [root|].
    - destruct (getFolderConsolidatedConfiguration_seen root c1) as (c2 & E2 & Hsame2).
      exists c2. pose proof Hsame1 as (_ & _ & _ & Hf). rewrite <- Hf.
      split; [done|]. by eapply sameReads_trans.
    - by exists c1. }
  rewrite (bind_returned _ _ _ _ _ E2). rewrite bind_read.
  destruct Hsame2 as (Hl & Hrest).
  destruct (layers_fields _ _ Hl) as (_ & _ & _ & _ & _ & _ & _ & _ & ->).
  destruct (_memoryConfigurationByResource c !! r);
    (eexists; split; [reflexivity|by split]).
Qed.

Lemma projected_seen overrides workspace c :
  ∃ c', projected overrides workspace c
        = (match truthyIdentifier (overrideIdentifier overrides) with
           | Some identifier =>
               ConfigurationModel.override (resourceSeen c overrides workspace) identifier
           | None => Returned (resourceSeen c overrides workspace)
           end, c')
        ∧ sameReads c c'.
Proof.
  unfold projected.
  destruct (getConsolidatedConfigurationModelForResource_seen overrides workspace c)
    as (c1 & E & Hsame).
  rewrite (bind_returned _ _ _ _ _ E).
  destruct (truthyIdentifier (overrideIdentifier overrides)); by exists c1.
Qed.

(** What [getValue] returns from any state, and what it leaves. *)
Lemma getValue_seen section overrides workspace c :
  (getValue section overrides workspace c).1 = resolveSeen c section overrides workspace
  ∧ sameReads c (getValue section overrides workspace c).2.
Proof.
  destruct (projected_seen overrides workspace c) as (c' & E & Hsame). split.
  - rewrite getValue_projected. by rewrite E.
  - unfold getValue, bind. rewrite getConsolidatedConfigurationModel_projected, E.
    by destruct (match truthyIdentifier _ with Some _ => _ | None => _ end).
Qed.

Lemma resolveSeen_sameReads c c' section overrides workspace :
  sameReads c c' →
  resolveSeen c' section overrides workspace = resolveSeen c section overrides workspace.
Proof.
  intros (Hl & Hu & Hw & Hf). unfold resolveSeen, resourceSeen.
  rewrite Hw. rewrite (layers_policy _ _ Hl).
  destruct (layers_fields _ _ Hl) as (_ & _ & _ & _ & _ & _ & _ & _ & ->).
  destruct workspace as [ws|]; [|done]. destruct (resource overrides) as [r|]; [|done].
  destruct (getFolder ws r) as [root|]; [|done]. by rewrite Hf.
Qed.

(** X12: a read changes no later read: from any state of the caches,
    [getValue] after another [getValue] returns what it returns without
    it. *)
Theorem getValue_after_a_read c section overrides workspace section' overrides' workspace' :
  (getValue section overrides workspace
     (getValue section' overrides' workspace' c).2).1
  = (getValue section overrides workspace c).1.
Proof.
  destruct (getValue_seen section' overrides' workspace' c) as [_ Hsame].
  destruct (getValue_seen section overrides workspace c) as [-> _].
  destruct (getValue_seen section overrides workspace
              (getValue section' overrides' workspace' c).2) as [-> _].
  by apply resolveSeen_sameReads.
Qed.

End ReadsFromAnyState.

(** ** A write followed by a read *)

Section WritesAndReads.

Import Configuration Consolidation Seen Memory.

Lemma accessSetting_addToValueTreeAt path : ∀ tree v,
  path ≠ [] →
  configuration.accessSetting (JObj (configuration.addToValueTreeAt tree path v)) path
  = Some v.
Proof.
  induction path as [|s rest IH]; intros tree v Hpath; [done|].
  destruct rest as [|s' rest].
  - simpl. by rewrite lookup_insert_eq.
  - cbn [configuration.addToValueTreeAt configuration.accessSetting].
    rewrite lookup_insert_eq. by apply IH.
Qed.

Lemma shadows_addToValueTreeAt path : ∀ tree v,
  Layers.shadows (configuration.addToValueTreeAt tree path v) path = false.
Proof.
  induction path as [|s rest IH]; intros tree v; [done|].
  destruct rest as [|s' rest]; [done|].
  cbn [configuration.addToValueTreeAt Layers.shadows].
  rewrite lookup_insert_eq. apply IH.
Qed.

(** A plain key written to a model: the model resolves it to the value. *)
Lemma setValue_plain_key m key v :
  OVERRIDE_PROPERTY_REGEX_test key = false →
  nonempty key = true →
  (ConfigurationModel.setValue m key v).1 = Returned tt
  ∧ ConfigurationModel.getValue (ConfigurationModel.setValue m key v).2 (Some key) = Some v
  ∧ Layers.shadowsKey key (ConfigurationModel.setValue m key v).2 = false.
Proof.
  intros Hplain Hkey. unfold ConfigurationModel.setValue, ConfigurationModel.updateValue.
  rewrite Hplain. simpl. split; [done|].
  unfold ConfigurationModel.getValue, Layers.shadowsKey, ConfigurationModel.contents.
  simpl. rewrite Hkey. split.
  - apply accessSetting_addToValueTreeAt, split_not_nil.
  - apply shadows_addToValueTreeAt.
Qed.

(** The state a write leaves: the targeted memory model is replaced, and the
    workspace-level cache is emptied by a write without a resource that
    returns. *)
Lemma updateValue_state key v overrides c :
  let written :=
    match v with
    | Some v => (ConfigurationModel.setValue (targeted c overrides) key v).2
    | None => ConfigurationModel.removeValue (targeted c overrides) key
    end in
  (updateValue key v overrides c).2
  = match resource overrides with
    | Some r =>
        set_memoryConfigurationByResource
          (<[r := written]> (_memoryConfigurationByResource c)) c
    | None =>
        let c' := set_memoryConfiguration written c in
        match (updateValue key v overrides c).1 with
        | Returned _ => set_workspaceConsolidatedConfiguration None c'
        | _ => c'
        end
    end.
Proof.
  unfold updateValue, targeted, bind, read, write, ret, lift.
  destruct overrides as [identifier [r|]]; simpl.
  - destruct (_memoryConfigurationByResource c !! r) as [m|]; destruct v as [v|]; simpl;
      try match goal with
      | |- context [ConfigurationModel.setValue ?m ?k ?x] =>
          destruct (ConfigurationModel.setValue m k x) as [[[]| |] m']; simpl
      end;
      unfold set_memoryConfigurationByResource; simpl;
      by rewrite ?insert_insert_eq.
  - destruct v as [v|]; simpl; [|done].
    destruct (ConfigurationModel.setValue (_memoryConfiguration c) key v)
      as [[[]| |] m']; by simpl.
Qed.

(** X13: a write for a resource changes no read for another resource or
    without a resource. *)
Theorem updateValue_for_a_resource_is_local c key v identifier r
    section overrides workspace :
  resource overrides ≠ Some r →
  (getValue section overrides workspace
     (updateValue key v (mkOverrides identifier (Some r)) c).2).1
  = (getValue section overrides workspace c).1.
Proof.
  intros Hother. rewrite updateValue_state. cbn [resource].
  set (written := match v with Some _ => _ | None => _ end).
  destruct (getValue_seen section overrides workspace c) as [-> _].
  destruct (getValue_seen section overrides workspace
              (set_memoryConfigurationByResource
                 (<[r := written]> (_memoryConfigurationByResource c)) c)) as [-> _].
  unfold resolveSeen, resourceSeen.
  change (_policyConfiguration (set_memoryConfigurationByResource _ c))
    with (_policyConfiguration c).
  change (workspaceSeen (set_memoryConfigurationByResource _ c)) with (workspaceSeen c).
  destruct workspace as [ws|]; [|done].
  destruct (resource overrides) as [r'|]; [|done].
  change (_memoryConfigurationByResource (set_memoryConfigurationByResource ?b c))
    with b.
  rewrite lookup_insert_ne by congruence.
  destruct (getFolder ws r') as [root|]; [|done].
  by change (folderSeen (set_memoryConfigurationByResource _ c) root)
    with (folderSeen c root).
Qed.

(** X13 at a write for [file:///w/x.ts] followed by a read without a
    resource. *)
Lemma updateValue_for_a_resource_is_local_witness :
  (getValue (Some "a.b") Scenarios.noOverrides None
     (updateValue "a.b" (Some (JNum 1)) (mkOverrides None (Some "file:///w/x.ts"))
        defaultsOnly).2).1
  = (getValue (Some "a.b") Scenarios.noOverrides None defaultsOnly).1.
Proof.
  apply (updateValue_for_a_resource_is_local defaultsOnly "a.b" (Some (JNum 1)) None
           "file:///w/x.ts" (Some "a.b") Scenarios.noOverrides None).
  discriminate.
Defined.

(** X14: a scalar written by [updateValue] to a key that is not empty, is
    not an override-section key, is not shadowed in the memory model written
    to and is not defined by the policy layer, is what [getValue] returns next
    for the same resource (with a workspace when there is a resource); the
    write itself returns. *)
Theorem updateValue_then_getValue c key v overrides workspace :
  OVERRIDE_PROPERTY_REGEX_test key = false →
  nonempty key = true →
  Layers.is_scalar v = true →
  Layers.shadowsKey key (targeted c overrides) = false →
  ConfigurationModel.getValue (_policyConfiguration c) (Some key) = None →
  (is_Some (resource overrides) → is_Some workspace) →
  (updateValue key (Some v) overrides c).1 = Returned tt
  ∧ (getValue (Some key) (mkOverrides None (resource overrides)) workspace
       (updateValue key (Some v) overrides c).2).1
    = Returned (Some v).
Proof.
  intros Hplain Hkey Hscalar _ Hpolicy Hworkspace.
  destruct (setValue_plain_key (targeted c overrides) key v Hplain Hkey)
    as (Hreturned & Hvalue & Hfree).
  assert ((updateValue key (Some v) overrides c).1 = Returned tt) as Hwrite.
  { revert Hreturned. unfold updateValue, targeted, bind, read, write, ret, lift.
    destruct overrides as [identifier [r|]]; simpl.
    - destruct (_memoryConfigurationByResource c !! r) as [m|]; simpl;
        match goal with
        | |- context [ConfigurationModel.setValue ?m ?k ?x] =>
            destruct (ConfigurationModel.setValue m k x) as [[[]| |] m']; by simpl
        end.
    - destruct (ConfigurationModel.setValue (_memoryConfiguration c) key v)
        as [[[]| |] m']; by simpl. }
  split; [done|].
  rewrite updateValue_state, Hwrite.
  set (written := (ConfigurationModel.setValue (targeted c overrides) key v).2) in *.
  pose proof (is_scalar_not_object _ Hscalar) as Hleaf.
  assert (∀ m, ConfigurationModel.getValue
                 (withPolicy (_policyConfiguration c) (Some key) m) (Some key)
               = ConfigurationModel.getValue m (Some key)) as Hwithout.
  { intros m. unfold withPolicy. rewrite Hpolicy.
    rewrite bool_decide_eq_false_2 by (by intros [? ?]). by rewrite andb_false_r. }
  destruct (resource overrides) as [r|] eqn:Hresource.
  - destruct workspace as [ws|]; [|by destruct Hworkspace].
    match goal with
    | |- (getValue ?s ?o ?w ?c').1 = _ =>
        destruct (getValue_seen s o w c') as [-> _]
    end.
    unfold resolveSeen, resourceSeen. cbn [truthyIdentifier overrideIdentifier resource].
    cbn [outcome_bind].
    change (_policyConfiguration (set_memoryConfigurationByResource _ c))
      with (_policyConfiguration c).
    change (_memoryConfigurationByResource (set_memoryConfigurationByResource ?b c))
      with b.
    rewrite lookup_insert_eq, Hwithout. f_equal.
    by apply getValue_merge_defined.
  - match goal with
    | |- (getValue ?s ?o ?w ?c').1 = _ =>
        destruct (getValue_seen s o w c') as [-> _]
    end.
    unfold resolveSeen, resourceSeen. cbn [truthyIdentifier overrideIdentifier resource].
    cbn [outcome_bind].
    change (_policyConfiguration (set_workspaceConsolidatedConfiguration _ _))
      with (_policyConfiguration c).
    rewrite Hwithout. f_equal.
    assert (∀ c', workspaceSeen (set_workspaceConsolidatedConfiguration None c')
                  = workspaceRebuilt c') as Hrebuilt by done.
    destruct workspace; rewrite Hrebuilt; unfold workspaceRebuilt;
      change (_memoryConfiguration (set_memoryConfiguration ?m c)) with m;
      change (ConfigurationModel.merge ?d [?a; ?u; ?w; ?m])
        with (ConfigurationModel.merge d ([a; u; w] ++ [m]));
      rewrite merge_snoc; rewrite getValue_mergeOne;
      try (by rewrite Hvalue); try done;
      unfold Layers.scalarIfDefined; by rewrite Hvalue.
Qed.

(** X14 at [a.b] written as [1] over the default [0]. *)
Lemma updateValue_then_getValue_witness :
  (updateValue "a.b" (Some (JNum 1)) Scenarios.noOverrides defaultsOnly).1 = Returned tt
  ∧ (getValue (Some "a.b") Scenarios.noOverrides None
       (updateValue "a.b" (Some (JNum 1)) Scenarios.noOverrides defaultsOnly).2).1
    = Returned (Some (JNum 1)).
Proof.
  apply (updateValue_then_getValue defaultsOnly "a.b" (JNum 1) Scenarios.noOverrides None).
  - reflexivity.
  - reflexivity.
  - reflexivity.
  - reflexivity.
  - reflexivity.
  - intros [r Hr]. discriminate Hr.
Defined.

End WritesAndReads.

(** ** Fall-back after a removal from the memory layer *)

Section MemoryFallback.

Import Configuration Consolidation Seen Memory.

(** After the removal from the memory model held for a resource a read for
    that resource gives what the configuration without that model gives. *)
Lemma getValue_after_resource_removal c key identifier r workspace :
  key ∈ ConfigurationModel.keys (targeted c (mkOverrides identifier (Some r))) →
  nonempty key = true →
  Layers.shadowsKey key
    (ConfigurationModel.removeValue (targeted c (mkOverrides identifier (Some r))) key)
  = false →
  (getValue (Some key) (mkOverrides None (Some r)) workspace
     (updateValue key None (mkOverrides identifier (Some r)) c).2).1
  = (getValue (Some key) (mkOverrides None (Some r)) workspace
       (withoutResourceMemory r c)).1.
Proof.
  intros Hin Hk Hshadow. rewrite updateValue_state. cbn [resource].
  set (removed := ConfigurationModel.removeValue _ key) in *.
  destruct (getValue_seen (Some key) (mkOverrides None (Some r)) workspace
              (set_memoryConfigurationByResource
                 (<[r := removed]> (_memoryConfigurationByResource c)) c)) as [-> _].
  destruct (getValue_seen (Some key) (mkOverrides None (Some r)) workspace
              (withoutResourceMemory r c)) as [-> _].
  unfold resolveSeen, resourceSeen, withoutResourceMemory.
  cbn [overrideIdentifier resource truthyIdentifier outcome_bind].
  change (_policyConfiguration (set_memoryConfigurationByResource _ c))
    with (_policyConfiguration c).
  change (workspaceSeen (set_memoryConfigurationByResource _ c)) with (workspaceSeen c).
  destruct workspace as [ws|]; [|done].
  change (_memoryConfigurationByResource (set_memoryConfigurationByResource ?b c))
    with b.
  rewrite lookup_insert_eq, lookup_delete_eq.
  f_equal. apply getValue_withPolicy_congruence.
  change (folderSeen (set_memoryConfigurationByResource _ c)) with (folderSeen c).
  generalize (match getFolder ws r with
              | Some root => folderSeen c root
              | None => workspaceSeen c
              end).
  intros consolidated.
  unfold ConfigurationModel.merge. cbn [foldl].
  rewrite getValue_mergeOne.
  - unfold removed. by rewrite getValue_removeValue.
  - unfold Layers.scalarIfDefined, removed. by rewrite getValue_removeValue.
  - done.
Qed.

(** C10, amended: [updateValue] with [undefined] returns and leaves as targeted
    memory model (the global one, or the one held for the resource) the
    [removeValue] of the former, never storing [undefined].  A key that is not
    listed in [keys] of that model leaves it as it was.  A listed key is no
    longer resolved by that model; when what is left of the model holds nothing
    but objects at the proper prefixes of the key, a later [getValue] without
    override identifier, for the resource of the write (at workspace level
    when the write had none, whether or not it had an override identifier),
    returns what the configuration without the targeted memory model returns.
    A defined value, [null] included, leaves as targeted model what [setValue]
    makes of the former. *)
Theorem updateValue_undefined_removes c key overrides :
  (updateValue key None overrides c).1 = Returned tt
  ∧ targeted (updateValue key None overrides c).2 overrides
    = ConfigurationModel.removeValue (targeted c overrides) key
  ∧ (key ∉ ConfigurationModel.keys (targeted c overrides) →
     targeted (updateValue key None overrides c).2 overrides = targeted c overrides)
  ∧ (key ∈ ConfigurationModel.keys (targeted c overrides) →
     nonempty key = true →
     ConfigurationModel.getValue
       (targeted (updateValue key None overrides c).2 overrides) (Some key) = None)
  ∧ (key ∈ ConfigurationModel.keys (targeted c overrides) →
     nonempty key = true →
     Layers.shadowsKey key (ConfigurationModel.removeValue (targeted c overrides) key)
     = false →
     ∀ workspace,
       (getValue (Some key) (mkOverrides None (resource overrides)) workspace
          (updateValue key None overrides c).2).1
       = (getValue (Some key) (mkOverrides None (resource overrides)) workspace
            (withoutTargeted overrides c)).1)
  ∧ ∀ v, targeted (updateValue key (Some v) overrides c).2 overrides
         = (ConfigurationModel.setValue (targeted c overrides) key v).2.
Proof.
  destruct (updateValue_undefined c key overrides) as [Hret Htarget].
  split; [done|]. split; [done|]. rewrite Htarget.
  split; [by apply removeValue_not_listed|].
  split; [by apply getValue_removeValue|].
  split; [|intros v; by apply updateValue_defined].
  intros Hin Hk Hshadow workspace. unfold withoutTargeted.
  destruct overrides as [identifier [r|]]; cbn [resource].
  - by apply getValue_after_resource_removal.
  - by apply getValue_after_global_removal.
Qed.

(** C10 at the configuration in which memory holds [a.b] as [1] over the
    default [0]: after the update to [undefined], with an override identifier,
    the read gives [0]; and at the configuration in which the memory held for
    a resource of a folder holds [a.b] as [8]: after the update to [undefined]
    for the resource the read for the resource gives [0]. *)
Lemma updateValue_undefined_removes_witness :
  (ConfigurationModel.getValue
     (targeted (updateValue "a.b" None (Scenarios.forLanguage "typescript")
                  leafInMemory).2
               (Scenarios.forLanguage "typescript")) (Some "a.b") = None
   ∧ (getValue (Some "a.b") Scenarios.noOverrides None
        (updateValue "a.b" None (Scenarios.forLanguage "typescript") leafInMemory).2).1
     = Returned (Some (JNum 0)))
  ∧ (getValue (Some "a.b") (Scenarios.forResource "file:///w/x.ts")
       (Some Scenarios.oneFolder) resourceWrite).1
    = Returned (Some (JNum 8))
  ∧ (getValue (Some "a.b") (Scenarios.forResource "file:///w/x.ts")
       (Some Scenarios.oneFolder)
       (updateValue "a.b" None (Scenarios.forResource "file:///w/x.ts")
          resourceWrite).2).1
    = Returned (Some (JNum 0)).
Proof.
  split; [|split; [reflexivity|]].
  - destruct (updateValue_undefined_removes leafInMemory "a.b"
                (Scenarios.forLanguage "typescript"))
      as (_ & _ & _ & Hgone & Hfallback & _).
    split.
    + apply Hgone; [|reflexivity]. vm_compute. left.
    + etrans; [apply (Hfallback); [|reflexivity|reflexivity]|reflexivity].
      vm_compute. left.
  - destruct (updateValue_undefined_removes resourceWrite "a.b"
                (Scenarios.forResource "file:///w/x.ts"))
      as (_ & _ & _ & _ & Hfallback & _).
    etrans; [apply Hfallback; [|reflexivity|reflexivity]|reflexivity].
    vm_compute. left.
Defined.

(** A read that names an override identifier does not fall back to the lower
    layers when the memory model holds a section for the identifier: with the
    section [[typescript]] set to [{a.b: 5}] in memory, after [a.b] is removed
    the read for [typescript] gives [5], where the layers below give [0]. *)
Lemma getValue_with_identifier_keeps_section :
  targeted (updateValue "a.b" None Scenarios.noOverrides sectionInMemory).2
    Scenarios.noOverrides
  = ConfigurationModel.removeValue (targeted sectionInMemory Scenarios.noOverrides) "a.b"
  ∧ (getValue (Some "a.b") (Scenarios.forLanguage "typescript") None
       (updateValue "a.b" None Scenarios.noOverrides sectionInMemory).2).1
    = Returned (Some (JNum 5))
  ∧ (getValue (Some "a.b") (Scenarios.forLanguage "typescript") None
       (withoutTargeted Scenarios.noOverrides sectionInMemory)).1
    = Returned (Some (JNum 0)).
Proof. split; [vm_compute; reflexivity|]. split; vm_compute; reflexivity. Qed.

End MemoryFallback.

(** ** What the change event reports *)

Section ChangeEventSound.

Import ConfigurationChangeEvent Affects Brackets Marked.

#[local] Arguments String.append : simpl nomatch.

Lemma foldl_marked keys : ∀ acc,
  foldl (fun str key => str +:+ key +:+ _marker) acc keys = acc +:+ body keys.
Proof.
  induction keys as [|key keys IH]; intros acc; simpl.
  - by rewrite append_empty_r.
  - rewrite IH. by rewrite !append_assoc.
Qed.

Lemma indexOf_unfold hay needle :
  JS.indexOf hay needle
  = if String.prefix needle hay then Some 0
    else match hay with
         | EmptyString => None
         | String _ rest => S <$> JS.indexOf rest needle
         end.
Proof. by destruct hay. Qed.

Lemma indexOf_suffix needle : ∀ hay idx,
  JS.indexOf hay needle = Some idx →
  ∃ pre rest, hay = pre +:+ rest ∧ String.length pre = idx
              ∧ String.prefix needle rest = true.
Proof.
  induction hay as [|c hay IH]; intros idx; rewrite indexOf_unfold.
  - destruct (String.prefix needle "") eqn:Hprefix; [|done].
    intros [= <-]. by exists "", "".
  - destruct (String.prefix needle (String c hay)) eqn:Hprefix.
    + intros [= <-]. by exists "", (String c hay).
    + destruct (JS.indexOf hay needle) as [i|] eqn:Hi; [|done].
      intros [= <-]. destruct (IH i eq_refl) as (pre & rest & -> & <- & Hrest).
      by exists (String c pre), rest.
Qed.

Lemma get_append pre : ∀ rest n,
  String.get (String.length pre + n) (pre +:+ rest) = String.get n rest.
Proof. induction pre as [|c pre IH]; intros rest n; [done|]. simpl. apply IH. Qed.

Lemma prefix_cons a s c t :
  String.prefix (String a s) (String c t) = true ↔ a = c ∧ String.prefix s t = true.
Proof.
  simpl. destruct (ascii_dec a c) as [->|Hne]; [by split; [|intros []]|].
  split; [done|]. by intros [? _].
Qed.

(** Where a key free of the marker is followed by the marker, the first
    marker of the text is that one. *)
Lemma first_marker key : ∀ rest pre rest',
  markerFree key →
  key +:+ String _markerCode1 rest = pre +:+ String _markerCode1 rest' →
  (pre = key ∧ rest' = rest)
  ∨ ∃ pre', pre = key +:+ String _markerCode1 pre'
            ∧ rest = pre' +:+ String _markerCode1 rest'.
Proof.
  unfold markerFree.
  induction key as [|c key IH]; intros rest pre rest' Hfree; simpl.
  - destruct pre as [|c' pre]; simpl.
    + intros [= <-]. by left.
    + intros [= <- ->]. right. by exists pre.
  - simpl in Hfree. apply orb_false_iff in Hfree as [Hc Hfree].
    destruct pre as [|c' pre]; simpl.
    + intros [= -> _]. by rewrite Ascii.eqb_refl in Hc.
    + intros [= <- Hrest]. destruct (IH _ _ _ Hfree Hrest) as [[-> ->]|(pre' & -> & ->)].
      * by left.
      * right. by exists pre'.
Qed.

Lemma body_cons key keys :
  body (key :: keys) = key +:+ String _markerCode1 (body keys).
Proof. done. Qed.

(** A marker inside the marked keys is the one that ends a key. *)
Lemma marker_ends_a_key keys : ∀ pre rest,
  Forall markerFree keys →
  body keys = pre +:+ String _markerCode1 rest →
  ∃ before after, keys = before ++ after ∧ rest = body after.
Proof.
  induction keys as [|key keys IH]; intros pre rest Hkeys.
  - by destruct pre.
  - apply Forall_cons in Hkeys as [Hkey Hkeys]. rewrite body_cons. intros Hbody.
    apply first_marker in Hbody as [[-> ->]|(pre' & -> & Hrest)]; [| |done].
    + by exists [key], keys.
    + destruct (IH _ _ Hkeys Hrest) as (before & after & -> & ->).
      by exists (key :: before), after.
Qed.

(** The section is read at the start of a key and what follows it is the
    marker or a dot. *)
Lemma prefix_empty s : String.prefix "" s = true.
Proof. by destruct s. Qed.

Lemma section_at_key section : ∀ key rest code,
  markerFree section →
  markerFree key →
  String.prefix section (key +:+ String _markerCode1 rest) = true →
  String.get (String.length section) (key +:+ String _markerCode1 rest) = Some code →
  code = _markerCode1 ∨ code = _markerCode2 →
  keyUnderSection section key = true.
Proof.
  unfold markerFree, keyUnderSection.
  induction section as [|a section IH]; intros key rest code Hsection Hkey.
  - intros _. destruct key as [|c key]; [done|].
    change (String c key +:+ String _markerCode1 rest)
      with (String c (key +:+ String _markerCode1 rest)).
    cbn [String.length String.get]. intros [= ->] [-> | ->].
    + cbn [occurs] in Hkey. by rewrite Ascii.eqb_refl in Hkey.
    + apply orb_true_iff. right.
      change ("" +:+ ".") with (String _markerCode2 "").
      apply prefix_cons. split; [done|apply prefix_empty].
  - cbn [occurs] in Hsection. apply orb_false_iff in Hsection as [Ha Hsection].
    destruct key as [|c key].
    + change ("" +:+ String _markerCode1 rest) with (String _markerCode1 rest).
      intros [-> _]%prefix_cons. by rewrite Ascii.eqb_refl in Ha.
    + cbn [occurs] in Hkey. apply orb_false_iff in Hkey as [Hc Hkey].
      change (String c key +:+ String _markerCode1 rest)
        with (String c (key +:+ String _markerCode1 rest)).
      cbn [String.length String.get].
      intros [-> Hprefix]%prefix_cons Hget Hcode.
      specialize (IH key rest code Hsection Hkey Hprefix Hget Hcode).
      apply orb_true_iff in IH as [Heq|Hunder]; apply orb_true_iff.
      * left. apply String.eqb_eq in Heq as ->. apply String.eqb_refl.
      * right. change (String c section +:+ ".") with (String c (section +:+ ".")).
        by apply prefix_cons.
Qed.

(** X15: when neither the section nor an affected key holds the line feed
    that separates the keys, a section that [affectsConfiguration] reports as
    affected, without overrides, has an affected key equal to it or below
    it. *)
Theorem affectsConfiguration_sound this section :
  markerFree section →
  Forall markerFree (affectedKeys this) →
  (affectsConfiguration this section None).1 = Returned true →
  someKeyUnderSection this section = true.
Proof.
  intros Hsection Hkeys. unfold affectsConfiguration, someKeyUnderSection.
  unfold _affectsConfigStr. rewrite foldl_marked.
  destruct (JS.indexOf _ _) as [idx|] eqn:Hindex; [|done].
  apply indexOf_suffix in Hindex as (pre & rest & Hstr & Hpre & Hprefix).
  destruct (bool_decide _); [done|].
  rewrite Hstr. unfold charAt.
  replace (idx + String.length (_marker +:+ section))
    with (String.length pre + (String.length (_marker +:+ section))) by lia.
  rewrite get_append.
  destruct (String.get _ rest) as [code|] eqn:Hget; [|done].
  destruct (negb (Ascii.eqb code _markerCode1) && negb (Ascii.eqb code _markerCode2))
    eqn:Hcode; [done|]. intros _.
  assert (code = _markerCode1 ∨ code = _markerCode2) as Hfollows.
  { apply andb_false_iff in Hcode as [H|H]; apply negb_false_iff, Ascii.eqb_eq in H; auto. }
  change (_marker +:+ section) with (String _markerCode1 section) in Hprefix, Hget.
  destruct rest as [|c rest]; [done|].
  apply prefix_cons in Hprefix as [<- Hprefix]. simpl in Hget.
  assert (∃ before after, affectedKeys this = before ++ after ∧ rest = body after)
    as (before & after & Hsplit & ->).
  { change (_marker +:+ body (affectedKeys this))
      with (String _markerCode1 (body (affectedKeys this))) in Hstr.
    destruct pre as [|c pre]; simpl in Hstr.
    - injection Hstr as <-. by exists [], (affectedKeys this).
    - injection Hstr as <- Hbody. by apply marker_ends_a_key in Hbody. }
  rewrite Hsplit in Hkeys |- *. apply Forall_app in Hkeys as [_ Hafter].
  rewrite existsb_app. apply orb_true_iff. right.
  destruct after as [|key after].
  - simpl in Hget. by destruct section.
  - apply Forall_cons in Hafter as [Hkey _]. simpl. apply orb_true_iff. left.
    rewrite body_cons in Hprefix, Hget. by eapply section_at_key.
Qed.

(** X15 at the change of [editor.fontSize] and the section [editor]. *)
Lemma affectsConfiguration_sound_witness :
  (affectsConfiguration fontSizeChange "editor" None).1 = Returned true
  ∧ someKeyUnderSection fontSizeChange "editor" = true.
Proof.
  split; [reflexivity|].
  apply (affectsConfiguration_sound fontSizeChange "editor").
  - reflexivity.
  - repeat constructor.
  - reflexivity.
Defined.

End ChangeEventSound.

(** ** Invariants of the catalogue of properties *)

Section CatalogueInvariants.

Import ConfigurationRegistry Batch Catalogue.

Lemma registerConfiguration_entries this configuration validate :
  ∃ configuration' this' bucket',
    registerConfiguration this configuration validate = ([configuration'], this', bucket')
    ∧ foldl (registerEntry validate (extensionInfo configuration)
                           (restrictedProperties configuration))
            ([], this, ∅) (entriesOf configuration WINDOW)
      = (entriesOf configuration' WINDOW, this', bucket').
Proof.
  unfold registerConfiguration, registerConfigurations, doRegisterConfigurations.
  cbn [foldl].
  pose proof (validateAndRegisterProperties_entries validate (extensionInfo configuration)
                (restrictedProperties configuration) configuration this WINDOW ∅ [])
    as Hentries.
  destruct (validateAndRegisterProperties this configuration validate
              (extensionInfo configuration) (restrictedProperties configuration)
              WINDOW ∅) as [[configuration' this'] bucket'].
  by exists configuration', this', bucket'.
Qed.

(** What holds of the registry before a batch and is kept by every property
    of it holds after the batch. *)
Lemma registerConfiguration_invariant (Inv : t → Prop) validate this configuration :
  (∀ kept this bucket entry,
     entry ∈ entriesOf configuration WINDOW →
     Inv this →
     Inv (registerEntry validate (extensionInfo configuration)
            (restrictedProperties configuration) (kept, this, bucket) entry).1.2) →
  Inv this → Inv (registered this configuration validate).
Proof.
  intros Hstep Hthis. unfold registered.
  destruct (registerConfiguration_entries this configuration validate)
    as (configuration' & this' & bucket' & -> & Hfold).
  simpl. change this' with (entriesOf configuration' WINDOW, this', bucket').1.2.
  rewrite <- Hfold. clear Hfold.
  generalize (∅ : gset string) as bucket.
  generalize ([] : list (ConfigurationScope * (string * IConfigurationPropertySchema)))
    as kept.
  revert this Hthis Hstep.
  induction (entriesOf configuration WINDOW) as [|entry entries IH];
    intros this Hthis Hstep kept bucket; [done|].
  cbn [foldl].
  pose proof (Hstep kept this bucket entry (list_elem_of_here _ _) Hthis) as Hnext.
  destruct (registerEntry _ _ _ (kept, this, bucket) entry) as [[kept1 this1] bucket1].
  apply IH; [done|]. intros kept' that bucket'' entry' Hentry'.
  apply Hstep. by right.
Qed.

(** The fields [prepareProperty] and [defaultDeprecationMessage] leave as
    they find them. *)
Lemma prepareProperty_kept this key property extensionInfo restrictedProperties scope :
  let prepared :=
    prepareProperty this key property extensionInfo restrictedProperties scope in
  policy prepared = policy property
  ∧ included prepared = included property
  ∧ source prepared = extensionInfo
  ∧ defaultDefaultValue prepared = default property
  ∧ default prepared = Some (resolvedDefault this key property).
Proof.
  unfold prepareProperty, updatePropertyDefaultValue, with_default, resolvedDefault,
    Defaults.storedDefault.
  cbn [disallowConfigurationDefault defaultDefaultValue type].
  destruct (configurationDefaultsOverrides this !! key ≫= configurationDefaultOverrideValue)
    as [stored|]; [destruct (negb _ || negb _)|];
    destruct (default property); destruct (OVERRIDE_PROPERTY_REGEX_test key); done.
Qed.

Lemma prepareProperty_plain this key property extensionInfo restrictedProperties scope :
  OVERRIDE_PROPERTY_REGEX_test key = false →
  let prepared :=
    prepareProperty this key property extensionInfo restrictedProperties scope in
  ConfigurationRegistry.scope prepared = Some (resolvedScope scope property)
  ∧ restricted prepared = Some (resolvedRestricted restrictedProperties key property).
Proof.
  intros Hplain.
  unfold prepareProperty, updatePropertyDefaultValue, with_default, resolvedScope,
    resolvedRestricted.
  rewrite Hplain.
  repeat (match goal with
          | |- context [let '(_, _) := ?x in _] => destruct x
          | |- context [match ?x with _ => _ end] => destruct x
          end; simpl); done.
Qed.

Lemma defaultDeprecationMessage_kept property :
  let stored := defaultDeprecationMessage property in
  ConfigurationRegistry.scope stored = ConfigurationRegistry.scope property
  ∧ restricted stored = restricted property
  ∧ source stored = source property
  ∧ defaultDefaultValue stored = defaultDefaultValue property
  ∧ default stored = default property
  ∧ policy stored = policy property.
Proof. unfold defaultDeprecationMessage. by destruct (_ && _). Qed.

Lemma policyName_stored this key property extensionInfo restrictedProperties scope :
  policyName (defaultDeprecationMessage
                (prepareProperty this key property extensionInfo
                   restrictedProperties scope))
  = policyName property.
Proof.
  unfold policyName.
  destruct (defaultDeprecationMessage_kept
              (prepareProperty this key property extensionInfo
                 restrictedProperties scope)) as (_ & _ & _ & _ & _ & ->).
  by destruct (prepareProperty_kept this key property extensionInfo
                 restrictedProperties scope) as (-> & _).
Qed.

(** The tables of the registry after one property of a batch. *)
Lemma registerEntry_tables validate extensionInfo restrictedProperties kept this bucket
    scope key property :
  let this' :=
    (registerEntry validate extensionInfo restrictedProperties (kept, this, bucket)
       (scope, (key, property))).1.2 in
  let prepared :=
    prepareProperty this key property extensionInfo restrictedProperties scope in
  configurationDefaultsOverrides this' = configurationDefaultsOverrides this
  ∧ if validate && bool_decide (is_Some (validateProperty this key property))
    then this' = this
    else if isExcluded property
    then configurationProperties this' = configurationProperties this
         ∧ policyConfigurations this' = policyConfigurations this
         ∧ excludedConfigurationProperties this'
           = <[key := prepared]> (excludedConfigurationProperties this)
    else configurationProperties this'
         = <[key := defaultDeprecationMessage prepared]> (configurationProperties this)
         ∧ policyConfigurations this'
           = match policyName property with
             | Some name => <[name := key]> (policyConfigurations this)
             | None => policyConfigurations this
             end
         ∧ excludedConfigurationProperties this' = excludedConfigurationProperties this.
Proof.
  unfold registerEntry, registerProperty.
  destruct (validate && bool_decide (is_Some (validateProperty this key property)));
    [done|].
  cbn zeta. rewrite included_prepareProperty, policyName_stored. unfold isExcluded.
  destruct (included property) as [[[]|]|]; simpl; try done;
    by destruct (policyName property).
Qed.

Lemma validateProperty_passed this key property :
  validateProperty this key property = None →
  OVERRIDE_PROPERTY_REGEX_test key = false
  ∧ configurationProperties this !! key = None
  ∧ ∀ name, policyName property = Some name → policyConfigurations this !! name = None.
Proof.
  unfold validateProperty, getConfigurationProperties, getPolicyConfigurations.
  destruct (negb _); [done|].
  destruct (OVERRIDE_PROPERTY_REGEX_test key); [done|].
  destruct (configurationProperties this !! key) eqn:Hkey.
  { by rewrite bool_decide_eq_true_2 by done. }
  rewrite bool_decide_eq_false_2 by (by intros [? ?]).
  destruct (inherited key); [done|]. cbn [orb].
  intros Hpolicy. split; [done|]. split; [done|]. intros name Hname.
  rewrite Hname in Hpolicy. by destruct (policyConfigurations this !! name).
Qed.

(** X16: [registerConfiguration] with validation keeps the policy table
    exact: a policy name is claimed by a key exactly when the schema
    registered for that key names this policy. *)
Theorem registerConfiguration_policies_exact this configuration :
  policiesExact this → policiesExact (registered this configuration true).
Proof.
  apply registerConfiguration_invariant. clear this.
  intros kept this bucket [scope [key property]] _ Hexact.
  destruct (registerEntry_tables true (extensionInfo configuration)
              (restrictedProperties configuration) kept this bucket scope key property)
    as [_ Htables].
  cbn [andb] in Htables.
  destruct (validateProperty this key property) as [message|] eqn:Hvalid.
  { rewrite bool_decide_eq_true_2 in Htables by done. by rewrite Htables. }
  rewrite bool_decide_eq_false_2 in Htables by (by intros [? ?]).
  destruct (validateProperty_passed _ _ _ Hvalid) as (_ & Hfresh & Hunclaimed).
  unfold policiesExact in *. intros name key'.
  destruct (isExcluded property).
  { destruct Htables as (-> & -> & _). apply Hexact. }
  destruct Htables as (-> & -> & _).
  set (stored := defaultDeprecationMessage _).
  assert (policyName stored = policyName property) as Hstored
    by apply policyName_stored.
  destruct (decide (key' = key)) as [->|Hkey].
  - rewrite lookup_insert_eq. split.
    + destruct (policyName property) as [claimed|] eqn:Hpolicy.
      * destruct (decide (claimed = name)) as [->|Hname].
        -- intros _. by exists stored.
        -- rewrite lookup_insert_ne by done. intros Hclaimed.
           apply Hexact in Hclaimed as (other & Hother & _). congruence.
      * intros Hclaimed. apply Hexact in Hclaimed as (other & Hother & _). congruence.
    + intros (other & [= <-] & Hclaims). rewrite Hstored in Hclaims.
      rewrite Hclaims. by rewrite lookup_insert_eq.
  - rewrite lookup_insert_ne by done. rewrite <- Hexact.
    destruct (policyName property) as [claimed|] eqn:Hpolicy; [|done].
    destruct (decide (claimed = name)) as [->|Hname].
    + rewrite lookup_insert_eq, (Hunclaimed name eq_refl). split; congruence.
    + by rewrite lookup_insert_ne by done.
Qed.

(** X16 at the empty registry and a batch in which two keys name one policy. *)
Lemma registerConfiguration_policies_exact_witness :
  policiesExact (registered new mixedBatch true).
Proof.
  apply (registerConfiguration_policies_exact new mixedBatch).
  intros name key. simpl. rewrite lookup_empty. split; [done|].
  intros (property & Hproperty & _). by rewrite lookup_empty in Hproperty.
Defined.

(** X17: [registerConfiguration] with validation changes and removes
    nothing that is registered: the properties and the policy table only grow,
    and the recorded default overrides stay as they are. *)
Theorem registerConfiguration_keeps_registrations this configuration :
  configurationProperties this ⊆ configurationProperties (registered this configuration true)
  ∧ policyConfigurations this ⊆ policyConfigurations (registered this configuration true)
  ∧ configurationDefaultsOverrides (registered this configuration true)
    = configurationDefaultsOverrides this.
Proof.
  apply (registerConfiguration_invariant
           (fun this' =>
              configurationProperties this ⊆ configurationProperties this'
              ∧ policyConfigurations this ⊆ policyConfigurations this'
              ∧ configurationDefaultsOverrides this'
                = configurationDefaultsOverrides this)); [|done].
  intros kept this' bucket [scope [key property]] _
    (Hproperties & Hpolicies & Hdefaults).
  destruct (registerEntry_tables true (extensionInfo configuration)
              (restrictedProperties configuration) kept this' bucket scope key property)
    as [Hoverrides Htables].
  cbn [andb] in Htables. rewrite Hoverrides.
  destruct (validateProperty this' key property) as [message|] eqn:Hvalid.
  { rewrite bool_decide_eq_true_2 in Htables by done. by rewrite Htables. }
  rewrite bool_decide_eq_false_2 in Htables by (by intros [? ?]).
  destruct (validateProperty_passed _ _ _ Hvalid) as (_ & Hfresh & Hunclaimed).
  destruct (isExcluded property).
  { by destruct Htables as (-> & -> & _). }
  destruct Htables as (-> & -> & _).
  split; [|split; [|done]].
  - etrans; [exact Hproperties|]. by apply insert_subseteq.
  - destruct (policyName property) as [claimed|]; [|done].
    etrans; [exact Hpolicies|]. apply insert_subseteq. by apply Hunclaimed.
Qed.

(** X18: the schema [registerConfiguration] with validation registers for a
    key that was not registered comes from a property of the node with this
    key: its scope is the own scope of the property or the one its node passes
    on, it is restricted as the property says or as the node lists the key,
    its default is the recorded default override, the own default or the
    default of its type, its [defaultDefaultValue] is the declared default,
    its source is the extension of the node, and its policy is the declared
    one. *)
Theorem registerConfiguration_records this configuration key registered :
  configurationProperties this !! key = None →
  configurationProperties (Catalogue.registered this configuration true) !! key
  = Some registered →
  ∃ scope property,
    (scope, (key, property)) ∈ entriesOf configuration WINDOW
    ∧ ConfigurationRegistry.scope registered = Some (resolvedScope scope property)
    ∧ restricted registered
      = Some (resolvedRestricted (restrictedProperties configuration) key property)
    ∧ default registered = Some (resolvedDefault this key property)
    ∧ defaultDefaultValue registered = default property
    ∧ source registered = extensionInfo configuration
    ∧ policy registered = policy property.
Proof.
  intros Hnew. revert registered.
  assert (let this' := Catalogue.registered this configuration true in
          configurationDefaultsOverrides this' = configurationDefaultsOverrides this
          ∧ ∀ registered,
              configurationProperties this' !! key = Some registered →
              ∃ scope property,
                (scope, (key, property)) ∈ entriesOf configuration WINDOW
                ∧ ConfigurationRegistry.scope registered
                  = Some (resolvedScope scope property)
                ∧ restricted registered
                  = Some (resolvedRestricted (restrictedProperties configuration)
                            key property)
                ∧ default registered = Some (resolvedDefault this key property)
                ∧ defaultDefaultValue registered = default property
                ∧ source registered = extensionInfo configuration
                ∧ policy registered = policy property) as [_ Hrecords]; [|done].
  apply (registerConfiguration_invariant
           (fun this' =>
              configurationDefaultsOverrides this' = configurationDefaultsOverrides this
              ∧ ∀ registered,
                  configurationProperties this' !! key = Some registered →
                  ∃ scope property,
                    (scope, (key, property)) ∈ entriesOf configuration WINDOW
                    ∧ ConfigurationRegistry.scope registered
                      = Some (resolvedScope scope property)
                    ∧ restricted registered
                      = Some (resolvedRestricted (restrictedProperties configuration)
                                key property)
                    ∧ default registered = Some (resolvedDefault this key property)
                    ∧ defaultDefaultValue registered = default property
                    ∧ source registered = extensionInfo configuration
                    ∧ policy registered = policy property));
    [|split; [done|by rewrite Hnew]].
  intros kept this' bucket [scope [key' property]] Hentry [Hsame Hsofar].
  destruct (registerEntry_tables true (extensionInfo configuration)
              (restrictedProperties configuration) kept this' bucket scope key' property)
    as [Hoverrides Htables].
  cbn [andb] in Htables. rewrite Hoverrides. split; [done|].
  destruct (validateProperty this' key' property) as [message|] eqn:Hvalid.
  { rewrite bool_decide_eq_true_2 in Htables by done. by rewrite Htables. }
  rewrite bool_decide_eq_false_2 in Htables by (by intros [? ?]).
  destruct (validateProperty_passed _ _ _ Hvalid) as (Hplain & Hfresh & _).
  destruct (isExcluded property).
  { by destruct Htables as (-> & _). }
  destruct Htables as (-> & _). intros registered.
  destruct (decide (key' = key)) as [->|Hother];
    [|rewrite lookup_insert_ne by done; apply Hsofar].
  rewrite lookup_insert_eq. intros [= <-]. exists scope, property. split; [done|].
  destruct (defaultDeprecationMessage_kept
              (prepareProperty this' key property (extensionInfo configuration)
                 (restrictedProperties configuration) scope))
    as (-> & -> & -> & -> & -> & ->).
  destruct (prepareProperty_kept this' key property (extensionInfo configuration)
              (restrictedProperties configuration) scope)
    as (-> & _ & -> & -> & ->).
  destruct (prepareProperty_plain this' key property (extensionInfo configuration)
              (restrictedProperties configuration) scope Hplain) as (-> & ->).
  unfold resolvedDefault, Defaults.storedDefault. by rewrite Hsame.
Qed.

(** X18 at [editor.fontSize] of a batch registered into the empty registry. *)
Lemma registerConfiguration_records_witness :
  ∃ registered scope property,
    configurationProperties (Catalogue.registered new mixedBatch true) !! "editor.fontSize"
    = Some registered
    ∧ (scope, ("editor.fontSize", property)) ∈ entriesOf mixedBatch WINDOW
    ∧ ConfigurationRegistry.scope registered = Some (resolvedScope scope property)
    ∧ default registered = Some (resolvedDefault new "editor.fontSize" property).
Proof.
  destruct (configurationProperties (Catalogue.registered new mixedBatch true)
              !! "editor.fontSize") as [registered|] eqn:Hregistered;
    [|vm_compute in Hregistered; discriminate Hregistered].
  destruct (registerConfiguration_records new mixedBatch "editor.fontSize" registered)
    as (scope & property & Hentry & Hscope & _ & Hdefault & _).
  - reflexivity.
  - exact Hregistered.
  - exists registered, scope, property. split; [reflexivity|].
    split; [exact Hentry|]. split; [exact Hscope|exact Hdefault].
Defined.

(** Every schema a batch leaves in the registry has a default. *)
Lemma registerConfiguration_defaults_defined this configuration validate :
  defaultsDefined this → defaultsDefined (Catalogue.registered this configuration validate).
Proof.
  apply registerConfiguration_invariant. clear this.
  intros kept this bucket [scope [key property]] _ Hdefined.
  destruct (registerEntry_tables validate (extensionInfo configuration)
              (restrictedProperties configuration) kept this bucket scope key property)
    as [_ Htables].
  destruct (validate && _); [by rewrite Htables|].
  destruct (prepareProperty_kept this key property (extensionInfo configuration)
              (restrictedProperties configuration) scope)
    as (_ & _ & _ & _ & Hdefault).
  unfold defaultsDefined in *. intros key' property'.
  destruct (isExcluded property); destruct Htables as (-> & _ & ->);
    (destruct (decide (key = key')) as [<-|Hother];
     [rewrite lookup_insert_eq|rewrite lookup_insert_ne by done; apply Hdefined]).
  - intros [?|[= <-]]; [by eapply Hdefined; left|]. by rewrite Hdefault.
  - intros [[= <-]|?]; [|by eapply Hdefined; right].
    destruct (defaultDeprecationMessage_kept
                (prepareProperty this key property (extensionInfo configuration)
                   (restrictedProperties configuration) scope))
      as (_ & _ & _ & _ & -> & _).
    by rewrite Hdefault.
Qed.

End CatalogueInvariants.

(** ** Default overrides of override sections *)

Section DefaultsOfSections.

Import ConfigurationRegistry Defaults Catalogue SectionDefaults.

Lemma foldOutcome_invariant {A B} (Inv : A → Prop) (f : A → B → outcome A) l :
  (∀ a b a', Inv a → f a b = Returned a' → Inv a') →
  ∀ a a', Inv a → foldOutcome f a l = Returned a' → Inv a'.
Proof.
  intros Hstep. induction l as [|b l IH]; intros a a' Ha; simpl.
  - by intros [= <-].
  - destruct (f a b) as [a1| |] eqn:Hb; simpl; [|done|done].
    apply IH. by eapply Hstep.
Qed.

(** What holds of the registry before a contribution of defaults and is kept
    by every key of it holds after the contribution. *)
Lemma registerDefaultConfigurations_invariant (Inv : t → Prop) :
  (∀ this v, Inv this → Inv (set_registeredConfigurationDefaults v this)) →
  (∀ this v, Inv this → Inv (set_overrideIdentifiers v this)) →
  (∀ source this bucket identifiers entry this' bucket' identifiers',
     Inv this →
     registerDefaultConfiguration source (this, bucket, identifiers) entry
     = Returned (this', bucket', identifiers') →
     Inv this') →
  ∀ this configurationDefaults this' bucket,
    Inv this →
    registerDefaultConfigurations this configurationDefaults = Returned (this', bucket) →
    Inv this'.
Proof.
  intros Hpushed Hidentifiers Hstep this configurationDefaults this' bucket Hthis.
  unfold registerDefaultConfigurations, doRegisterDefaultConfigurations.
  destruct (foldOutcome _ _ configurationDefaults) as [[[that bucket'] identifiers]| |]
    eqn:Hfold; simpl; [|done|done].
  intros [= <- <-]. apply Hidentifiers.
  apply (foldOutcome_invariant (fun st => Inv st.1.1) _ _) in Hfold; [done| |].
  - intros [[a bucketa] idsa] contribution [[a' bucketa'] idsa'] Ha Hcontribution.
    apply (foldOutcome_invariant (fun st => Inv st.1.1) _ _) in Hcontribution; [done| |done].
    intros [[b bucketb] idsb] entry [[b' bucketb'] idsb'] Hb Hentry. simpl in *.
    by eapply Hstep.
  - simpl. by apply Hpushed.
Qed.

Lemma default_updatePropertyDefaultValue this key property :
  is_Some (default (updatePropertyDefaultValue this key property)).
Proof.
  unfold updatePropertyDefaultValue, with_default.
  repeat (match goal with
          | |- context [let '(_, _) := ?x in _] => destruct x
          | |- context [match ?x with _ => _ end] => destruct x
          end; simpl); eauto.
Qed.

(** X19: when every schema the registry holds, registered or excluded, has
    a default, this is so after [registerConfiguration], with or without
    validation, and after a [registerDefaultConfigurations] that returns. *)
Theorem registry_defaults_defined this :
  defaultsDefined this →
  (∀ configuration validate, defaultsDefined (registered this configuration validate))
  ∧ ∀ configurationDefaults this' bucket,
      registerDefaultConfigurations this configurationDefaults = Returned (this', bucket) →
      defaultsDefined this'.
Proof.
  intros Hthis. split; [intros; by apply registerConfiguration_defaults_defined|].
  intros configurationDefaults this' bucket.
  apply registerDefaultConfigurations_invariant; [done|done| |done].
  clear. intros source this bucket identifiers [key v] this' bucket' identifiers' Hdefined.
  unfold registerDefaultConfiguration.
  destruct (OVERRIDE_PROPERTY_REGEX_test key).
  - destruct (mergeDefaultConfigurationsForOverrideIdentifier _ _ _ _)
      as [[stored|]| |]; [| |done|done].
    + intros [= <- _ _]. intros key' property. simpl.
      destruct (decide (key = key')) as [<-|Hother].
      * rewrite lookup_insert_eq. intros [[= <-]|?]; [by eexists|].
        eapply Hdefined. by right.
      * rewrite lookup_insert_ne by done. apply Hdefined.
    + intros [= <- _ _]. exact Hdefined.
  - destruct (mergeDefaultConfigurationsForConfigurationProperty _ _ _ _ _)
      as [stored|]; [|intros [= <- _ _]; exact Hdefined].
    simpl. destruct (configurationProperties this !! key) as [property|] eqn:Hkey.
    + intros [= <- _ _]. intros key' property'. simpl.
      destruct (decide (key = key')) as [<-|Hother].
      * rewrite lookup_insert_eq. intros [[= <-]|?]; [|eapply Hdefined; by right].
        apply default_updatePropertyDefaultValue.
      * rewrite lookup_insert_ne by done. apply Hdefined.
    + intros [= <- _ _]. exact Hdefined.
Qed.

(** X19 at the empty registry: after a batch of properties and after a
    contribution of defaults. *)
Lemma registry_defaults_defined_witness :
  defaultsDefined (registered new Batch.mixedBatch true)
  ∧ defaultsDefined afterFirst.
Proof.
  destruct (registry_defaults_defined new) as [Hbatch Hdefaults].
  - intros key property. simpl. rewrite !lookup_empty. by intros [?|?].
  - split; [apply Hbatch|].
    destruct (registerDefaultConfigurations new [firstContribution])
      as [[this' bucket]| |] eqn:Hcall;
      [|vm_compute in Hcall; discriminate Hcall..].
    unfold afterFirst. rewrite Hcall. by apply (Hdefaults _ _ _ Hcall).
Defined.

Lemma mergeOverrideIdentifierProperty_value valueSource defaultValue sources
    propertyKey propertyDefaultValue :
  (mergeOverrideIdentifierProperty valueSource (defaultValue, sources)
     (propertyKey, propertyDefaultValue)).1
  = <[propertyKey := mergedEntry (defaultValue !! propertyKey) propertyDefaultValue]>
      defaultValue.
Proof.
  unfold mergeOverrideIdentifierProperty, mergedEntry, inheritsFunction.
  destruct propertyDefaultValue; try done.
  destruct (defaultValue !! propertyKey) as [[]|] eqn:Hexisting; try done.
  rewrite bool_decide_eq_true_2 by done.
  destruct (inherited propertyKey); [|done].
  destruct (String.eqb propertyKey "__proto__"); [done|].
  simpl. unfold spread. by rewrite (right_id_L ∅ (∪)).
Qed.

(** The value the loop over a contributed section leaves. *)
Lemma foldl_mergeOverrideIdentifierProperty valueSource entries : ∀ defaultValue sources,
  NoDup entries.*1 →
  ∀ propertyKey,
    (foldl (mergeOverrideIdentifierProperty valueSource) (defaultValue, sources) entries).1
      !! propertyKey
    = match (list_to_map entries : gmap string value) !! propertyKey with
      | Some contributed => Some (mergedEntry (defaultValue !! propertyKey) contributed)
      | None => defaultValue !! propertyKey
      end.
Proof.
  induction entries as [|[key v] entries IH]; intros defaultValue sources Hkeys propertyKey.
  - simpl. by rewrite lookup_empty.
  - apply NoDup_cons in Hkeys as [Hkey Hkeys]. cbn [foldl].
    destruct (mergeOverrideIdentifierProperty valueSource (defaultValue, sources) (key, v))
      as [defaultValue1 sources1] eqn:Hstep.
    pose proof (mergeOverrideIdentifierProperty_value valueSource defaultValue sources key v)
      as Hvalue. rewrite Hstep in Hvalue. simpl in Hvalue. subst defaultValue1.
    rewrite IH by done. simpl.
    destruct (decide (key = propertyKey)) as [<-|Hother].
    + rewrite lookup_insert_eq.
      rewrite (not_elem_of_list_to_map_1 entries key) by done.
      by rewrite lookup_insert_eq.
    + by rewrite !lookup_insert_ne by done.
Qed.

Lemma trackSources_kept propertyKey (contributed : gmap string value) valuesSource
    sources path :
  sources !! path = Some valuesSource →
  trackSources propertyKey contributed valuesSource sources !! path = Some valuesSource.
Proof.
  intros Hpath. unfold trackSources.
  apply (map_fold_weak_ind (fun result _ => result !! path = Some valuesSource)); [done|].
  intros objectKey v m result _ Hresult.
  destruct (decide (propertyKey +:+ "." +:+ objectKey = path)) as [<-|Hother].
  - by rewrite lookup_insert_eq.
  - by rewrite lookup_insert_ne.
Qed.

Lemma mergeOverrideIdentifierProperty_kept valueSource defaultValue sources entry path :
  sources !! path = Some valueSource →
  (mergeOverrideIdentifierProperty (Some valueSource) (defaultValue, sources) entry).2
    !! path = Some valueSource.
Proof.
  intros Hpath. destruct entry as [propertyKey v]. unfold mergeOverrideIdentifierProperty.
  destruct (_ && _); simpl.
  - by apply trackSources_kept.
  - destruct (decide (propertyKey = path)) as [<-|Hother].
    + by rewrite lookup_insert_eq.
    + by rewrite lookup_insert_ne.
Qed.

Lemma foldl_mergeOverrideIdentifierProperty_kept valueSource entries path :
  ∀ defaultValue sources,
  sources !! path = Some valueSource →
  (foldl (mergeOverrideIdentifierProperty (Some valueSource)) (defaultValue, sources)
     entries).2 !! path = Some valueSource.
Proof.
  induction entries as [|entry entries IH]; intros defaultValue sources Hpath; [done|].
  cbn [foldl].
  pose proof (mergeOverrideIdentifierProperty_kept valueSource defaultValue sources
                entry path Hpath) as Hstep.
  destruct (mergeOverrideIdentifierProperty _ _ entry) as [defaultValue1 sources1].
  by apply IH.
Qed.

(** The provenance the loop over a contributed section leaves, when the
    contribution names its source. *)
Lemma foldl_mergeOverrideIdentifierProperty_sources valueSource entries :
  ∀ defaultValue sources,
  NoDup entries.*1 →
  (∀ entry, entry ∈ entries → inherited entry.1 = false) →
  ∀ propertyKey v,
    (propertyKey, v) ∈ entries →
    let final :=
      (foldl (mergeOverrideIdentifierProperty (Some valueSource)) (defaultValue, sources)
         entries).2 in
    if spreads (defaultValue !! propertyKey) v
    then ∀ c objectKey, v = JObj c → is_Some (c !! objectKey) →
                        final !! (propertyKey +:+ "." +:+ objectKey) = Some valueSource
    else final !! propertyKey = Some valueSource.
Proof.
  induction entries as [|[key v'] entries IH];
    intros defaultValue sources Hkeys Hown propertyKey v Hentry.
  { by apply elem_of_nil in Hentry. }
  apply NoDup_cons in Hkeys as [Hkey Hkeys]. cbn [foldl].
  pose proof (mergeOverrideIdentifierProperty_value (Some valueSource) defaultValue
                sources key v') as Hvalue.
  destruct (mergeOverrideIdentifierProperty (Some valueSource) (defaultValue, sources)
              (key, v')) as [defaultValue1 sources1] eqn:Hstep.
  simpl in Hvalue. subst defaultValue1.
  apply elem_of_cons in Hentry as [[= -> ->]|Hentry].
  - revert Hstep. unfold mergeOverrideIdentifierProperty, inheritsFunction.
    pose proof (Hown (key, v') (list_elem_of_here _ _)) as Hnot. simpl in Hnot.
    rewrite Hnot, andb_false_r. cbn [negb andb]. rewrite andb_true_r.
    fold (spreads (defaultValue !! key) v').
    destruct (spreads (defaultValue !! key) v') eqn:Hspreads.
    + intros [= _ <-] c objectKey -> Hc.
      apply foldl_mergeOverrideIdentifierProperty_kept.
      by apply trackSources_spec.
    + intros [= _ <-]. apply foldl_mergeOverrideIdentifierProperty_kept.
      by rewrite lookup_insert_eq.
  - assert (propertyKey ≠ key) as Hother.
    { intros ->. apply Hkey. apply list_elem_of_fmap. by exists (key, v). }
    assert (∀ entry, entry ∈ entries → inherited entry.1 = false) as Hrest'.
    { intros entry Hin. apply Hown. by apply list_elem_of_further. }
    pose proof (IH (<[key := mergedEntry (defaultValue !! key) v']> defaultValue)
                  sources1 Hkeys Hrest' propertyKey v Hentry) as Hrest.
    by rewrite lookup_insert_ne in Hrest by done.
Qed.

(** X20: an object contributed for an override-section key whose recorded
    default is absent, or an object with a map as provenance, and whose
    properties have none of the names that objects inherit ([toString],
    [constructor], ...), is merged into an object: a contributed property
    replaces what is recorded, save that two objects are spread into one; a
    property that is not contributed stays; and the provenance names the
    contributing extension for every contributed property, key by key for an
    object that is spread. *)
Theorem mergeDefaultConfigurationsForOverrideIdentifier_value
    overrideIdentifier contributed valueSource existingDefaultOverride :
  (∀ previous, existingDefaultOverride = Some previous →
               (∃ o, value_of previous = JObj o)
               ∧ ∃ m, source_of previous = Some (FromMap m)) →
  (∀ propertyKey, is_Some (contributed !! propertyKey) →
                  inherited propertyKey = false) →
  ∃ merged sources,
    mergeDefaultConfigurationsForOverrideIdentifier overrideIdentifier (JObj contributed)
      valueSource existingDefaultOverride
    = Returned (Some (mkDefaultOverrideValue (JObj merged) (Some (FromMap sources))))
    ∧ (∀ propertyKey,
         merged !! propertyKey
         = match contributed !! propertyKey with
           | Some v =>
               Some (mergedEntry (recorded existingDefaultOverride !! propertyKey) v)
           | None => recorded existingDefaultOverride !! propertyKey
           end)
    ∧ ∀ extension propertyKey v,
        valueSource = Some extension →
        contributed !! propertyKey = Some v →
        if spreads (recorded existingDefaultOverride !! propertyKey) v
        then ∀ c objectKey, v = JObj c → is_Some (c !! objectKey) →
                            sources !! (propertyKey +:+ "." +:+ objectKey)
                            = Some extension
        else sources !! propertyKey = Some extension.
Proof.
  intros Hprevious Hown. unfold mergeDefaultConfigurationsForOverrideIdentifier.
  assert (∃ sources, existingDefaultOverride ≫= source_of = sources
                     ∧ ∀ extension, sources ≠ Some (FromExtension extension))
    as (known & -> & Hknown).
  { eexists. split; [reflexivity|]. intros extension.
    destruct existingDefaultOverride as [previous|]; [|done].
    destruct (Hprevious previous eq_refl) as [_ [m Hm]]. simpl. by rewrite Hm. }
  cbn [ownProperties outcome_bind].
  set (sources0 := match known with Some (FromMap m) => m | _ => ∅ end).
  destruct (foldl (mergeOverrideIdentifierProperty valueSource)
              (recorded existingDefaultOverride, sources0)
              (map_to_list contributed)) as [merged sources] eqn:Hfold.
  exists merged, sources. split; [|split].
  - assert (match known with
            | Some (FromExtension _) => False
            | _ => True
            end) as Hmap.
    { destruct known as [[extension|m]|]; [by destruct (Hknown extension)|done|done]. }
    destruct existingDefaultOverride as [previous|].
    + destruct (Hprevious previous eq_refl) as [[o Ho] _].
      unfold recorded in Hfold. rewrite Ho in Hfold. simpl. rewrite Ho. simpl.
      subst sources0.
      destruct known as [[extension|m]|]; [done| |]; by rewrite Hfold.
    + simpl. unfold recorded in Hfold. subst sources0.
      destruct known as [[extension|m]|]; [done| |]; by rewrite Hfold.
  - intros propertyKey.
    pose proof (foldl_mergeOverrideIdentifierProperty valueSource
                  (map_to_list contributed) (recorded existingDefaultOverride) sources0
                  (NoDup_fst_map_to_list contributed) propertyKey) as Hvalue.
    rewrite Hfold in Hvalue. simpl in Hvalue.
    by rewrite list_to_map_to_list in Hvalue.
  - intros extension propertyKey v -> Hv.
    pose proof (foldl_mergeOverrideIdentifierProperty_sources extension
                  (map_to_list contributed) (recorded existingDefaultOverride) sources0
                  (NoDup_fst_map_to_list contributed)) as Hsources.
    rewrite Hfold in Hsources. apply Hsources; [|by apply elem_of_map_to_list].
    intros [name x] Hin%elem_of_map_to_list. apply Hown. by exists x.
Qed.

Lemma mergeDefaultConfigurationsForOverrideIdentifier_shape
    overrideIdentifier v valueSource existingDefaultOverride stored :
  (∀ previous, existingDefaultOverride = Some previous →
               (∃ o, value_of previous = JObj o)
               ∧ ∃ m, source_of previous = Some (FromMap m)) →
  mergeDefaultConfigurationsForOverrideIdentifier overrideIdentifier v valueSource
    existingDefaultOverride = Returned (Some stored) →
  (∃ o, value_of stored = JObj o) ∧ ∃ m, source_of stored = Some (FromMap m).
Proof.
  intros Hprevious. unfold mergeDefaultConfigurationsForOverrideIdentifier.
  destruct (existingDefaultOverride ≫= source_of) as [[extension|m]|]; [done| |];
    (destruct (ownProperties (Some v)) as [entries| |]; [|done|done]);
    cbn [outcome_bind];
    (destruct existingDefaultOverride as [previous|];
     [destruct (Hprevious previous eq_refl) as [[o Ho] _]; simpl; rewrite Ho; simpl|simpl]);
    match goal with
    | |- context [foldl ?f ?a ?l] => destruct (foldl f a l) as [merged sources]
    end;
    intros [= <-]; eauto.
Qed.

Lemma storedDefault_insert this key entry key' :
  storedDefault
    (set_configurationDefaultsOverrides
       (<[key := entry]> (configurationDefaultsOverrides this)) this) key'
  = if decide (key = key') then configurationDefaultOverrideValue entry
    else storedDefault this key'.
Proof.
  unfold storedDefault. simpl. destruct (decide (key = key')) as [<-|Hother].
  - by rewrite lookup_insert_eq.
  - by rewrite lookup_insert_ne.
Qed.

(** One contributed key keeps the provenance of the override-section defaults
    a map. *)
Lemma registerDefaultConfiguration_sources_are_maps source this bucket identifiers entry
    this' bucket' identifiers' :
  sourcesAreMaps this →
  registerDefaultConfiguration source (this, bucket, identifiers) entry
  = Returned (this', bucket', identifiers') →
  sourcesAreMaps this'.
Proof.
  destruct entry as [key v]. intros Hmaps.
  unfold registerDefaultConfiguration.
  set (forKey := match configurationDefaultsOverrides this !! key with
                 | Some e => e
                 | None => mkEntry [] None
                 end).
  assert (configurationDefaultOverrideValue forKey = storedDefault this key) as Hstored.
  { unfold forKey, storedDefault. by destruct (configurationDefaultsOverrides this !! key). }
  cbn [configurationDefaultOverrides configurationDefaultOverrideValue].
  destruct (OVERRIDE_PROPERTY_REGEX_test key) eqn:Hpattern.
  - destruct (mergeDefaultConfigurationsForOverrideIdentifier _ _ _ _)
      as [[stored|]| |] eqn:Hmerge; [| |done|done].
    + intros [= <- _ _]. intros key' stored' Hkey'.
      unfold updateDefaultOverrideProperty, storedDefault. simpl.
      destruct (decide (key = key')) as [<-|Hother].
      * rewrite lookup_insert_eq. simpl. intros [= <-].
        eapply mergeDefaultConfigurationsForOverrideIdentifier_shape; [|exact Hmerge].
        intros previous Hprevious. apply (Hmaps key); [done|]. by rewrite <- Hstored.
      * rewrite !lookup_insert_ne by done. by apply Hmaps.
    + intros [= <- _ _]. intros key' stored' Hkey'. rewrite storedDefault_insert.
      destruct (decide (key = key')) as [<-|Hother]; [|by apply Hmaps].
      simpl. rewrite Hstored. by apply Hmaps.
  - assert (∀ that key' stored',
              OVERRIDE_PROPERTY_REGEX_test key' = true →
              (∀ k, k ≠ key → storedDefault that k = storedDefault this k) →
              storedDefault that key' = Some stored' →
              (∃ o, value_of stored' = JObj o)
              ∧ ∃ m, source_of stored' = Some (FromMap m)) as Hplain.
    { intros that key' stored' Hkey' Hsame. rewrite Hsame by congruence. by apply Hmaps. }
    destruct (mergeDefaultConfigurationsForConfigurationProperty _ _ _ _ _) as [stored|].
    + intros [= <- _ _]. intros key' stored' Hkey'. apply Hplain; [done|].
      intros k Hk. unfold storedDefault.
      destruct (configurationProperties _ !! key); simpl;
        by rewrite !lookup_insert_ne by done.
    + intros [= <- _ _]. intros key' stored' Hkey'. apply Hplain; [done|].
      intros k Hk. by rewrite storedDefault_insert, decide_False by done.
Qed.

(** X20 at the first contribution [{editor.tabSize: 2}] for [[typescript]]. *)
Lemma mergeDefaultConfigurationsForOverrideIdentifier_value_witness :
  ∃ merged sources,
    mergeDefaultConfigurationsForOverrideIdentifier "typescript"
      (JObj {[ "editor.tabSize" := JNum 2 ]}) (Some "ext1") None
    = Returned (Some (mkDefaultOverrideValue (JObj merged) (Some (FromMap sources))))
    ∧ merged !! "editor.tabSize" = Some (JNum 2)
    ∧ sources !! "editor.tabSize" = Some "ext1".
Proof.
  destruct (mergeDefaultConfigurationsForOverrideIdentifier_value "typescript"
              {[ "editor.tabSize" := JNum 2 ]} (Some "ext1") None)
    as (merged & sources & Hcall & Hmerged & Hsources).
  - intros previous Hprevious. discriminate Hprevious.
  - intros propertyKey [v [<- _]%lookup_singleton_Some]. reflexivity.
  - exists merged, sources. split; [exact Hcall|]. split.
    + by rewrite Hmerged.
    + apply (Hsources "ext1" "editor.tabSize" (JNum 2)); reflexivity.
Defined.

(** For a contributed property whose name objects inherit and the recorded
    section does not bind, nothing is spread: the contributed object
    [{x: 1}] for [toString] is recorded as it is, and the provenance names the
    extension under [toString], not under [toString.x]. *)
Lemma mergeDefaultConfigurationsForOverrideIdentifier_inherited_name :
  mergeDefaultConfigurationsForOverrideIdentifier "[typescript]"
    (JObj {[ "toString" := JObj {[ "x" := JNum 1 ]} ]}) (Some "ext1") None
  = Returned (Some (mkDefaultOverrideValue
                      (JObj {[ "toString" := JObj {[ "x" := JNum 1 ]} ]})
                      (Some (FromMap {[ "toString" := "ext1" ]})))).
Proof. vm_compute. reflexivity. Qed.

(** X21: when the recorded default of every override-section key is an
    object whose provenance is a map, this is so after a
    [registerDefaultConfigurations] that returns. *)
Theorem registerDefaultConfigurations_sources_are_maps this configurationDefaults
    this' bucket :
  sourcesAreMaps this →
  registerDefaultConfigurations this configurationDefaults = Returned (this', bucket) →
  sourcesAreMaps this'.
Proof.
  apply registerDefaultConfigurations_invariant; [done|done|].
  intros source that bucket' identifiers entry. apply
    registerDefaultConfiguration_sources_are_maps.
Qed.

(** X21 at the empty registry and a contribution for [[typescript]]. *)
Lemma registerDefaultConfigurations_sources_are_maps_witness :
  ∃ this' bucket,
    registerDefaultConfigurations new [typescriptDefaults] = Returned (this', bucket)
    ∧ sourcesAreMaps this'.
Proof.
  destruct (registerDefaultConfigurations new [typescriptDefaults])
    as [[this' bucket]| |] eqn:Hcall;
    [|vm_compute in Hcall; discriminate Hcall..].
  exists this', bucket. split; [reflexivity|].
  apply (registerDefaultConfigurations_sources_are_maps new [typescriptDefaults]
           this' bucket); [|exact Hcall].
  intros key stored _ Hstored. unfold storedDefault in Hstored. simpl in Hstored.
  by rewrite lookup_empty in Hstored.
Defined.

(** X22: an object contributed as the default of a key registered with type
    [object] is set aside when the default recorded for the key came from an
    extension as a single source: the key is reported, and the recorded
    default and the registered properties stay as they are. *)
Theorem registerDefault_object_after_plain_value this bucket identifiers source key
    contributed property previous extension :
  OVERRIDE_PROPERTY_REGEX_test key = false →
  configurationProperties this !! key = Some property →
  is_object_type (type property) = true →
  storedDefault this key = Some previous →
  source_of previous = Some (FromExtension extension) →
  ∃ this',
    registerDefaultConfiguration source (this, bucket, identifiers) (key, JObj contributed)
    = Returned (this', bucket ∪ {[ key ]}, identifiers)
    ∧ storedDefault this' key = Some previous
    ∧ configurationProperties this' = configurationProperties this.
Proof.
  intros Hplain Hproperty Htype Hprevious Hsource.
  unfold registerDefaultConfiguration. rewrite Hplain.
  set (forKey := match configurationDefaultsOverrides this !! key with
                 | Some e => e
                 | None => mkEntry [] None
                 end).
  assert (configurationDefaultOverrideValue forKey = Some previous) as Hstored.
  { rewrite <- Hprevious. unfold forKey, storedDefault.
    by destruct (configurationDefaultsOverrides this !! key). }
  cbn [configurationDefaultOverrides configurationDefaultOverrideValue].
  rewrite Hstored.
  assert (mergeDefaultConfigurationsForConfigurationProperty
            (set_configurationDefaultsOverrides
               (<[key := mkEntry (configurationDefaultOverrides forKey
                                    ++ [mkDefaultOverride (JObj contributed) source])
                                 (Some previous)]>
                  (configurationDefaultsOverrides this)) this)
            key (JObj contributed) source (Some previous) = None) as ->.
  { unfold mergeDefaultConfigurationsForConfigurationProperty.
    change (configurationProperties (set_configurationDefaultsOverrides _ this))
      with (configurationProperties this).
    rewrite Hproperty, Htype. simpl. by rewrite Hsource. }
  eexists. split; [reflexivity|]. split; [|done].
  rewrite storedDefault_insert. by rewrite decide_True.
Qed.

(** X22 at the key [k] of type [object] for which an extension contributed
    [5]. *)
Lemma registerDefault_object_after_plain_value_witness :
  ∃ this',
    registerDefaultConfiguration (Some "ext2") (plainDefaultRecorded, ∅, [])
      ("k", JObj {[ "a" := JNum 1 ]})
    = Returned (this', ∅ ∪ {[ "k" ]}, [])
    ∧ storedDefault this' "k"
      = Some (mkDefaultOverrideValue (JNum 5) (Some (FromExtension "ext1"))).
Proof.
  destruct (configurationProperties plainDefaultRecorded !! "k") as [property|] eqn:Hproperty;
    [|vm_compute in Hproperty; discriminate Hproperty].
  destruct (registerDefault_object_after_plain_value plainDefaultRecorded ∅ []
              (Some "ext2") "k" {[ "a" := JNum 1 ]} property
              (mkDefaultOverrideValue (JNum 5) (Some (FromExtension "ext1"))) "ext1")
    as (this' & Hcall & Hstored & _).
  - reflexivity.
  - exact Hproperty.
  - revert Hproperty. vm_compute. by intros [= <-].
  - reflexivity.
  - reflexivity.
  - exists this'. split; [exact Hcall|exact Hstored].
Defined.

End DefaultsOfSections.

(** ** Keys and identifiers of contributed defaults *)

Section IdentifiersOfDefaults.

Import ConfigurationRegistry Defaults Catalogue SectionDefaults Contributed.

Lemma foldOutcome_each {A B} (Inv : A → Prop) (Q : B → A → Prop)
    (f : A → B → outcome A) l :
  (∀ a b a', Inv a → f a b = Returned a' →
             Inv a' ∧ Q b a' ∧ ∀ b0, Q b0 a → Q b0 a') →
  ∀ a a', Inv a → foldOutcome f a l = Returned a' →
          Inv a' ∧ (∀ b, b ∈ l → Q b a') ∧ ∀ b0, Q b0 a → Q b0 a'.
Proof.
  intros Hstep. induction l as [|b l IH]; intros a a' Ha; simpl.
  - intros [= <-]. split; [done|]. split; [|done]. by intros b ?%elem_of_nil.
  - destruct (f a b) as [a1| |] eqn:Hb; simpl; [|done|done].
    intros Hrest. destruct (Hstep a b a1 Ha Hb) as (Ha1 & Hb1 & Hkept1).
    destruct (IH a1 a' Ha1 Hrest) as (Ha' & Hl & Hkept).
    split; [done|]. split; [|by auto].
    intros b' [->|Hb']%elem_of_cons; [by apply Hkept|by apply Hl].
Qed.

(** Merging into an override-section default whose provenance is a map never
    sets the contribution aside. *)
Lemma mergeDefaultConfigurationsForOverrideIdentifier_stores
    overrideIdentifier v valueSource existingDefaultOverride :
  (∀ previous, existingDefaultOverride = Some previous →
               (∃ o, value_of previous = JObj o)
               ∧ ∃ m, source_of previous = Some (FromMap m)) →
  mergeDefaultConfigurationsForOverrideIdentifier overrideIdentifier v valueSource
    existingDefaultOverride ≠ Returned None.
Proof.
  intros Hprevious. unfold mergeDefaultConfigurationsForOverrideIdentifier.
  assert (∀ e, existingDefaultOverride ≫= source_of ≠ Some (FromExtension e)) as Hsource.
  { intros e. destruct existingDefaultOverride as [previous|]; [|done].
    destruct (Hprevious previous eq_refl) as [_ [m Hm]]. simpl. by rewrite Hm. }
  destruct (existingDefaultOverride ≫= source_of) as [[extension|m]|];
    [by destruct (Hsource extension)| |];
    (destruct (ownProperties (Some v)) as [entries| |]; [|done|done]);
    cbn [outcome_bind];
    (destruct existingDefaultOverride as [previous|];
     [destruct (Hprevious previous eq_refl) as [[o Ho] _]; simpl; rewrite Ho; simpl|simpl]);
    match goal with
    | |- context [foldl ?f ?a ?l] => by destruct (foldl f a l) as [merged sources]
    end.
Qed.

(** One contributed key: the invariant is kept, the key is recorded, and what
    was recorded stays recorded. *)
Lemma registerDefaultConfiguration_records source this bucket identifiers entry
    this' bucket' identifiers' :
  sourcesAreMaps this →
  registerDefaultConfiguration source (this, bucket, identifiers) entry
  = Returned (this', bucket', identifiers') →
  sourcesAreMaps this'
  ∧ recordedEntry entry (this', bucket', identifiers')
  ∧ ∀ earlier, recordedEntry earlier (this, bucket, identifiers) →
               recordedEntry earlier (this', bucket', identifiers').
Proof.
  intros Hmaps Hstep.
  split; [by eapply registerDefaultConfiguration_sources_are_maps|].
  destruct entry as [key v]. revert Hstep. unfold registerDefaultConfiguration.
  set (forKey := match configurationDefaultsOverrides this !! key with
                 | Some e => e
                 | None => mkEntry [] None
                 end).
  assert (configurationDefaultOverrideValue forKey = storedDefault this key) as Hstored.
  { unfold forKey, storedDefault. by destruct (configurationDefaultsOverrides this !! key). }
  cbn [configurationDefaultOverrides configurationDefaultOverrideValue].
  unfold recordedEntry.
  destruct (OVERRIDE_PROPERTY_REGEX_test key) eqn:Hpattern.
  - destruct (mergeDefaultConfigurationsForOverrideIdentifier _ _ _ _)
      as [[stored|]| |] eqn:Hmerge; [| |done|done].
    + intros [= <- <- <-]. simpl. split.
      * split; [set_solver|]. intros _. rewrite lookup_insert_eq. split; [done|].
        intros identifier Hidentifier. rewrite elem_of_app. by right.
      * intros earlier [Hbucket Hsection]. split; [set_solver|].
        intros Hearlier. destruct (Hsection Hearlier) as [Hproperty Hidentifiers].
        split.
        -- destruct (decide (key = earlier.1)) as [<-|Hother].
           ++ by rewrite lookup_insert_eq.
           ++ by rewrite lookup_insert_ne.
        -- intros identifier Hidentifier. rewrite elem_of_app. left. by apply Hidentifiers.
    + exfalso. revert Hmerge.
      apply mergeDefaultConfigurationsForOverrideIdentifier_stores.
      intros previous Hprevious. apply (Hmaps key); [done|]. by rewrite <- Hstored.
  - assert (∀ that bucket0 identifiers0,
              configurationProperties that = configurationProperties this
              ∨ (∃ property, is_Some (configurationProperties this !! key)
                             ∧ configurationProperties that
                               = <[key := property]> (configurationProperties this)) →
              bucket0 = bucket ∪ {[ key ]} →
              identifiers0 = identifiers →
              (key ∈ bucket0
               ∧ (OVERRIDE_PROPERTY_REGEX_test key = true →
                  is_Some (configurationProperties that !! key)
                  ∧ ∀ identifier, identifier ∈ overrideIdentifiersFromKey key →
                                  identifier ∈ identifiers0))
              ∧ ∀ earlier : string * value,
                  earlier.1 ∈ bucket
                  ∧ (OVERRIDE_PROPERTY_REGEX_test earlier.1 = true →
                     is_Some (configurationProperties this !! earlier.1)
                     ∧ ∀ identifier, identifier ∈ overrideIdentifiersFromKey earlier.1 →
                                     identifier ∈ identifiers) →
                  earlier.1 ∈ bucket0
                  ∧ (OVERRIDE_PROPERTY_REGEX_test earlier.1 = true →
                     is_Some (configurationProperties that !! earlier.1)
                     ∧ ∀ identifier, identifier ∈ overrideIdentifiersFromKey earlier.1 →
                                     identifier ∈ identifiers0)) as Hplain.
    { intros that bucket0 identifiers0 Hproperties -> ->.
      split; [split; [set_solver|congruence]|].
      intros earlier [Hbucket Hsection]. split; [set_solver|].
      intros Hearlier. destruct (Hsection Hearlier) as [Hproperty Hidentifiers].
      split; [|done].
      destruct Hproperties as [->|(property & Hkey & ->)]; [done|].
      destruct (decide (key = earlier.1)) as [<-|Hother].
      - by rewrite lookup_insert_eq.
      - by rewrite lookup_insert_ne. }
    destruct (mergeDefaultConfigurationsForConfigurationProperty _ _ _ _ _) as [stored|].
    + simpl. destruct (configurationProperties this !! key) as [property|] eqn:Hkey;
        intros [= <- <- <-]; apply Hplain; try done.
      * right. eexists. split; [by eexists|reflexivity].
      * by left.
    + intros [= <- <- <-]. apply Hplain; try done. by left.
Qed.

(** X23: after a [registerDefaultConfigurations] that returns, on a
    registry whose section defaults have maps as provenance, every contributed
    key is among the properties reported, and every contributed
    override-section key has a registered property and its identifiers are
    registered override identifiers. *)
Theorem registerDefaultConfigurations_records this configurationDefaults this' bucket :
  sourcesAreMaps this →
  registerDefaultConfigurations this configurationDefaults = Returned (this', bucket) →
  ∀ contribution key v,
    contribution ∈ configurationDefaults →
    (key, v) ∈ overrides contribution →
    key ∈ bucket
    ∧ (OVERRIDE_PROPERTY_REGEX_test key = true →
       is_Some (configurationProperties this' !! key)
       ∧ ∀ identifier, identifier ∈ overrideIdentifiersFromKey key →
                       identifier ∈ overrideIdentifiers this').
Proof.
  intros Hmaps.
  unfold registerDefaultConfigurations, doRegisterDefaultConfigurations.
  destruct (foldOutcome _ _ configurationDefaults) as [[[that bucket'] identifiers]| |]
    eqn:Hfold; simpl; [|done|done].
  intros [= <- <-] contribution key v Hcontribution Hentry.
  apply (foldOutcome_each
           (fun st => sourcesAreMaps st.1.1)
           (fun contribution st =>
              ∀ entry, entry ∈ overrides contribution → recordedEntry entry st))
    in Hfold as (_ & Hrecorded & _).
  - destruct (Hrecorded contribution Hcontribution (key, v) Hentry) as [Hbucket Hsection].
    split; [done|]. intros Hpattern. destruct (Hsection Hpattern) as [Hproperty Hidentifiers].
    split; [done|]. intros identifier Hidentifier. simpl.
    apply elem_of_union. right. apply elem_of_list_to_set. by apply Hidentifiers.
  - clear. intros [[a bucketa] idsa] contribution [[a' bucketa'] idsa'] Ha Hcontribution.
    apply (foldOutcome_each (fun st => sourcesAreMaps st.1.1) recordedEntry)
      in Hcontribution as (Ha' & Hrecorded & Hkept); [|clear|done].
    + split; [done|]. split; [done|].
      intros earlier Hearlier entry Hentry. by apply Hkept, Hearlier.
    + intros [[b bucketb] idsb] entry [[b' bucketb'] idsb'] Hb Hentry.
      by apply (registerDefaultConfiguration_records _ _ _ _ _ _ _ _ Hb Hentry).
  - done.
Qed.

(** X23 at the empty registry and a contribution for [[typescript]]. *)
Lemma registerDefaultConfigurations_records_witness :
  ∃ this' bucket,
    registerDefaultConfigurations new [typescriptDefaults] = Returned (this', bucket)
    ∧ "[typescript]" ∈ bucket
    ∧ is_Some (configurationProperties this' !! "[typescript]")
    ∧ "typescript" ∈ overrideIdentifiers this'.
Proof.
  destruct (registerDefaultConfigurations new [typescriptDefaults])
    as [[this' bucket]| |] eqn:Hcall;
    [|vm_compute in Hcall; discriminate Hcall..].
  exists this', bucket. split; [reflexivity|].
  destruct (registerDefaultConfigurations_records new [typescriptDefaults] this' bucket)
    with (contribution := typescriptDefaults) (key := "[typescript]")
         (v := JObj {[ "editor.tabSize" := JNum 2 ]})
    as [Hbucket Hsection].
  - intros key stored _ Hstored. unfold storedDefault in Hstored. simpl in Hstored.
    by rewrite lookup_empty in Hstored.
  - exact Hcall.
  - apply list_elem_of_here.
  - apply list_elem_of_here.
  - destruct (Hsection eq_refl) as [Hproperty Hidentifiers].
    split; [exact Hbucket|]. split; [exact Hproperty|].
    apply Hidentifiers. vm_compute. apply list_elem_of_here.
Defined.

End IdentifiersOfDefaults.

(** ** The filter of the parser *)

Section ParserFilter.

Import ConfigurationModelParser Filtering.

Implicit Types (cp : gmap string ConfigurationRegistry.IConfigurationPropertySchema)
               (options : ConfigurationParseOptions) (recur : value → Filtered).

Lemma filterProperty_loop recur cp flag options l r rs h :
  foldl (filterProperty recur cp flag options) (∅, [], false) l = (r, rs, h) →
  (∀ k w, r !! k = Some w → ∃ v, (k, v) ∈ l ∧ entryOut recur cp flag options k v = Some w)
  ∧ (NoDup l.*1 → ∀ k v, (k, v) ∈ l → r !! k = entryOut recur cp flag options k v)
  ∧ (∀ k, k ∈ rs ↔ ∃ key v, (key, v) ∈ l ∧ entryReports recur cp flag key v k)
  ∧ (h = true ↔ ∃ key v, (key, v) ∈ l ∧ entryDrops recur cp flag options key v).
Proof.
  revert r rs h. induction l as [|[key v] l IH] using rev_ind; intros r rs h.
  - simpl. intros [= <- <- <-]. split; [by intros k w; rewrite lookup_empty|].
    split; [by intros _ k v ?%elem_of_nil|].
    split; [intros k; split; [by intros ?%elem_of_nil|by intros (? & ? & ?%elem_of_nil & _)]|].
    split; [done|by intros (? & ? & ?%elem_of_nil & _)].
  - rewrite foldl_app. cbn [foldl].
    destruct (foldl _ _ l) as [[r0 rs0] h0] eqn:Hloop.
    destruct (IH r0 rs0 h0 eq_refl) as (Hout & Hin & Hreports & Hdrops).
    unfold filterProperty.
    intros Hstep.
    assert (r = match entryOut recur cp flag options key v with
                | Some w => <[key := w]> r0
                | None => r0
                end
            ∧ (∀ k, k ∈ rs ↔ k ∈ rs0 ∨ entryReports recur cp flag key v k)
            ∧ (h = true ↔ h0 = true ∨ entryDrops recur cp flag options key v))
      as (-> & Hrs & Hh).
    { revert Hstep. unfold entryOut, entryReports, entryDrops.
      destruct (OVERRIDE_PROPERTY_REGEX_test key && flag).
      - intros [= <- <- <-]. split; [done|]. split.
        + intros k. by rewrite elem_of_app.
        + by rewrite orb_true_iff.
      - destruct (passes options (cp !! key) key); intros [= <- <- <-];
          (split; [done|]); (split; [|naive_solver]); intros k;
          destruct (isRestricted (cp !! key));
          rewrite ?elem_of_app, ?list_elem_of_singleton; naive_solver. }
    split; [|split; [|split]].
    + intros k w Hk.
      destruct (entryOut recur cp flag options key v) as [w'|] eqn:Hentry.
      * destruct (decide (key = k)) as [<-|Hother].
        -- rewrite lookup_insert_eq in Hk. injection Hk as <-.
           exists v. split; [|done]. apply elem_of_app. right. by apply list_elem_of_singleton.
        -- rewrite lookup_insert_ne in Hk by done.
           destruct (Hout k w Hk) as (v' & Hv' & Hw). exists v'. split; [|done].
           apply elem_of_app. by left.
      * destruct (Hout k w Hk) as (v' & Hv' & Hw). exists v'. split; [|done].
        apply elem_of_app. by left.
    + rewrite fmap_app. intros [Hnodup [Hfresh _]]%NoDup_app k v'.
      simpl in Hfresh.
      intros [Hl|Hlast%list_elem_of_singleton]%elem_of_app.
      * assert (key ≠ k) as Hother.
        { intros ->. apply (Hfresh k); [|by left].
          apply list_elem_of_fmap. by exists (k, v'). }
        rewrite <- (Hin Hnodup k v' Hl).
        destruct (entryOut recur cp flag options key v); [by rewrite lookup_insert_ne|done].
      * injection Hlast as -> ->.
        destruct (entryOut recur cp flag options key v) as [w|] eqn:Hentry.
        -- by rewrite lookup_insert_eq.
        -- destruct (r0 !! key) as [w|] eqn:Hold; [|done].
           destruct (Hout key w Hold) as (v' & Hv' & _). exfalso.
           apply (Hfresh key); [|by left]. apply list_elem_of_fmap. by exists (key, v').
    + intros k. rewrite Hrs, Hreports. split.
      * intros [(key' & v' & Hl & Hr)|Hr].
        -- exists key', v'. split; [|done]. apply elem_of_app. by left.
        -- exists key, v. split; [|done]. apply elem_of_app. right.
           by apply list_elem_of_singleton.
      * intros (key' & v' & [Hl|Hl%list_elem_of_singleton]%elem_of_app & Hr).
        -- left. by exists key', v'.
        -- right. by injection Hl as -> ->.
    + rewrite Hh, Hdrops. split.
      * intros [(key' & v' & Hl & Hr)|Hr].
        -- exists key', v'. split; [|done]. apply elem_of_app. by left.
        -- exists key, v. split; [|done]. apply elem_of_app. right.
           by apply list_elem_of_singleton.
      * intros (key' & v' & [Hl|Hl%list_elem_of_singleton]%elem_of_app & Hr).
        -- left. by exists key', v'.
        -- right. by injection Hl as -> ->.
Qed.

Lemma includes_excluded options key :
  includes (exclude options) key = true → nothingToFilter (Some options) = false.
Proof.
  unfold includes, nothingToFilter. destruct (exclude options) as [[|excluded rest]|].
  - intros Hkey%bool_decide_eq_true. by apply elem_of_nil in Hkey.
  - intros _. by rewrite !andb_false_r.
  - done.
Qed.

Lemma filterWith_filtered recur properties cp flag options :
  nothingToFilter (Some options) = false →
  ∃ r, raw (filterWith recur properties cp flag (Some options)) = JObj r
       ∧ (∀ k w, r !! k = Some w →
                 ∃ v, (k, v) ∈ forIn properties
                      ∧ entryOut recur cp flag options k v = Some w)
       ∧ (NoDup (forIn properties).*1 →
          ∀ k v, (k, v) ∈ forIn properties → r !! k = entryOut recur cp flag options k v)
       ∧ (∀ k, k ∈ restricted (filterWith recur properties cp flag (Some options))
               ↔ ∃ key v, (key, v) ∈ forIn properties ∧ entryReports recur cp flag key v k)
       ∧ (hasExcludedProperties (filterWith recur properties cp flag (Some options)) = true
          ↔ ∃ key v, (key, v) ∈ forIn properties
                     ∧ entryDrops recur cp flag options key v).
Proof.
  intros Hguard. unfold filterWith. rewrite Hguard.
  destruct (foldl _ _ _) as [[r rs] h] eqn:Hloop. exists r. split; [done|].
  by apply filterProperty_loop.
Qed.

Lemma filterWith_unchanged recur o cp flag (parseOptions : option ConfigurationParseOptions) :
  (∀ key v, o !! key = Some v → OVERRIDE_PROPERTY_REGEX_test key && flag = true →
            hasExcludedProperties (recur v) = false ↔ raw (recur v) = v) →
  hasExcludedProperties (filterWith recur (JObj o) cp flag parseOptions) = false
  ↔ raw (filterWith recur (JObj o) cp flag parseOptions) = JObj o.
Proof.
  intros Hrecur.
  destruct (nothingToFilter parseOptions) eqn:Hguard.
  { unfold filterWith. by rewrite Hguard. }
  destruct parseOptions as [options|]; [|done].
  destruct (filterWith_filtered recur (JObj o) cp flag options Hguard)
    as (r & -> & Hout & Hin & _ & Hdrops).
  specialize (Hin (NoDup_fst_map_to_list o)). simpl in Hout, Hin, Hdrops.
  rewrite <- not_true_iff_false, Hdrops. split.
  - intros Hkept. f_equal. apply map_eq. intros k.
    destruct (o !! k) as [v|] eqn:Hk.
    + rewrite (Hin k v) by by apply elem_of_map_to_list.
      unfold entryOut. destruct (OVERRIDE_PROPERTY_REGEX_test k && flag) eqn:Hsection.
      * f_equal. apply (Hrecur k v Hk Hsection). apply not_true_iff_false.
        intros Hdropped. apply Hkept. exists k, v. split; [by apply elem_of_map_to_list|].
        unfold entryDrops. by rewrite Hsection.
      * destruct (passes options (cp !! k) k) eqn:Hpasses; [done|].
        destruct Hkept. exists k, v. split; [by apply elem_of_map_to_list|].
        unfold entryDrops. by rewrite Hsection.
    + destruct (r !! k) as [w|] eqn:Hr; [|done].
      destruct (Hout k w Hr) as (v & Hv%elem_of_map_to_list & _). congruence.
  - intros [= ->] (key & v & Hv & Hdropped).
    specialize (Hin key v Hv). apply elem_of_map_to_list in Hv.
    revert Hin Hdropped. unfold entryOut, entryDrops. rewrite Hv.
    destruct (OVERRIDE_PROPERTY_REGEX_test key && flag) eqn:Hsection.
    + intros [= Hraw] Hdropped. symmetry in Hraw.
      apply (Hrecur key v Hv Hsection) in Hraw. congruence.
    + intros Hpasses Hfalse. by rewrite Hfalse in Hpasses.
Qed.

(** X24: for a document whose override sections are objects, [filter]
    reports no excluded property exactly when the document it returns is the
    document it was given. *)
Theorem filter_unchanged o cp (parseOptions : option ConfigurationParseOptions) :
  sectionsAreObjects o →
  hasExcludedProperties (filter (JObj o) cp true parseOptions) = false
  ↔ raw (filter (JObj o) cp true parseOptions) = JObj o.
Proof.
  intros Hsections. apply filterWith_unchanged.
  intros key v Hv Hsection. apply andb_true_iff in Hsection as [Hsection _].
  destruct (Hsections key v Hv Hsection) as [section ->].
  apply filterWith_unchanged. intros key' v' _ Hflag. by rewrite andb_false_r in Hflag.
Qed.

(** X24 at a document with a restricted setting, filtered with
    [skipRestricted]: a property is excluded and the document changes. *)
Lemma filter_unchanged_witness :
  hasExcludedProperties (filter (JObj document) catalogue true (Some restrictedSkipped))
  = true
  ∧ raw (filter (JObj document) catalogue true (Some restrictedSkipped)) ≠ JObj document.
Proof.
  destruct (filter_unchanged document catalogue (Some restrictedSkipped))
    as [_ Hunchanged].
  - intros key v Hv%elem_of_map_to_list Hsection. vm_compute in Hv.
    repeat (apply elem_of_cons in Hv as [Hv|Hv]);
      [| | |by apply elem_of_nil in Hv];
      injection Hv as -> ->;
      first [vm_compute in Hsection; discriminate Hsection|by eexists].
  - split; [reflexivity|]. intros Hraw. apply Hunchanged in Hraw.
    vm_compute in Hraw. discriminate Hraw.
Defined.

(** X25: a key the options exclude is in no document [filter] returns,
    whatever [include] lists: it is left out at the top level unless it is an
    override-section key, and out of every override section. *)
Theorem filter_excluded_key properties cp options key :
  includes (exclude options) key = true →
  ∃ r, raw (filter properties cp true (Some options)) = JObj r
       ∧ (OVERRIDE_PROPERTY_REGEX_test key = false → r !! key = None)
       ∧ ∀ s section, OVERRIDE_PROPERTY_REGEX_test s = true →
                      r !! s = Some section →
                      ∃ rs, section = JObj rs ∧ rs !! key = None.
Proof.
  intros Hexcluded. pose proof (includes_excluded _ _ Hexcluded) as Hguard.
  assert (passes options (cp !! key) key = false) as Hpasses.
  { unfold passes. by rewrite Hexcluded. }
  destruct (filterWith_filtered
              (fun section => filterOverridden section cp (Some options))
              properties cp true options Hguard) as (r & Hr & Hout & _).
  exists r. split; [done|]. split.
  - intros Hplain. destruct (r !! key) as [w|] eqn:Hkey; [|done].
    destruct (Hout key w Hkey) as (v & _ & Hentry). revert Hentry.
    unfold entryOut. by rewrite Hplain, Hpasses.
  - intros s section Hsection Hs.
    destruct (Hout s section Hs) as (v & _ & Hentry). revert Hentry.
    unfold entryOut. rewrite Hsection. simpl. intros [= <-].
    destruct (filterWith_filtered (fun section => mkFiltered section [] false)
                v cp false options Hguard) as (rs & Hrs & Houts & _).
    exists rs. split; [done|].
    destruct (rs !! key) as [w|] eqn:Hkey; [|done].
    destruct (Houts key w Hkey) as (v' & _ & Hentry). revert Hentry.
    unfold entryOut. by rewrite andb_false_r, Hpasses.
Qed.

(** X25 at [security.trust], excluded and included at once, set at the
    top level and in the section [[typescript]]. *)
Lemma filter_excluded_key_witness :
  ∃ r, raw (filter (JObj document) catalogue true (Some trustExcluded)) = JObj r
       ∧ r !! "security.trust" = None
       ∧ ∃ rs, r !! "[typescript]" = Some (JObj rs) ∧ rs !! "security.trust" = None.
Proof.
  destruct (filter_excluded_key (JObj document) catalogue trustExcluded "security.trust")
    as (r & Hraw & Hplain & Hsections).
  - reflexivity.
  - exists r. split; [exact Hraw|]. split; [by apply Hplain|].
    destruct (r !! "[typescript]") as [section|] eqn:Hsection.
    + destruct (Hsections "[typescript]" section eq_refl Hsection) as (rs & -> & Hrs).
      exists rs. split; [reflexivity|exact Hrs].
    + exfalso. revert Hraw Hsection. vm_compute. by intros [= <-].
Defined.

(** X26: whenever [filter] filters at all, an override section of the
    document is in the document returned, as an object, whatever the options
    exclude; and the document returned has no other override section. *)
Theorem filter_keeps_sections o cp options s :
  nothingToFilter (Some options) = false →
  OVERRIDE_PROPERTY_REGEX_test s = true →
  ∃ r, raw (filter (JObj o) cp true (Some options)) = JObj r
       ∧ (is_Some (r !! s) ↔ is_Some (o !! s))
       ∧ ∀ section, r !! s = Some section → ∃ rs, section = JObj rs.
Proof.
  intros Hguard Hsection.
  destruct (filterWith_filtered
              (fun section => filterOverridden section cp (Some options))
              (JObj o) cp true options Hguard) as (r & Hr & Hout & Hin & _).
  specialize (Hin (NoDup_fst_map_to_list o)). simpl in Hout, Hin.
  exists r. split; [done|]. split; [split|].
  - intros [w Hw]. destruct (Hout s w Hw) as (v & Hv%elem_of_map_to_list & _). by exists v.
  - intros [v Hv]. rewrite (Hin s v) by by apply elem_of_map_to_list.
    unfold entryOut. rewrite Hsection. by eexists.
  - intros section Hs. destruct (Hout s section Hs) as (v & _ & Hentry). revert Hentry.
    unfold entryOut. rewrite Hsection. simpl. intros [= <-].
    destruct (filterWith_filtered (fun section => mkFiltered section [] false)
                v cp false options Hguard) as (rs & Hrs & _).
    by exists rs.
Qed.

(** X26 at the section [[typescript]] with [[typescript]] excluded. *)
Lemma filter_keeps_sections_witness :
  ∃ r, raw (filter (JObj document) catalogue true (Some sectionExcluded)) = JObj r
       ∧ is_Some (r !! "[typescript]").
Proof.
  destruct (filter_keeps_sections document catalogue sectionExcluded "[typescript]")
    as (r & Hraw & Hkept & _).
  - reflexivity.
  - reflexivity.
  - exists r. split; [exact Hraw|]. apply Hkept. by eexists.
Defined.

(** X27: whenever [filter] filters at all, the restricted keys it reports
    are the keys of the document, at the top level or in an override section,
    that the registry holds as restricted, whether the filter keeps them or
    not. *)
Theorem filter_restricted o cp options k :
  nothingToFilter (Some options) = false →
  k ∈ restricted (filter (JObj o) cp true (Some options))
  ↔ isRestricted (cp !! k) = true
    ∧ ((OVERRIDE_PROPERTY_REGEX_test k = false ∧ is_Some (o !! k))
       ∨ ∃ s v, OVERRIDE_PROPERTY_REGEX_test s = true ∧ o !! s = Some v
                ∧ k ∈ (forIn v).*1).
Proof.
  intros Hguard.
  destruct (filterWith_filtered
              (fun section => filterOverridden section cp (Some options))
              (JObj o) cp true options Hguard) as (r & _ & _ & _ & Hreports & _).
  unfold filter. rewrite Hreports. clear Hreports. simpl.
  assert (∀ v, k ∈ restricted (filterOverridden v cp (Some options))
               ↔ isRestricted (cp !! k) = true ∧ k ∈ (forIn v).*1) as Hinner.
  { intros v.
    destruct (filterWith_filtered (fun section => mkFiltered section [] false)
                v cp false options Hguard) as (rs & _ & _ & _ & Hreports & _).
    unfold filterOverridden. rewrite Hreports. unfold entryReports. split.
    - intros (key & v' & Hv' & Hentry). rewrite andb_false_r in Hentry.
      destruct Hentry as [-> Hrestricted]. split; [done|].
      apply list_elem_of_fmap. by exists (k, v').
    - intros [Hrestricted ([key v'] & -> & Hv')%list_elem_of_fmap].
      exists key, v'. split; [done|]. by rewrite andb_false_r. }
  split.
  - intros (key & v & Hv%elem_of_map_to_list & Hentry). revert Hentry.
    unfold entryReports. rewrite andb_true_r.
    destruct (OVERRIDE_PROPERTY_REGEX_test key) eqn:Hsection.
    + intros [Hrestricted Hk]%Hinner. split; [done|]. right. by exists key, v.
    + intros [-> Hrestricted]. split; [done|]. left. split; [done|by exists v].
  - intros [Hrestricted [[Hplain [v Hv]]|(s & v & Hsection & Hv & Hk)]].
    + exists k, v. split; [by apply elem_of_map_to_list|].
      unfold entryReports. by rewrite Hplain.
    + exists s, v. split; [by apply elem_of_map_to_list|].
      unfold entryReports. rewrite Hsection. simpl. by apply Hinner.
Qed.

(** X27 at [skipRestricted]: the restricted [security.trust] is reported
    and [editor.fontSize] is not. *)
Lemma filter_restricted_witness :
  "security.trust"
  ∈ restricted (filter (JObj document) catalogue true (Some restrictedSkipped))
  ∧ "editor.fontSize"
    ∉ restricted (filter (JObj document) catalogue true (Some restrictedSkipped)).
Proof.
  split.
  - apply (filter_restricted document catalogue restrictedSkipped "security.trust").
    + reflexivity.
    + split; [reflexivity|]. left. split; [reflexivity|]. by eexists.
  - intros Hreported.
    apply (filter_restricted document catalogue restrictedSkipped "editor.fontSize")
      in Hreported as [Hrestricted _]; [|reflexivity].
    vm_compute in Hrestricted. discriminate Hrestricted.
Defined.

End ParserFilter.
